(** * Lightning browser extension: Taproot signing and payment connectors

    A shallow embedding of

    - [Bitcoin] (class [Bitcoin] with [signPsbt], [getPsbtPreview],
      and the helpers [toXOnly], [tweakSigner], [tapTweakHash]),
    - [Commando] (the Commando connector), and
    - [NWC] (the Nostr Wallet Connect connector),

    followed by the properties established about them.

    Conventions.  A JavaScript function that may throw, and an [async]
    function whose promise may reject, is a computation in the monad [M]: it
    returns [Ok v] or [Throw e] and logs every call it makes to an
    external collaborator (key provider, PSBT library, remote node).  The
    collaborators themselves are not part of the program: they are the
    fields of a record of functions the program is run against. *)

From Stdlib Require Import ZArith Ascii String SpecFloat.
From stdpp Require Import base list strings pretty gmap.

Local Open Scope string_scope.
Local Open Scope list_scope.
Local Open Scope Z_scope.

(** ** Exceptions, results, and the logging monad *)

(** What a [throw] carries: [new Error(msg)], or the [TypeError] the
    runtime raises on a property read of [undefined]. *)
Inductive exn : Type :=
| Error (msg : string)
| TypeError (msg : string).

Inductive result (A : Type) : Type :=
| Ok (a : A)
| Throw (e : exn).
Arguments Ok {A} a.
Arguments Throw {A} e.

Definition is_Ok {A} (r : result A) : bool :=
  match r with Ok _ => true | Throw _ => false end.

Section Monad.
Context {Ev : Type}.

(** A computation is its outcome together with the calls it made, in
    order. *)
Definition M (A : Type) : Type := (result A * list Ev)%type.

Definition ret {A} (a : A) : M A := (Ok a, []).

Definition throw {A} (e : exn) : M A := (Throw e, []).

Definition bind {A B} (m : M A) (k : A → M B) : M B :=
  match m with
  | (Ok a, evs) => let '(r, evs') := k a in (r, evs ++ evs')
  | (Throw e, evs) => (Throw e, evs)
  end.

(** A call to a collaborator: the call is logged and its answer (a value
    or an exception) becomes the outcome. *)
Definition call {A} (ev : Ev) (answer : result A) : M A := (answer, [ev]).

(** A library function that may throw and is not logged. *)
Definition lift {A} (r : result A) : M A := (r, []).

(** [try { m } catch (e) { h e }] *)
Definition try_catch {A} (m : M A) (h : exn → M A) : M A :=
  match m with
  | (Ok a, evs) => (Ok a, evs)
  | (Throw e, evs) => let '(r, evs') := h e in (r, evs ++ evs')
  end.

Definition outcome {A} (m : M A) : result A := fst m.
Definition calls {A} (m : M A) : list Ev := snd m.
End Monad.
Arguments M : clear implicits.

Notation "'let*' x ':=' m 'in' k" := (bind m (λ x, k))
  (at level 10, x name, m at level 100, k at level 200).

(** ** JavaScript values used by the three classes *)

(** A [Buffer] / [Uint8Array]: its bytes, each in [0, 256). *)
Definition Buffer : Type := list Z.

(** Truthiness of an optional string ([undefined], [null] and [""] are
    falsy). *)
Definition truthy_str (s : option string) : bool :=
  match s with
  | None => false
  | Some s => negb (String.eqb s "")
  end.

(** ** JavaScript numbers and strings *)

Module Js.

(** A JavaScript number: an IEEE 754 binary64 value, with the arithmetic
    of the standard (every result rounded to the nearest value, ties to
    even; overflow to an infinity; signed zeros; one NaN), as [SpecFloat]
    defines it for a mantissa of 53 bits. *)
Definition number : Type := spec_float.

Definition prec : Z := 53.
Definition emax : Z := 1024.

Definition NaN : number := S754_nan.

Definition Infinity (positive : bool) : number := S754_infinity (negb positive).

(** The number nearest to the integer [z]. *)
Definition of_Z (z : Z) : number := binary_normalize prec emax z 0 false.

(** [a / b] *)
Definition div (a b : number) : number := SFdiv prec emax a b.

(** [a + b] *)
Definition add (a b : number) : number := SFadd prec emax a b.

(** [a - b] *)
Definition sub (a b : number) : number := SFsub prec emax a b.

(** [a * b] *)
Definition mul (a b : number) : number := SFmul prec emax a b.

(** [-a] *)
Definition neg (a : number) : number := SFopp a.

(** Truthiness of a number: [+0], [-0] and [NaN] are falsy. *)
Definition truthy (a : number) : bool :=
  match a with
  | S754_zero _ | S754_nan => false
  | S754_infinity _ | S754_finite _ _ _ => true
  end.

(** The number nearest to [m * 10 ^ e], for [0 <= m].  For a negative
    exponent the quotient by [10 ^ (- e)] is taken with 65 bits or more
    and a last bit that tells whether the division left a remainder, and
    that is rounded. *)
Definition of_decimal (m e : Z) : number :=
  if 0 <=? e then of_Z (m * 10 ^ e)
  else
    let d := 10 ^ (- e) in
    let s := Z.log2 d + 65 in
    let q := (m * 2 ^ s) / d in
    let sticky := if (m * 2 ^ s) mod d =? 0 then 0 else 1 in
    binary_normalize prec emax (2 * q + sticky) (- (s + 1)) false.

(** The byte of a character; a string of the model is its UTF-8
    encoding. *)
Definition code (c : ascii) : Z := Z.of_N (N_of_ascii c).

(** [WhiteSpace] and [LineTerminator], as [StrWhiteSpaceChar] has them,
    each by its UTF-8 bytes: U+0009 to U+000D and U+0020; U+00A0; U+1680;
    U+2000 to U+200A, U+2028, U+2029 and U+202F; U+205F; U+3000;
    U+FEFF. *)
Definition is_white_space (char : list Z) : bool :=
  match char with
  | [a] => (a =? 32) || ((9 <=? a) && (a <=? 13))
  | [a; b] => (a =? 194) && (b =? 160)
  | [a; b; c] =>
      ((a =? 225) && (b =? 154) && (c =? 128))
      || ((a =? 226) && (b =? 128)
          && (((128 <=? c) && (c <=? 138)) || (c =? 168) || (c =? 169)
              || (c =? 175)))
      || ((a =? 226) && (b =? 129) && (c =? 159))
      || ((a =? 227) && (b =? 128) && (c =? 128))
      || ((a =? 239) && (b =? 187) && (c =? 191))
  | _ => false
  end.

(** The number of bytes of the white-space character at the head of [s],
    0 when there is none; [order] is [id], or [reverse] when [s] is a
    string read from its end. *)
Definition white_space_length (order : list Z → list Z) (s : list ascii) : nat :=
  if is_white_space (order (code <$> take 1 s)) then 1
  else if is_white_space (order (code <$> take 2 s)) then 2
  else if is_white_space (order (code <$> take 3 s)) then 3
  else 0.

(** [s] without the white space at its head; [fuel] bounds the number of
    characters skipped. *)
Fixpoint skip_white_space (order : list Z → list Z) (fuel : nat) (s : list ascii)
  : list ascii :=
  match fuel with
  | O => s
  | S fuel =>
      match white_space_length order s with
      | O => s
      | n => skip_white_space order fuel (drop n s)
      end
  end.

Definition trim_start (s : list ascii) : list ascii :=
  skip_white_space id (length s) s.

Definition trim (s : list ascii) : list ascii :=
  let t := reverse (trim_start s) in
  reverse (skip_white_space reverse (length t) t).

(** The value of [c] as a digit of the given radix. *)
Definition digit_of (radix : Z) (c : ascii) : option Z :=
  let n := Z.of_N (N_of_ascii c) in
  let v := if (48 <=? n) && (n <=? 57) then Some (n - 48)
           else if (97 <=? n) && (n <=? 122) then Some (n - 87)
           else if (65 <=? n) && (n <=? 90) then Some (n - 55)
           else None in
  match v with
  | Some v => if v <? radix then Some v else None
  | None => None
  end.

(** The longest run of digits at the head of [s]: its value (continuing
    from [acc]), the number of digits read (continuing from [count]), and
    what follows. *)
Fixpoint span_digits (radix : Z) (s : list ascii) (acc : Z) (count : nat)
  : Z * nat * list ascii :=
  match s with
  | c :: s' =>
      match digit_of radix c with
      | Some v => span_digits radix s' (acc * radix + v) (S count)
      | None => (acc, count, s)
      end
  | [] => (acc, count, [])
  end.

(** An optional sign: the factor and what follows. *)
Definition read_sign (s : list ascii) : bool * list ascii :=
  match s with
  | "+"%char :: t => (false, t)
  | "-"%char :: t => (true, t)
  | _ => (false, s)
  end.

(** [ExponentPart], when one is at the head of [s]. *)
Definition read_exponent (s : list ascii) : Z * list ascii :=
  match s with
  | c :: s1 =>
      if Ascii.eqb c "e" || Ascii.eqb c "E" then
        let '(negative, s2) := read_sign s1 in
        let '(v, n, rest) := span_digits 10 s2 0 0 in
        if (n =? 0)%nat then (0, s) else ((if negative then - v else v), rest)
      else (0, s)
  | [] => (0, [])
  end.

(** The longest [StrUnsignedDecimalLiteral] at the head of [s]. *)
Definition read_unsigned_decimal (s : list ascii)
  : option (number * list ascii) :=
  if bool_decide (take 8 s = list_ascii_of_string "Infinity")
  then Some (Infinity true, drop 8 s)
  else
    let '(ip, ni, r1) := span_digits 10 s 0 0 in
    let '(m, nf, r2) :=
      match r1 with
      | "."%char :: t =>
          let '(m, n, r2) := span_digits 10 t ip ni in
          (m, (n - ni)%nat, r2)
      | _ => (ip, 0%nat, r1)
      end in
    if ((ni + nf)%nat =? 0)%nat then None
    else
      let '(e, r3) := read_exponent r2 in
      Some (of_decimal m (e - Z.of_nat nf), r3).

(** The longest [StrDecimalLiteral] at the head of [s]. *)
Definition read_decimal (s : list ascii) : option (number * list ascii) :=
  let '(negative, t) := read_sign s in
  match read_unsigned_decimal t with
  | Some (v, rest) => Some ((if negative then neg v else v), rest)
  | None => None
  end.

(** [0x], [0o] and [0b] literals. *)
Definition read_non_decimal (s : list ascii) : option number :=
  match s with
  | "0"%char :: p :: t =>
      let radix :=
        if Ascii.eqb p "x" || Ascii.eqb p "X" then Some 16
        else if Ascii.eqb p "o" || Ascii.eqb p "O" then Some 8
        else if Ascii.eqb p "b" || Ascii.eqb p "B" then Some 2
        else None in
      match radix with
      | Some radix =>
          match span_digits radix t 0 0 with
          | (v, S _, []) => Some (of_Z v)
          | _ => Some NaN
          end
      | None => None
      end
  | _ => None
  end.

(** [ToNumber] applied to a string: what [s / 1000] and [a - b] do to a
    string operand. *)
Definition StringToNumber (s : string) : number :=
  let t := trim (list_ascii_of_string s) in
  match t with
  | [] => of_Z 0
  | _ =>
      match read_non_decimal t with
      | Some v => v
      | None =>
          match read_decimal t with
          | Some (v, []) => v
          | _ => NaN
          end
      end
  end.

(** [parseFloat(s)] *)
Definition parseFloat (s : string) : number :=
  match read_decimal (trim_start (list_ascii_of_string s)) with
  | Some (v, _) => v
  | None => NaN
  end.

(** [parseInt(s, 10)] *)
Definition parseInt10 (s : string) : number :=
  let '(negative, t) := read_sign (trim_start (list_ascii_of_string s)) in
  match span_digits 10 t 0 0 with
  | (_, O, _) => NaN
  | (v, _, _) => if negative then neg (of_Z v) else of_Z v
  end.

(** What follows [pattern] in [s], when [s] starts with it. *)
Fixpoint strip_prefix (pattern s : string) : option string :=
  match pattern with
  | EmptyString => Some s
  | String a pattern' =>
      match s with
      | String b s' => if Ascii.eqb a b then strip_prefix pattern' s' else None
      | EmptyString => None
      end
  end.

(** [s.replace(pattern, replacement)] with a string pattern: the first
    occurrence only. *)
Fixpoint replace (pattern replacement s : string) : string :=
  match strip_prefix pattern s with
  | Some rest => replacement +:+ rest
  | None =>
      match s with
      | String c s' => String c (replace pattern replacement s')
      | EmptyString => EmptyString
      end
  end.

Definition hex_digit (n : Z) : ascii :=
  ascii_of_N (Z.to_N (if n <? 10 then 48 + n else 87 + n)).

(** [wordArray.toString(Hex)]: two lower-case hexadecimal digits a byte. *)
Fixpoint Hex_stringify (bytes : list Z) : string :=
  match bytes with
  | [] => ""
  | b :: rest =>
      String (hex_digit (b / 16)) (String (hex_digit (b mod 16)) (Hex_stringify rest))
  end.

(** [UTF8.parse(s)]: the bytes of [s] (a string of the model is its UTF-8
    encoding). *)
Definition UTF8_parse (s : string) : list Z :=
  (λ c, Z.of_N (N_of_ascii c)) <$> list_ascii_of_string s.

(** Decimal digit strings, for stating what the parsers compute: the
    string written with the digits [ds] (most significant first, each below
    10), and the number it denotes. *)
Definition digit_char (d : nat) : ascii := ascii_of_nat (48 + d).

Definition digits_string (ds : list nat) : string :=
  string_of_list_ascii (digit_char <$> ds).

Definition digits_value (ds : list nat) : Z :=
  fold_left (λ acc d, 10 * acc + Z.of_nat d) ds 0.

Definition all_digits (ds : list nat) : Prop := Forall (λ d, (d < 10)%nat) ds.

End Js.

(** ** The Taproot signing and preview engine *)

Module Bitcoin.

(** The order of the secp256k1 group. *)
Definition curve_order : Z :=
  0xFFFFFFFFFFFFFFFFFFFFFFFFFFFFFFFEBAAEDCE6AF48A03BBFD25E8CD0364141.

(** A scalar is a valid private key when it lies in [1, n). *)
Definition isPrivate (d : Z) : bool := (0 <? d) && (d <? curve_order).

(** A tweak is valid when it lies in [0, n). *)
Definition isTweak (t : Z) : bool := (0 <=? t) && (t <? curve_order).

(** Modelled from the spec: [ecc.privateNegate] of the secp256k1 dependency
    ("negate the private scalar"): the additive inverse modulo the curve
    order; the dependency refuses an argument that is not a private key. *)
Definition privateNegate (d : Z) : result Z :=
  if isPrivate d then Ok ((curve_order - d) mod curve_order)
  else Throw (Error "Expected Private").

(** Modelled from the spec: [ecc.privateAdd] of the secp256k1 dependency
    ("add it (mod curve order) to the private scalar"; the result is invalid
    when it "is zero or out of range"): the sum modulo the curve order,
    [null] (here [None]) when that sum is zero; the dependency refuses a
    first argument that is not a private key and a tweak outside [0, n). *)
Definition privateAdd (d t : Z) : result (option Z) :=
  if negb (isPrivate d) then Throw (Error "Expected Private")
  else if negb (isTweak t) then Throw (Error "Expected Tweak")
  else let s := (d + t) mod curve_order in
       if s =? 0 then Ok None else Ok (Some s).

Inductive BitcoinNetworkType : Type := bitcoin | testnet | regtest.

Definition BitcoinNetworkType_eqb (a b : BitcoinNetworkType) : bool :=
  match a, b with
  | bitcoin, bitcoin | testnet, testnet | regtest, regtest => true
  | _, _ => false
  end.

Definition BTC_TAPROOT_DERIVATION_PATH : string := "m/86'/0'/0'/0".
Definition BTC_TAPROOT_DERIVATION_PATH_REGTEST : string := "m/86'/1'/0'/0".

(** What [mnemonic.deriveKey] returns. *)
Record DerivedKey : Type := {
  privateKey : Z;
  publicKey : Buffer;
}.

Record TapBip32Derivation : Type := {
  masterFingerprint : Buffer;
  pubkey : Buffer;
  path : string;
}.

Record WitnessUtxo : Type := {
  script : Buffer;
  value : Z;
}.

(** An entry of [psbt.data.inputs]. *)
Record PsbtInput : Type := {
  tapInternalKey : option Buffer;
  in_tapBip32Derivation : option (list TapBip32Derivation);
  witnessUtxo : option WitnessUtxo;
}.

(** An entry of [psbt.data.outputs]. *)
Record PsbtOutput : Type := {
  out_tapBip32Derivation : option (list TapBip32Derivation);
}.

(** An entry of [psbt.txOutputs]. *)
Record TxOutput : Type := {
  txo_address : option string;
  txo_value : Z;
}.

Record Psbt : Type := {
  data_inputs : list PsbtInput;
  data_outputs : list PsbtOutput;
  txOutputs : list TxOutput;
}.

(** The [Address] entries of a [PsbtPreview]. *)
Record Address : Type := {
  amount : Z;
  address : string;
}.

Record PsbtPreview : Type := {
  inputs : list Address;
  outputs : list Address;
}.

(** The first argument of [btc.p2tr]: the code passes it a [Buffer] (a
    public key) or, from an output's explicit destination, a string. *)
Inductive P2trKey : Type :=
| KeyBytes (b : Buffer)
| KeyString (s : string).

(** The calls to collaborators that the log records. *)
Inductive event : Type :=
| EvDeriveKey (derivationPath : string)
| EvPsbtFromHex (hex : string)
| EvSignTaprootInput (index : nat)
| EvFinalizeAllInputs
| EvExtractTransaction.

Definition is_derivation (e : event) : bool :=
  match e with EvDeriveKey _ => true | _ => false end.

Definition is_signature (e : event) : bool :=
  match e with EvSignTaprootInput _ => true | _ => false end.

Section WithLibraries.
(** [bitcoin.Network], an entry of the [networks] table. *)
Context {Network : Type}.

(** A [bitcoin.Signer] as [ECPair] builds it. *)
Record Signer : Type := {
  signer_privateKey : option Z;
  signer_publicKey : Buffer;
  signer_network : Network;
}.

(** The collaborators: the [networks] table, the mnemonic (key provider),
    and the functions of bitcoinjs-lib, @scure/btc-signer and the ecc
    library that the class calls. *)
Record Libraries : Type := {
  networks : BitcoinNetworkType → Network;
  mnemonic_deriveKey : string → result DerivedKey;
  Psbt_fromHex : string → Network → result Psbt;
  pointFromScalar : Z → Buffer;
  taggedHash : string → Buffer → Z;
  p2tr_address : P2trKey → Network → result (option string);
  signTaprootInput : Psbt → nat → Signer → result Psbt;
  finalizeAllInputs : Psbt → result Psbt;
  extractTransaction_toHex : Psbt → result string;
}.

Context (lib : Libraries).

(** The fields of a [Bitcoin] object (the mnemonic is [lib]'s key
    provider). *)
Record BitcoinObj : Type := {
  networkType : BitcoinNetworkType;
  network : Network;
}.

Definition constructor (networkType : BitcoinNetworkType) : BitcoinObj :=
  {| networkType := networkType; network := networks lib networkType |}.

(** [ECPair.fromPrivateKey(buffer, {network})] *)
Definition ECPair_fromPrivateKey (d : Z) (net : Network) : result Signer :=
  if isPrivate d
  then Ok {| signer_privateKey := Some d;
             signer_publicKey := pointFromScalar lib d;
             signer_network := net |}
  else Throw (TypeError "Private key not in range [1, n)").

(** [toXOnly] *)
Definition toXOnly (pubKey : Buffer) : Buffer :=
  if (length pubKey =? 32)%nat then pubKey else take 32 (drop 1 pubKey).

(** [tapTweakHash] *)
Definition tapTweakHash (pubKey : Buffer) (h : option Buffer) : Z :=
  taggedHash lib "TapTweak"
    (concat (match h with Some h => [pubKey; h] | None => [pubKey] end)).

Record TweakOpts : Type := {
  opts_network : Network;
  tweakHash : option Buffer;
}.

(** [tweakSigner] *)
Definition tweakSigner (signer : Signer) (opts : TweakOpts) : result Signer :=
  match signer_privateKey signer with
  | None => Throw (Error "Private key is required for tweaking signer!")
  | Some privateKey =>
      let negated :=
        if decide (signer_publicKey signer !! 0%nat = Some 3)
        then privateNegate privateKey
        else Ok privateKey in
      match negated with
      | Throw e => Throw e
      | Ok privateKey =>
          match privateAdd privateKey
                  (tapTweakHash (toXOnly (signer_publicKey signer))
                                (tweakHash opts)) with
          | Throw e => Throw e
          | Ok None => Throw (Error "Invalid tweaked private key!")
          | Ok (Some tweakedPrivateKey) =>
              ECPair_fromPrivateKey tweakedPrivateKey (opts_network opts)
          end
      end
  end.

Definition derivationPathOf (this : BitcoinObj) (index : nat) : string :=
  (if BitcoinNetworkType_eqb (networkType this) bitcoin
   then BTC_TAPROOT_DERIVATION_PATH
   else BTC_TAPROOT_DERIVATION_PATH_REGTEST) +:+ "/" +:+ pretty index.

(** The [forEach] of [signPsbt]: one [signTaprootInput] per input index,
    each on the PSBT the previous one left. *)
Fixpoint signInputs (indices : list nat) (keyPair : Signer) (psbt : Psbt)
  : M event Psbt :=
  match indices with
  | [] => ret psbt
  | index :: rest =>
      let* psbt := call (EvSignTaprootInput index)
                        (signTaprootInput lib psbt index keyPair) in
      signInputs rest keyPair psbt
  end.

(** [signPsbt] *)
Definition signPsbt (this : BitcoinObj) (psbt : string) : M event string :=
  let index := 0%nat in
  let derivationPath := derivationPathOf this index in
  let* derivedKey := call (EvDeriveKey derivationPath)
                          (mnemonic_deriveKey lib derivationPath) in
  let* taprootPsbt := call (EvPsbtFromHex psbt)
                           (Psbt_fromHex lib psbt (network this)) in
  let* signer := lift (ECPair_fromPrivateKey (privateKey derivedKey)
                                             (network this)) in
  let* keyPair := lift (tweakSigner signer {| opts_network := network this;
                                              tweakHash := None |}) in
  let* taprootPsbt :=
    signInputs (seq 0 (length (data_inputs taprootPsbt))) keyPair taprootPsbt in
  let* taprootPsbt := call EvFinalizeAllInputs
                           (finalizeAllInputs lib taprootPsbt) in
  call EvExtractTransaction (extractTransaction_toHex lib taprootPsbt).

(** The first loop of [getPsbtPreview], entered at index [i] with the
    inputs from [i] on and the entries pushed so far. *)
Fixpoint previewInputs (this : BitcoinObj) (rest : list PsbtInput) (i : nat)
    (pushed : list Address) : result (list Address) :=
  match rest with
  | [] => Ok pushed
  | input :: rest =>
      if (0 <? i)%nat then Throw (Error "Multiple inputs currently unsupported")
      else
        let pubkey :=
          match tapInternalKey input with
          | Some k => Some k
          | None =>
              match in_tapBip32Derivation input with
              | Some (d :: _) => Some (pubkey d)
              | _ => None
              end
          end in
        match pubkey with
        | None => Throw (Error ("No pubkey found in input " +:+ pretty i))
        | Some pubkey =>
            match p2tr_address lib (KeyBytes pubkey) (network this) with
            | Throw e => Throw e
            | Ok address =>
                if negb (truthy_str address)
                then Throw (Error ("No address found in input " +:+ pretty i))
                else
                  match witnessUtxo input with
                  | None => Throw (Error ("No witnessUtxo in input " +:+ pretty i))
                  | Some witnessUtxo =>
                      previewInputs this rest (S i)
                        (pushed ++ [ {| amount := value witnessUtxo;
                                        address := default "" address |} ])
                  end
            end
        end
  end.

(** [output.tapBip32Derivation?.[0].pubkey || txOutput.address]: an
    absent derivation list short-circuits to the right operand; an empty
    list makes [[0]] undefined and the read of [.pubkey] throws. *)
Definition outputKey (output : PsbtOutput) (txOutput : option TxOutput)
  : result (option P2trKey) :=
  match out_tapBip32Derivation output with
  | Some (d :: _) => Ok (Some (KeyBytes (pubkey d)))
  | Some [] => Throw (TypeError "Cannot read properties of undefined (reading 'pubkey')")
  | None =>
      match txOutput with
      | None => Throw (TypeError "Cannot read properties of undefined (reading 'address')")
      | Some txOutput =>
          if truthy_str (txo_address txOutput)
          then Ok (Some (KeyString (default "" (txo_address txOutput))))
          else Ok None
      end
  end.

(** The body of the second loop of [getPsbtPreview] at index [i]. *)
Definition previewOutput (this : BitcoinObj) (i : nat) (output : PsbtOutput)
    (txOutput : option TxOutput) : result Address :=
  match outputKey output txOutput with
  | Throw e => Throw e
  | Ok pubkey =>
      let address :=
        match pubkey with
        | Some pubkey => p2tr_address lib pubkey (network this)
        | None => Ok (Some "UNKNOWN")
        end in
      match address with
      | Throw e => Throw e
      | Ok address =>
          if negb (truthy_str address)
          then Throw (Error ("No address found in output " +:+ pretty i))
          else
            match txOutput with
            | None => Throw (TypeError "Cannot read properties of undefined (reading 'value')")
            | Some txOutput =>
                Ok {| amount := txo_value txOutput;
                      address := default "" address |}
            end
      end
  end.

(** The second loop of [getPsbtPreview], entered at index [i]. *)
Fixpoint previewOutputs (this : BitcoinObj) (txOuts : list TxOutput)
    (rest : list PsbtOutput) (i : nat) (pushed : list Address)
  : result (list Address) :=
  match rest with
  | [] => Ok pushed
  | output :: rest =>
      match previewOutput this i output (txOuts !! i) with
      | Throw e => Throw e
      | Ok previewOutput =>
          previewOutputs this txOuts rest (S i) (pushed ++ [previewOutput])
      end
  end.

(** [getPsbtPreview] *)
Definition getPsbtPreview (this : BitcoinObj) (psbt : string)
  : M event PsbtPreview :=
  let* unsignedPsbt := call (EvPsbtFromHex psbt)
                            (Psbt_fromHex lib psbt (network this)) in
  let* ins := lift (previewInputs this (data_inputs unsignedPsbt) 0 []) in
  let* outs := lift (previewOutputs this (txOutputs unsignedPsbt)
                       (data_outputs unsignedPsbt) 0 []) in
  ret {| inputs := ins; outputs := outs |}.

(** The ordered fallback as the specification words it: the public key of
    the first derivation record if there is one, else the explicit
    destination of the output, else nothing. *)
Definition spec_output_source (output : PsbtOutput) (txOutput : TxOutput)
  : option P2trKey :=
  match out_tapBip32Derivation output with
  | Some (d :: _) => Some (KeyBytes (pubkey d))
  | _ =>
      match txo_address txOutput with
      | Some destination =>
          if String.eqb destination "" then None else Some (KeyString destination)
      | None => None
      end
  end.

(** What the specification asks of the preview entry [a] of an output. *)
Definition spec_output_entry (this : BitcoinObj) (output : PsbtOutput)
    (txOutput : TxOutput) (a : Address) : Prop :=
  amount a = txo_value txOutput ∧
  match spec_output_source output txOutput with
  | Some key =>
      p2tr_address lib key (network this) = Ok (Some (address a)) ∧ address a ≠ ""
  | None => address a = "UNKNOWN"
  end.

End WithLibraries.

End Bitcoin.

(** ** The connector contract *)

Module Connector.

(** The [{data: T}] envelope of every connector answer. *)
Record Response (T : Type) : Type := { data : T }.
Arguments data {T} r.

Record Route : Type := {
  total_amt : Js.number;
  total_fees : Js.number;
}.

Record SendPaymentData : Type := {
  preimage : string;
  paymentHash : string;
  route : Route;
}.
Definition SendPaymentResponse : Type := Response SendPaymentData.

Record CheckPaymentData : Type := {
  paid : bool;
  cp_preimage : option string;
}.
Definition CheckPaymentResponse : Type := Response CheckPaymentData.

Record MakeInvoiceData : Type := {
  paymentRequest : string;
  rHash : string;
}.
Definition MakeInvoiceResponse : Type := Response MakeInvoiceData.

(** [amount: string | number] of [MakeInvoiceArgs] *)
Inductive Amount : Type :=
| AmountNumber (n : Js.number)
| AmountString (s : string).

Record MakeInvoiceArgs : Type := {
  mi_amount : Amount;
  memo : string;
}.

Record SendPaymentArgs : Type := { sp_paymentRequest : string }.

(** [customRecords] is an object used as a map: its own properties in the
    order [for ... in] and [Object.entries] enumerate them. *)
Record KeysendArgs : Type := {
  ks_pubkey : string;
  ks_amount : Js.number;
  customRecords : list (string * string);
}.

Record CheckPaymentArgs : Type := { cp_paymentHash : string }.

Record SignMessageArgs : Type := { sm_message : string }.

Record SignMessageData : Type := {
  message : string;
  signature : string;
}.
Definition SignMessageResponse : Type := Response SignMessageData.

Record ConnectPeerArgs : Type := {
  peer_pubkey : string;
  peer_host : string;
}.
Definition ConnectPeerResponse : Type := Response bool.

Record GetInfoData : Type := {
  alias : string;
  info_pubkey : string;
  color : string;
}.
Definition GetInfoResponse : Type := Response GetInfoData.

Record GetBalanceData : Type := { balance : Js.number }.
Definition GetBalanceResponse : Type := Response GetBalanceData.

Record ConnectorInvoice : Type := {
  ci_id : string;
  ci_memo : string;
  ci_settled : bool;
  ci_preimage : string;
  ci_settleDate : Js.number;
  ci_type : string;
  ci_totalAmount : string;
}.

Record GetInvoicesData : Type := { invoices : list ConnectorInvoice }.
Definition GetInvoicesResponse : Type := Response GetInvoicesData.

Record ConnectorTransaction : Type := {
  ct_id : string;
  ct_memo : string;
  ct_preimage : string;
  ct_payment_hash : option string;
  ct_settled : bool;
  ct_settleDate : Js.number;
  ct_totalAmount : Js.number;
  ct_type : string;
}.

Record GetTransactionsData : Type := { transactions : list ConnectorTransaction }.
Definition GetTransactionsResponse : Type := Response GetTransactionsData.

(** [String(err)]: the name of the error, followed by ": " and the
    message unless the message is empty. *)
Definition exn_to_string (e : exn) : string :=
  let '(name, msg) :=
    match e with
    | Error msg => ("Error", msg)
    | TypeError msg => ("TypeError", msg)
    end in
  if String.eqb msg "" then name else name +:+ ": " +:+ msg.

End Connector.

(** ** The Commando connector *)

Module Commando.
Import Connector.

Record Config : Type := {
  host : string;
  port : Js.number;
  rune : string;
  pubkey : string;
  wsProxy : string;
  privateKey : string;
}.

Record CommandoGetInfoResponse : Type := {
  gi_alias : string;
  gi_id : string;
  gi_color : string;
}.

Record CommandoSignMessageResponse : Type := { zbase : string }.

Record CommandoMakeInvoiceResponse : Type := {
  bolt11 : string;
  mi_payment_hash : string;
  payment_secret : string;
}.

Record CommandoChannel : Type := {
  peer_id : string;
  channel_sat : Js.number;
  ch_amount_msat : Js.number;
  funding_txid : string;
  funding_output : Js.number;
  connected : bool;
  state : string;
}.

Record CommandoListFundsResponse : Type := { channels : list CommandoChannel }.

Record CommandoInvoice : Type := {
  label : string;
  status : string;
  description : string;
  amount_received_msat : Js.number;
  inv_bolt11 : string;
  inv_payment_preimage : string;
  paid_at : Js.number;
  inv_payment_hash : string;
}.

Record CommandoListInvoicesResponse : Type := { li_invoices : list CommandoInvoice }.

Record CommandoPayInvoiceResponse : Type := {
  payment_preimage : string;
  payment_hash : string;
  amount_msat : string;
  amount_sent_msat : string;
}.

(** A value of the [params] object of a request. *)
Inductive param : Type :=
| PString (s : string)
| PNumber (n : Js.number)
| PRecord (r : list (string * string)).

(** The argument of [ln.commando]. *)
Record CommandoRequest : Type := {
  method : string;
  params : list (string * param);
  req_rune : string;
}.

Inductive event : Type :=
| EvCommando (request : CommandoRequest).

(** The collaborators.  [ln.commando] answers with an untyped value that
    each method casts to the type it expects; the model takes the answer
    at that type, one field for each type cast to.  [uuidv4] is the label
    drawn for an invoice, [Number_toString] is [Number.prototype.toString]. *)
Record LnMessage : Type := {
  commando_any : CommandoRequest → result unit;
  commando_ListInvoices : CommandoRequest → result CommandoListInvoicesResponse;
  commando_GetInfo : CommandoRequest → result CommandoGetInfoResponse;
  commando_ListFunds : CommandoRequest → result CommandoListFundsResponse;
  commando_PayInvoice : CommandoRequest → result CommandoPayInvoiceResponse;
  commando_SignMessage : CommandoRequest → result CommandoSignMessageResponse;
  commando_MakeInvoice : CommandoRequest → result CommandoMakeInvoiceResponse;
  uuidv4 : string;
  Number_toString : Js.number → string;
}.

(** The fields of a [Commando] object ([ln] is the collaborator). *)
Record CommandoObj : Type := { config : Config }.

Definition constructor (config : Config) : CommandoObj := {| config := config |}.

Section WithTransport.
Context (ln : LnMessage).

(** [this.ln.commando(request)], its answer read at type [T]. *)
Definition commando {T} (answer : CommandoRequest → result T)
    (request : CommandoRequest) : M event T :=
  call (EvCommando request) (answer request).

(** [connectPeer]: the one method with a [.catch]; it resolves to the
    [Error] built from what was thrown. *)
Definition connectPeer (this : CommandoObj) (args : ConnectPeerArgs)
  : M event (ConnectPeerResponse + exn) :=
  try_catch
    (let* resp := commando (commando_any ln)
                    {| method := "connect";
                       params := [("id", PString (peer_pubkey args));
                                  ("host", PString (peer_host args))];
                       req_rune := rune (config this) |} in
     ret (inl {| data := true |}))
    (λ err, ret (inr (Error (exn_to_string err)))).

(** [getInvoices] *)
Definition getInvoices (this : CommandoObj) : M event GetInvoicesResponse :=
  let* parsed := commando (commando_ListInvoices ln)
                   {| method := "listinvoices";
                      params := [];
                      req_rune := rune (config this) |} in
  ret {| data :=
           {| invoices :=
                (λ invoice,
                   {| ci_id := label invoice;
                      ci_memo := description invoice;
                      ci_settled := String.eqb (status invoice) "paid";
                      ci_preimage := inv_payment_preimage invoice;
                      ci_settleDate := paid_at invoice;
                      ci_type := "received";
                      ci_totalAmount :=
                        Number_toString ln
                          (Js.div (amount_received_msat invoice) (Js.of_Z 1000)) |})
                <$> li_invoices parsed |} |}.

(** [getInfo] *)
Definition getInfo (this : CommandoObj) : M event GetInfoResponse :=
  let* response := commando (commando_GetInfo ln)
                     {| method := "getinfo";
                        params := [];
                        req_rune := rune (config this) |} in
  ret {| data := {| alias := gi_alias response;
                    info_pubkey := gi_id response;
                    color := gi_color response |} |}.

(** [getBalance] *)
Definition getBalance (this : CommandoObj) : M event GetBalanceResponse :=
  let* response := commando (commando_ListFunds ln)
                     {| method := "listfunds";
                        params := [];
                        req_rune := rune (config this) |} in
  let lnBalance :=
    fold_left (λ lnBalance channel, Js.add lnBalance (channel_sat channel))
              (channels response) (Js.of_Z 0) in
  ret {| data := {| balance := lnBalance |} |}.

(** The [.then] callback shared, word for word, by [sendPayment] and
    [keysend]. *)
Definition parsePayResponse (parsed : CommandoPayInvoiceResponse)
  : SendPaymentResponse :=
  let parsedTotalAmtStr := Js.replace "msat" "" (amount_msat parsed) in
  let parsedSentAmtPaidStr := Js.replace "msat" "" (amount_sent_msat parsed) in
  let parsedTotalAmt :=
    Js.div (Js.StringToNumber parsedTotalAmtStr) (Js.of_Z 1000) in
  let parsedTotalFee :=
    Js.div (Js.sub (Js.StringToNumber parsedSentAmtPaidStr)
                   (Js.StringToNumber parsedTotalAmtStr))
           (Js.of_Z 1000) in
  {| data := {| paymentHash := payment_hash parsed;
                preimage := payment_preimage parsed;
                route := {| total_amt := parsedTotalAmt;
                            total_fees := parsedTotalFee |} |} |}.

(** [sendPayment] *)
Definition sendPayment (this : CommandoObj) (args : SendPaymentArgs)
  : M event SendPaymentResponse :=
  let* resp := commando (commando_PayInvoice ln)
                 {| method := "pay";
                    params := [("bolt11", PString (sp_paymentRequest args))];
                    req_rune := rune (config this) |} in
  ret (parsePayResponse resp).

(** [keysend].  The source fills two objects, [records_hex] and
    [boostagram], by the same loop and sends the second. *)
Definition keysend (this : CommandoObj) (args : KeysendArgs)
  : M event SendPaymentResponse :=
  let boostagram :=
    (λ kv, (fst kv, Js.Hex_stringify (Js.UTF8_parse (snd kv))))
    <$> customRecords args in
  let* resp := commando (commando_PayInvoice ln)
                 {| method := "keysend";
                    params := [("destination", PString (ks_pubkey args));
                               ("msatoshi",
                                PNumber (Js.mul (ks_amount args) (Js.of_Z 1000)));
                               ("extratlvs", PRecord boostagram)];
                    req_rune := rune (config this) |} in
  ret (parsePayResponse resp).

(** [checkPayment] *)
Definition checkPayment (this : CommandoObj) (args : CheckPaymentArgs)
  : M event CheckPaymentResponse :=
  let* parsed := commando (commando_ListInvoices ln)
                   {| method := "listinvoices";
                      params := [("payment_hash", PString (cp_paymentHash args))];
                      req_rune := rune (config this) |} in
  if negb (length (li_invoices parsed) =? 1)%nat
  then ret {| data := {| paid := false; cp_preimage := None |} |}
  else
    match li_invoices parsed !! 0%nat with
    | Some invoice =>
        ret {| data := {| paid := String.eqb (status invoice) "paid";
                          cp_preimage := None |} |}
    | None => throw (TypeError "Cannot read properties of undefined (reading 'status')")
    end.

(** [signMessage] *)
Definition signMessage (this : CommandoObj) (args : SignMessageArgs)
  : M event SignMessageResponse :=
  let* parsed := commando (commando_SignMessage ln)
                   {| method := "signmessage";
                      params := [("message", PString (sm_message args))];
                      req_rune := rune (config this) |} in
  ret {| data := {| message := sm_message args;
                    signature := zbase parsed |} |}.

(** [amount as number]: a cast changes nothing; the [*] that follows
    converts a string operand. *)
Definition amount_operand (a : Amount) : Js.number :=
  match a with
  | AmountNumber n => n
  | AmountString s => Js.StringToNumber s
  end.

(** [makeInvoice] *)
Definition makeInvoice (this : CommandoObj) (args : MakeInvoiceArgs)
  : M event MakeInvoiceResponse :=
  let label := uuidv4 ln in
  let* response := commando (commando_MakeInvoice ln)
                     {| method := "invoice";
                        params := [("amount_msat",
                                    PNumber (Js.mul (amount_operand (mi_amount args))
                                                    (Js.of_Z 1000)));
                                   ("label", PString label);
                                   ("description", PString (memo args))];
                        req_rune := rune (config this) |} in
  ret {| data := {| paymentRequest := bolt11 response;
                    rHash := mi_payment_hash response |} |}.

(** The RPC operations of the connector, with their arguments. *)
Inductive operation : Type :=
| ConnectPeer (args : ConnectPeerArgs)
| GetInvoices
| GetInfo
| GetBalance
| SendPayment (args : SendPaymentArgs)
| Keysend (args : KeysendArgs)
| CheckPayment (args : CheckPaymentArgs)
| SignMessage (args : SignMessageArgs)
| MakeInvoice (args : MakeInvoiceArgs).

(** The requests an operation hands to [ln.commando], in order. *)
Definition requests (this : CommandoObj) (op : operation) : list CommandoRequest :=
  (λ ev, match ev with EvCommando request => request end) <$>
  match op with
  | ConnectPeer args => calls (connectPeer this args)
  | GetInvoices => calls (getInvoices this)
  | GetInfo => calls (getInfo this)
  | GetBalance => calls (getBalance this)
  | SendPayment args => calls (sendPayment this args)
  | Keysend args => calls (keysend this args)
  | CheckPayment args => calls (checkPayment this args)
  | SignMessage args => calls (signMessage this args)
  | MakeInvoice args => calls (makeInvoice this args)
  end.

End WithTransport.

End Commando.

(** ** The Nostr Wallet Connect connector *)

Module NWC.
Import Connector.

Record Config : Type := { nostrWalletConnectUrl : string }.

(** A transaction as the wallet service reports it ([Nip47Transaction]):
    the fields the connector reads.  [payment_hash] and [settled_at] may be
    missing from an answer. *)
Record Nip47Transaction : Type := {
  tx_type : string;
  tx_invoice : string;
  tx_description : string;
  tx_preimage : string;
  tx_payment_hash : option string;
  tx_amount : Js.number;
  tx_settled_at : option Js.number;
}.

Record ListTransactionsRequest : Type := {
  lt_from : option Js.number;
  lt_until : option Js.number;
  lt_limit : option Js.number;
  lt_offset : option Js.number;
  lt_unpaid : option bool;
  lt_type : option string;
}.

Record ListTransactionsResponse : Type := {
  lt_transactions : list Nip47Transaction;
}.

Record PayResponse : Type := { pay_preimage : string }.

Record TlvRecord : Type := {
  tlv_type : Js.number;
  tlv_value : string;
}.

Record PayKeysendRequest : Type := {
  pk_pubkey : string;
  pk_amount : Js.number;
  tlv_records : list TlvRecord;
}.

(** A tag of a decoded payment request; [data] at the type the connector
    casts it to. *)
Record Tag : Type := {
  tagName : string;
  tag_data : string;
}.

(** What [lightningPayReq.decode] returns: the fields the connector
    reads. *)
Record DecodedInvoice : Type := {
  tags : list Tag;
  millisatoshis : option string;
  satoshis : option Js.number;
}.

Inductive event : Type :=
| EvListTransactions (request : ListTransactionsRequest)
| EvMakeInvoice (amount : Js.number) (description : string)
| EvDecode (paymentRequest : string)
| EvPayInvoice (invoice : string)
| EvPayKeysend (request : PayKeysendRequest)
| EvLookupInvoice (payment_hash : string)
| EvConsoleError (error : exn).

Definition is_pay (e : event) : bool :=
  match e with EvPayInvoice _ => true | _ => false end.

(** The collaborators: the [NWCClient], the payment-request decoder and
    the hash function. *)
Record NWCClient : Type := {
  nwc_listTransactions : ListTransactionsRequest → result ListTransactionsResponse;
  nwc_makeInvoice : Js.number → string → result Nip47Transaction;
  nwc_payInvoice : string → result PayResponse;
  nwc_payKeysend : PayKeysendRequest → result PayResponse;
  nwc_lookupInvoice : string → result Nip47Transaction;
  lightningPayReq_decode : string → result DecodedInvoice;
  SHA256 : string → list Z;
}.

Record NWCConnector : Type := { config : Config }.

Section WithClient.
Context (nwc : NWCClient).

(** [getTransactions] *)
Definition getTransactions (this : NWCConnector)
  : M event GetTransactionsResponse :=
  let request := {| lt_from := None; lt_until := None;
                    lt_limit := Some (Js.of_Z 50); lt_offset := None;
                    lt_unpaid := Some false; lt_type := None |} in
  let* listTransactionsResponse :=
    call (EvListTransactions request) (nwc_listTransactions nwc request) in
  let transactions :=
    imap (λ index transaction,
            {| ct_id := pretty index;
               ct_memo := tx_description transaction;
               ct_preimage := tx_preimage transaction;
               ct_payment_hash := tx_payment_hash transaction;
               ct_settled := true;
               ct_settleDate :=
                 Js.mul (default Js.NaN (tx_settled_at transaction)) (Js.of_Z 1000);
               ct_totalAmount := tx_amount transaction;
               ct_type := if String.eqb (tx_type transaction) "incoming"
                          then "received" else "sent" |})
         (lt_transactions listTransactionsResponse) in
  ret {| data := {| transactions := transactions |} |}.

(** [tags.find((tag) => tag.tagName === "payment_hash")?.data] *)
Definition find_payment_hash (decoded : DecodedInvoice) : option string :=
  tag_data <$> List.find (λ tag, String.eqb (tagName tag) "payment_hash")
                         (tags decoded).

Definition missing_payment_hash : exn :=
  Error "Could not find payment hash in invoice".

(** The amount [makeInvoice] asks for:
    [typeof args.amount === "number" ? args.amount
                                     : parseFloat(args.amount) || 0] *)
Definition invoice_amount (amount : Amount) : Js.number :=
  match amount with
  | AmountNumber n => n
  | AmountString s =>
      let parsed := Js.parseFloat s in
      if Js.truthy parsed then parsed else Js.of_Z 0
  end.

(** [makeInvoice] *)
Definition makeInvoice (this : NWCConnector) (args : MakeInvoiceArgs)
  : M event MakeInvoiceResponse :=
  let amount := invoice_amount (mi_amount args) in
  let* invoice := call (EvMakeInvoice amount (memo args))
                       (nwc_makeInvoice nwc amount (memo args)) in
  let rHash := tx_payment_hash invoice in
  let* rHash :=
    if negb (truthy_str rHash) then
      let* decodedInvoice :=
        call (EvDecode (tx_invoice invoice))
             (lightningPayReq_decode nwc (tx_invoice invoice)) in
      let rHash := find_payment_hash decodedInvoice in
      if negb (truthy_str rHash) then throw missing_payment_hash
      else ret rHash
    else ret rHash in
  ret {| data := {| paymentRequest := tx_invoice invoice;
                    rHash := default "" rHash |} |}.

(** [sendPayment] *)
Definition sendPayment (this : NWCConnector) (args : SendPaymentArgs)
  : M event SendPaymentResponse :=
  let* invoice := call (EvDecode (sp_paymentRequest args))
                       (lightningPayReq_decode nwc (sp_paymentRequest args)) in
  let paymentHash := find_payment_hash invoice in
  if negb (truthy_str paymentHash) then throw missing_payment_hash
  else
    let* response := call (EvPayInvoice (sp_paymentRequest args))
                          (nwc_payInvoice nwc (sp_paymentRequest args)) in
    let total_amt :=
      if truthy_str (millisatoshis invoice)
      then Js.div (Js.parseInt10
                     (if truthy_str (millisatoshis invoice)
                      then default "" (millisatoshis invoice) else "0"))
                  (Js.of_Z 1000)
      else default (Js.of_Z 0) (satoshis invoice) in
    ret {| data := {| Connector.preimage := pay_preimage response;
                      paymentHash := default "" paymentHash;
                      route := {| total_amt := total_amt;
                                  total_fees := Js.of_Z 0 |} |} |}.

(** [convertCustomRecords] *)
Definition convertCustomRecords (customRecords : list (string * string))
  : list TlvRecord :=
  (λ kv, {| tlv_type := Js.parseInt10 (fst kv); tlv_value := snd kv |})
  <$> customRecords.

(** [keysend] *)
Definition keysend (this : NWCConnector) (args : KeysendArgs)
  : M event SendPaymentResponse :=
  let request := {| pk_pubkey := ks_pubkey args;
                    pk_amount := ks_amount args;
                    tlv_records := convertCustomRecords (customRecords args) |} in
  let* data := call (EvPayKeysend request) (nwc_payKeysend nwc request) in
  let paymentHash := Js.Hex_stringify (SHA256 nwc (pay_preimage data)) in
  ret {| data := {| Connector.preimage := pay_preimage data;
                    paymentHash := paymentHash;
                    route := {| total_amt := ks_amount args;
                                total_fees := Js.of_Z 0 |} |} |}.

(** [checkPayment] *)
Definition checkPayment (this : NWCConnector) (args : CheckPaymentArgs)
  : M event CheckPaymentResponse :=
  try_catch
    (let* response := call (EvLookupInvoice (cp_paymentHash args))
                           (nwc_lookupInvoice nwc (cp_paymentHash args)) in
     ret {| data := {| paid := match tx_settled_at response with
                               | Some t => Js.truthy t
                               | None => false
                               end;
                       cp_preimage := Some (tx_preimage response) |} |})
    (λ error,
       let* _ := call (EvConsoleError error) (Ok tt) in
       ret {| data := {| paid := false; cp_preimage := None |} |}).

End WithClient.

End NWC.

(** ** The Taproot address of the wallet *)

Module BitcoinAddress.
Import Bitcoin.

(** What [getTaprootAddress] returns ([BitcoinAddress]). *)
Record BitcoinAddress : Type := {
  ba_address : string;
  ba_derivationPath : string;
  ba_index : nat;
  ba_publicKey : string;
}.

(** [inputs[i].tapInternalKey || inputs[i].tapBip32Derivation?.[0]?.pubkey]
    of [getPsbtPreview]: the internal key if there is one, else the public
    key of the first derivation record. *)
Definition spending_key (input : PsbtInput) : option Buffer :=
  match tapInternalKey input with
  | Some key => Some key
  | None =>
      match in_tapBip32Derivation input with
      | Some (d :: _) => Some (pubkey d)
      | _ => None
      end
  end.

Section WithLibraries.
Context {Network : Type} (lib : @Libraries Network).

(** [btc.getAddress(type, privateKey, network)] of @scure/btc-signer: an
    address, [undefined], or an exception. *)
Context (btc_getAddress : string → Z → Network → result (option string)).

(** [getTaprootAddress]; [secp256k1.etc.bytesToHex] writes two lower-case
    hexadecimal digits a byte. *)
Definition getTaprootAddress (this : BitcoinObj) : M event BitcoinAddress :=
  let index := 0%nat in
  let derivationPath := derivationPathOf this index in
  let* derivedKey := call (EvDeriveKey derivationPath)
                          (mnemonic_deriveKey lib derivationPath) in
  let* address := lift (btc_getAddress "tr" (privateKey derivedKey) (network this)) in
  if negb (truthy_str address)
  then throw (Error "No taproot address found from private key")
  else ret {| ba_address := default "" address;
              ba_derivationPath := derivationPath;
              ba_index := index;
              ba_publicKey := Js.Hex_stringify (publicKey derivedKey) |}.

End WithLibraries.

End BitcoinAddress.

(** ** The transport options of the Commando connector *)

Module CommandoOptions.
Import Commando.



End CommandoOptions.

(** ** Rejections of the Commando connector *)

Module CommandoOutcome.
Import Connector Commando.

(** The exception of a result, if it is one. *)
Definition failure {A} (r : result A) : option exn :=
  match r with
  | Throw e => Some e
  | Ok _ => None
  end.

(** The error the promise of an operation is rejected with, if it is
    rejected. *)
Definition operation_failure (ln : LnMessage) (this : CommandoObj)
    (op : operation) : option exn :=
  match op with
  | ConnectPeer args => failure (outcome (connectPeer ln this args))
  | GetInvoices => failure (outcome (getInvoices ln this))
  | GetInfo => failure (outcome (getInfo ln this))
  | GetBalance => failure (outcome (getBalance ln this))
  | SendPayment args => failure (outcome (sendPayment ln this args))
  | Keysend args => failure (outcome (keysend ln this args))
  | CheckPayment args => failure (outcome (checkPayment ln this args))
  | SignMessage args => failure (outcome (signMessage ln this args))
  | MakeInvoice args => failure (outcome (makeInvoice ln this args))
  end.

(** The error the transport rejects the request of an operation with, if
    it rejects it. *)
Definition transport_failure (ln : LnMessage) (op : operation)
    (request : CommandoRequest) : option exn :=
  match op with
  | ConnectPeer _ => failure (commando_any ln request)
  | GetInvoices | CheckPayment _ => failure (commando_ListInvoices ln request)
  | GetInfo => failure (commando_GetInfo ln request)
  | GetBalance => failure (commando_ListFunds ln request)
  | SendPayment _ | Keysend _ => failure (commando_PayInvoice ln request)
  | SignMessage _ => failure (commando_SignMessage ln request)
  | MakeInvoice _ => failure (commando_MakeInvoice ln request)
  end.

End CommandoOutcome.

(** ** The geyser.fund battery *)

Module Geyser.

(** *** Regular expressions, as far as [urlMatcher] uses them *)

Inductive regex : Type :=
| Void
| Eps
| Chr (c : ascii)
| Dot
| NotChr (c : ascii)
| Cat (r s : regex)
| Alt (r s : regex)
| Star (r : regex).

(** [.] matches any character but a line terminator (of which line feed
    and carriage return are single characters of the model). *)
Definition line_terminator (c : ascii) : bool :=
  Ascii.eqb c "010" || Ascii.eqb c "013".

(** The strings a regular expression matches in full. *)
Inductive lang : regex → list ascii → Prop :=
| lang_Eps : lang Eps []
| lang_Chr c : lang (Chr c) [c]
| lang_Dot c : line_terminator c = false → lang Dot [c]
| lang_NotChr c d : d ≠ c → lang (NotChr c) [d]
| lang_Cat r s u v : lang r u → lang s v → lang (Cat r s) (u ++ v)
| lang_Alt_l r s u : lang r u → lang (Alt r s) u
| lang_Alt_r r s u : lang s u → lang (Alt r s) u
| lang_Star_nil r : lang (Star r) []
| lang_Star_cons r u v : lang r u → lang (Star r) v → lang (Star r) (u ++ v).

Fixpoint nullable (r : regex) : bool :=
  match r with
  | Eps | Star _ => true
  | Void | Chr _ | Dot | NotChr _ => false
  | Cat r s => nullable r && nullable s
  | Alt r s => nullable r || nullable s
  end.

(** The derivative of [r] by the character [c]. *)
Fixpoint deriv (c : ascii) (r : regex) : regex :=
  match r with
  | Void | Eps => Void
  | Chr d => if Ascii.eqb c d then Eps else Void
  | Dot => if line_terminator c then Void else Eps
  | NotChr d => if Ascii.eqb c d then Void else Eps
  | Cat r s =>
      if nullable r then Alt (Cat (deriv c r) s) (deriv c s)
      else Cat (deriv c r) s
  | Alt r s => Alt (deriv c r) (deriv c s)
  | Star r => Cat (deriv c r) (Star r)
  end.

(** [/^r$/.test(s)] *)
Definition test (r : regex) (s : string) : bool :=
  nullable (fold_left (λ r c, deriv c r) (list_ascii_of_string s) r).

(** The regular expression of a literal text. *)
Fixpoint literal (s : string) : regex :=
  match s with
  | EmptyString => Eps
  | String c s' => Cat (Chr c) (literal s')
  end.

(** [r+] and [r?] *)
Definition plus (r : regex) : regex := Cat r (Star r).
Definition optional (r : regex) : regex := Alt r Eps.

(** [urlMatcher]: [/^https:\/\/geyser.fund\/([^/]+)(\/([^/]+))?$/] *)
Definition urlMatcher : regex :=
  Cat (literal "https://geyser")
      (Cat Dot
           (Cat (literal "fund/")
                (Cat (plus (NotChr "/"))
                     (optional (Cat (Chr "/") (plus (NotChr "/"))))))).

(** [s] holds no "/". *)
Definition no_slash (s : string) : Prop := "/"%char ∉ list_ascii_of_string s.

(** *** The battery *)

(** [s.split(separator)] for a separator of one character. *)
Fixpoint split (separator : ascii) (s : string) : list string :=
  match s with
  | EmptyString => [EmptyString]
  | String c s' =>
      if Ascii.eqb c separator then EmptyString :: split separator s'
      else match split separator s' with
           | segment :: segments => String c segment :: segments
           | [] => [String c EmptyString]
           end
  end.

(** A value of a property of the object [handleProjectPage] returns. *)
Inductive value : Type :=
| VString (s : string)
| VBool (b : bool)
| VObject (fields : list (string * string)).

Inductive event : Type :=
| EvQuerySelector (selectors : string)
| EvGetOriginData.

(** The collaborators: the document ([querySelector(s)?.innerText] and
    [querySelector(s)?.src] are [None] when no element matches) and
    [getOriginData], whose answer is an object used as a map. *)
Record Page : Type := {
  pathname : string;
  innerText : string → option string;
  src : string → option string;
  getOriginData : result (gmap string value);
}.

(** [handleProjectPage].  In the object literal the spread of the origin
    data comes after [method] and [address] and before [description],
    [name] and [icon]. *)
Definition handleProjectPage (page : Page) (name : string)
  : M event (option (gmap string value)) :=
  let* address := call (EvQuerySelector "#lightning-address")
                       (Ok (innerText page "#lightning-address")) in
  let* title := call (EvQuerySelector "#project-title")
                     (Ok (innerText page "#project-title")) in
  let* icon := call (EvQuerySelector "#project-avatar img")
                    (Ok (src page "#project-avatar img")) in
  if truthy_str address then
    let* origin := call EvGetOriginData (getOriginData page) in
    ret (Some
           (<["icon" := VString (default "https://geyser.fund/logo-brand.svg" icon)]>
              (<["name" := VString (default name title)]>
                 (<["description" := VString "geyser.fund"]>
                    (origin ∪
                     <["address" := VString (default "" address)]>
                       {["method" := VString "lnurl"]})))))
  else ret None.

(** The three reads of the page [handleProjectPage] starts with. *)
Definition queries : list event :=
  [EvQuerySelector "#lightning-address"; EvQuerySelector "#project-title";
   EvQuerySelector "#project-avatar img"].

(** [battery].  The function has no [return]: what [handleProjectPage]
    returns is dropped. *)
Definition battery (page : Page) : M event (option (gmap string value)) :=
  let urlParts := split "/" (pathname page) in
  let project := urlParts !! 1%nat in
  let name := urlParts !! 2%nat in
  if truthy_str project && truthy_str name then
    let* _ := handleProjectPage page (default "" name) in
    ret None
  else ret None.

End Geyser.

(** ** Concrete collaborators

    Small, fully computable collaborators on which the three classes can
    be run. *)

Module Demo.
Import Bitcoin.

Definition network_name (t : BitcoinNetworkType) : string :=
  match t with bitcoin => "bc" | testnet => "tb" | regtest => "bcrt" end.

Definition key_a : Buffer := replicate 32 1.
Definition key_b : Buffer := replicate 32 2.

Definition input_a : PsbtInput :=
  {| tapInternalKey := Some key_a;
     in_tapBip32Derivation := None;
     witnessUtxo := Some {| script := []; value := 50000 |} |}.

Definition input_b : PsbtInput :=
  {| tapInternalKey := None;
     in_tapBip32Derivation :=
       Some [ {| masterFingerprint := [0; 0; 0; 0]; pubkey := key_b;
                 path := "m/86'/0'/0'/0/1" |} ];
     witnessUtxo := Some {| script := []; value := 20000 |} |}.

Definition output_derived : PsbtOutput :=
  {| out_tapBip32Derivation :=
       Some [ {| masterFingerprint := [0; 0; 0; 0]; pubkey := key_b;
                 path := "m/86'/0'/0'/0/1" |} ] |}.

Definition output_plain : PsbtOutput := {| out_tapBip32Derivation := None |}.

Definition psbt_no_input : Psbt :=
  {| data_inputs := []; data_outputs := []; txOutputs := [] |}.

Definition psbt_one_input : Psbt :=
  {| data_inputs := [input_a];
     data_outputs := [output_derived; output_plain];
     txOutputs := [ {| txo_address := None; txo_value := 30000 |};
                    {| txo_address := None; txo_value := 19000 |} ] |}.

Definition psbt_two_inputs : Psbt :=
  {| data_inputs := [input_a; input_b];
     data_outputs := [output_plain];
     txOutputs := [ {| txo_address := None; txo_value := 69000 |} ] |}.

(** A stand-in for the PSBT decoder: three encodings are known to it.
    The stand-in for [btc.p2tr] below makes an address of the bytes of a
    public key and, as [btc.p2tr] does, rejects a string that is an
    address and no key. *)
Definition psbt_of_hex (hex : string) : result Psbt :=
  if String.eqb hex "00" then Ok psbt_no_input
  else if String.eqb hex "01" then Ok psbt_one_input
  else if String.eqb hex "02" then Ok psbt_two_inputs
  else Throw (Error "Format Error: Invalid Magic Number").

Definition sum_bytes (b : Buffer) : Z := fold_right Z.add 0 b.

Definition lib : @Libraries string :=
  {| networks := network_name;
     mnemonic_deriveKey := λ path,
       Ok {| privateKey := 7; publicKey := 3 :: replicate 32 7 |};
     Psbt_fromHex := λ hex _, psbt_of_hex hex;
     pointFromScalar := λ d, (2 + d mod 2) :: replicate 32 (d mod 256);
     taggedHash := λ tag b, Z.of_nat (String.length tag) + sum_bytes b;
     p2tr_address := λ key net,
       match key with
       | KeyBytes b => Ok (Some (net +:+ "1p" +:+ Js.Hex_stringify b))
       | KeyString s => Throw (Error "Expected a public key, got an address")
       end;
     signTaprootInput := λ psbt index _,
       if (index <? length (data_inputs psbt))%nat then Ok psbt
       else Throw (Error "No input");
     finalizeAllInputs := λ psbt, Ok psbt;
     extractTransaction_toHex := λ psbt,
       Ok ("signed:" +:+ pretty (length (data_inputs psbt))) |}.

Definition wallet : BitcoinObj := constructor lib bitcoin.

End Demo.

Module DemoCommando.
Import Connector Commando.

Definition settings : Config :=
  {| host := "10.0.0.2"; port := Js.of_Z 9735; rune := "rune-7f3a";
     pubkey := "02ab"; wsProxy := ""; privateKey := "11" |}.

Definition node : CommandoObj := constructor settings.

Definition paid_invoice : CommandoInvoice :=
  {| label := "a1"; status := "paid"; description := "coffee";
     amount_received_msat := Js.of_Z 1000000; inv_bolt11 := "lnbc10";
     inv_payment_preimage := "00ff"; paid_at := Js.of_Z 1700000000;
     inv_payment_hash := "ab12" |}.

Definition pay_answer : CommandoPayInvoiceResponse :=
  {| payment_preimage := "00ff"; payment_hash := "ab12";
     amount_msat := "1500msat"; amount_sent_msat := "1510msat" |}.

(** A node that answers every request. *)
Definition ln_up : LnMessage :=
  {| commando_any := λ _, Ok tt;
     commando_ListInvoices := λ _, Ok {| li_invoices := [paid_invoice] |};
     commando_GetInfo := λ _,
       Ok {| gi_alias := "alice"; gi_id := "02ab"; gi_color := "ff9900" |};
     commando_ListFunds := λ _, Ok {| channels := [] |};
     commando_PayInvoice := λ _, Ok pay_answer;
     commando_SignMessage := λ _, Ok {| zbase := "d9b1" |};
     commando_MakeInvoice := λ _,
       Ok {| bolt11 := "lnbc10"; mi_payment_hash := "ab12";
             payment_secret := "77" |};
     uuidv4 := "9b2f6c1e-0000-4000-8000-000000000001";
     Number_toString := λ _, "1000" |}.

(** A node that cannot be reached: every request is rejected. *)
Definition ln_down : LnMessage :=
  {| commando_any := λ _, Throw (Error "socket closed");
     commando_ListInvoices := λ _, Throw (Error "socket closed");
     commando_GetInfo := λ _, Throw (Error "socket closed");
     commando_ListFunds := λ _, Throw (Error "socket closed");
     commando_PayInvoice := λ _, Throw (Error "socket closed");
     commando_SignMessage := λ _, Throw (Error "socket closed");
     commando_MakeInvoice := λ _, Throw (Error "socket closed");
     uuidv4 := "9b2f6c1e-0000-4000-8000-000000000002";
     Number_toString := λ _, "1000" |}.

End DemoCommando.

Module DemoNWC.
Import Connector NWC.

Definition wallet : NWCConnector :=
  {| config := {| nostrWalletConnectUrl := "nostr+walletconnect://02ab?relay=wss://r" |} |}.

(** A stand-in for the payment-request decoder: two requests are known to
    it, one with a payment hash and 2500 millisatoshis, one without a
    payment hash. *)
Definition decode (paymentRequest : string) : result DecodedInvoice :=
  if String.eqb paymentRequest "lnbc2500"
  then Ok {| tags := [ {| tagName := "payment_secret"; tag_data := "11" |};
                       {| tagName := "payment_hash"; tag_data := "ab12" |};
                       {| tagName := "description"; tag_data := "coffee" |} ];
             millisatoshis := Some "2500";
             satoshis := None |}
  else if String.eqb paymentRequest "lnbc0"
  then Ok {| tags := [ {| tagName := "payment_secret"; tag_data := "11" |} ];
             millisatoshis := None;
             satoshis := None |}
  else Throw (Error "Not a proper lightning payment request").

Definition transaction (kind hash : string) (settled : Z) : Nip47Transaction :=
  {| tx_type := kind; tx_invoice := "lnbc2500"; tx_description := "coffee";
     tx_preimage := "00ff"; tx_payment_hash := Some hash;
     tx_amount := Js.of_Z 2; tx_settled_at := Some (Js.of_Z settled) |}.

(** A wallet service that answers every request; its invoices come without
    a payment hash. *)
Definition client_up : NWCClient :=
  {| nwc_listTransactions := λ _,
       Ok {| lt_transactions := [ transaction "incoming" "ab12" 1700000000;
                                  transaction "outgoing" "cd34" 1700000500 ] |};
     nwc_makeInvoice := λ _ _,
       Ok {| tx_type := "incoming"; tx_invoice := "lnbc2500";
             tx_description := "coffee"; tx_preimage := "";
             tx_payment_hash := None; tx_amount := Js.of_Z 2;
             tx_settled_at := None |};
     nwc_payInvoice := λ _, Ok {| pay_preimage := "00ff" |};
     nwc_payKeysend := λ _, Ok {| pay_preimage := "0a0b" |};
     nwc_lookupInvoice := λ _, Ok (transaction "incoming" "ab12" 1700000000);
     lightningPayReq_decode := decode;
     SHA256 := λ message, [Z.of_nat (String.length message); 171] |}.

(** A wallet service that cannot be reached. *)
Definition client_down : NWCClient :=
  {| nwc_listTransactions := λ _, Throw (Error "relay timeout");
     nwc_makeInvoice := λ _ _, Throw (Error "relay timeout");
     nwc_payInvoice := λ _, Throw (Error "relay timeout");
     nwc_payKeysend := λ _, Throw (Error "relay timeout");
     nwc_lookupInvoice := λ _, Throw (Error "relay timeout");
     lightningPayReq_decode := decode;
     SHA256 := λ message, [Z.of_nat (String.length message); 171] |}.

End DemoNWC.

(** ** Further concrete collaborators *)

Module DemoMore.
Import Bitcoin.

(** A proposal whose first input has neither key nor [witnessUtxo]. *)
Definition psbt_keyless : Psbt :=
  {| data_inputs := [ {| tapInternalKey := None;
                         in_tapBip32Derivation := Some [];
                         witnessUtxo := None |};
                      Demo.input_a ];
     data_outputs := [];
     txOutputs := [] |}.

(** A proposal whose input has a key but no [witnessUtxo]. *)
Definition psbt_no_utxo : Psbt :=
  {| data_inputs := [ {| tapInternalKey := Some Demo.key_a;
                         in_tapBip32Derivation := None;
                         witnessUtxo := None |} ];
     data_outputs := [];
     txOutputs := [] |}.

(** A payment: 45000 to an address, which the proposal states as the
    destination of its first output, and 4000 back to a key of the
    wallet. *)
Definition psbt_to_address : Psbt :=
  {| data_inputs := [Demo.input_a];
     data_outputs := [Demo.output_plain; Demo.output_derived];
     txOutputs := [ {| txo_address :=
                         Some "bc1qw508d6qejxtdg4y5r3zarvary0c5xw7kv8f3t4";
                       txo_value := 45000 |};
                    {| txo_address := None; txo_value := 4000 |} ] |}.

(** [Demo.lib] with a decoder that knows these three proposals as well. *)
Definition lib : @Libraries string :=
  {| networks := networks Demo.lib;
     mnemonic_deriveKey := mnemonic_deriveKey Demo.lib;
     Psbt_fromHex := λ hex net,
       if String.eqb hex "03" then Ok psbt_keyless
       else if String.eqb hex "04" then Ok psbt_no_utxo
       else if String.eqb hex "05" then Ok psbt_to_address
       else Psbt_fromHex Demo.lib hex net;
     pointFromScalar := pointFromScalar Demo.lib;
     taggedHash := taggedHash Demo.lib;
     p2tr_address := p2tr_address Demo.lib;
     signTaprootInput := signTaprootInput Demo.lib;
     finalizeAllInputs := finalizeAllInputs Demo.lib;
     extractTransaction_toHex := extractTransaction_toHex Demo.lib |}.

(** [Demo.lib] with a signer that cannot sign the second input. *)
Definition lib_unsignable : @Libraries string :=
  {| networks := networks Demo.lib;
     mnemonic_deriveKey := mnemonic_deriveKey Demo.lib;
     Psbt_fromHex := Psbt_fromHex Demo.lib;
     pointFromScalar := pointFromScalar Demo.lib;
     taggedHash := taggedHash Demo.lib;
     p2tr_address := p2tr_address Demo.lib;
     signTaprootInput := λ psbt index keyPair,
       if (index =? 1)%nat
       then Throw (Error "Can not sign for input #1 with the key 02e1e1")
       else signTaprootInput Demo.lib psbt index keyPair;
     finalizeAllInputs := finalizeAllInputs Demo.lib;
     extractTransaction_toHex := extractTransaction_toHex Demo.lib |}.

End DemoMore.

Module DemoFunds.
Import Commando.

Definition channel (peer : string) (sat : Z) (up : bool) (st : string)
  : CommandoChannel :=
  {| peer_id := peer; channel_sat := Js.of_Z sat;
     ch_amount_msat := Js.of_Z (sat * 1000); funding_txid := "f00d";
     funding_output := Js.of_Z 0; connected := up; state := st |}.

(** A node with two channels, one of them awaiting lock-in with its peer
    away. *)
Definition ln_funded : LnMessage :=
  {| commando_any := commando_any DemoCommando.ln_up;
     commando_ListInvoices := commando_ListInvoices DemoCommando.ln_up;
     commando_GetInfo := commando_GetInfo DemoCommando.ln_up;
     commando_ListFunds := λ _,
       Ok {| channels := [ channel "02ab" 1500 true "CHANNELD_NORMAL";
                           channel "03cd" 2500 false "CHANNELD_AWAITING_LOCKIN" ] |};
     commando_PayInvoice := commando_PayInvoice DemoCommando.ln_up;
     commando_SignMessage := commando_SignMessage DemoCommando.ln_up;
     commando_MakeInvoice := commando_MakeInvoice DemoCommando.ln_up;
     uuidv4 := uuidv4 DemoCommando.ln_up;
     Number_toString := Number_toString DemoCommando.ln_up |}.

End DemoFunds.

Module DemoGeyser.
Import Geyser.

(** A project page that shows a lightning address and a title, without an
    avatar. *)
Definition project_page : Page :=
  {| pathname := "/project/bitcoin-dev";
     innerText := λ selectors,
       if String.eqb selectors "#lightning-address" then Some "dev@geyser.fund"
       else if String.eqb selectors "#project-title" then Some "Bitcoin Dev"
       else None;
     src := λ _, None;
     getOriginData :=
       Ok (<["name" := VString "Geyser"]>
             (<["host" := VString "geyser.fund"]>
                (<["external" := VBool true]> ∅))) |}.

(** The same page at another path. *)
Definition page_at (path : string) : Page :=
  {| pathname := path;
     innerText := innerText project_page;
     src := src project_page;
     getOriginData := getOriginData project_page |}.

End DemoGeyser.

(** * Properties *)

(** ** The classes at work *)

Example replace_strips_first_suffix :
  Js.replace "msat" "" "1500msat" = "1500" ∧
  Js.replace "msat" "" "msat1500msat" = "1500msat" ∧
  Js.replace "msat" "" "1500" = "1500".
Proof. repeat split. Qed.

Example StringToNumber_examples :
  Js.StringToNumber "1500" = Js.of_Z 1500 ∧
  Js.StringToNumber " 1.5e3 " = Js.of_Z 1500 ∧
  Js.StringToNumber "0x1f" = Js.of_Z 31 ∧
  Js.StringToNumber "" = Js.of_Z 0 ∧
  Js.StringToNumber "1500msat" = Js.NaN ∧
  Js.StringToNumber "-Infinity" = Js.Infinity false.
Proof. repeat split; vm_compute; reflexivity. Qed.

Example parseInt10_examples :
  Js.parseInt10 "2500" = Js.of_Z 2500 ∧
  Js.parseInt10 "  -12.7" = Js.of_Z (-12) ∧
  Js.parseInt10 "7629169" = Js.of_Z 7629169 ∧
  Js.parseInt10 "lnbc" = Js.NaN.
Proof. repeat split; vm_compute; reflexivity. Qed.

Example parseFloat_examples :
  Js.parseFloat "1000" = Js.of_Z 1000 ∧
  Js.parseFloat "12.5 sats" = Js.div (Js.of_Z 25) (Js.of_Z 2) ∧
  Js.parseFloat "sats" = Js.NaN.
Proof. repeat split; vm_compute; reflexivity. Qed.

(** A no-break space (U+00A0, the bytes 194 and 160) is white space, and
    so are the byte-order mark and the line separator; a zero-width space
    (U+200B) is not. *)
Example white_space_examples :
  Js.parseFloat (String "194" (String "160" "5")) = Js.of_Z 5 ∧
  Js.parseInt10 (String "239" (String "187" (String "191" "42"))) = Js.of_Z 42 ∧
  Js.StringToNumber
    (" 7" +:+ String "226" (String "128" (String "168" ""))) = Js.of_Z 7 ∧
  Js.StringToNumber (String "226" (String "128" (String "139" "5"))) = Js.NaN.
Proof. repeat split; vm_compute; reflexivity. Qed.

(** Numbers are rounded as binary64 rounds them. *)
Example binary64_examples :
  Js.StringToNumber "9007199254740993" = Js.of_Z 9007199254740992 ∧
  Js.add (Js.of_Z 9007199254740992) (Js.of_Z 1) = Js.of_Z 9007199254740992 ∧
  Js.mul (Js.of_Z 6658052609219179) (Js.of_Z 1000) =
    Js.of_Z 6658052609219178496 ∧
  Js.div (Js.of_Z 1500) (Js.of_Z 1000) = Js.StringToNumber "1.5" ∧
  Js.div (Js.of_Z 10) (Js.of_Z 1000) = Js.StringToNumber "0.01" ∧
  Js.div (Js.of_Z 9007199254740993) (Js.of_Z 1000) =
    Js.StringToNumber "9007199254740.992" ∧
  Js.StringToNumber "1e400" = Js.Infinity true ∧
  Js.StringToNumber "-0" = Js.neg (Js.of_Z 0) ∧
  Js.truthy (Js.StringToNumber "-0") = false.
Proof. repeat split; vm_compute; reflexivity. Qed.

(** A custom record value is sent as the hexadecimal form of its UTF-8
    bytes. *)
Example keysend_record_encoding :
  Js.Hex_stringify (Js.UTF8_parse "hello") = "68656c6c6f" ∧
  Commando.requests DemoCommando.ln_up DemoCommando.node
    (Commando.Keysend
       {| Connector.ks_pubkey := "02ab";
          Connector.ks_amount := Js.of_Z 21;
          Connector.customRecords := [("7629169", "hello")] |}) =
    [ {| Commando.method := "keysend";
         Commando.params :=
           [ ("destination", Commando.PString "02ab");
             ("msatoshi", Commando.PNumber (Js.of_Z 21000));
             ("extratlvs", Commando.PRecord [("7629169", "68656c6c6f")]) ];
         Commando.req_rune := "rune-7f3a" |} ].
Proof. split; vm_compute; reflexivity. Qed.

(** The preview of a proposal with one input of 50000 and two outputs. *)
Example preview_one_input :
  Bitcoin.getPsbtPreview Demo.lib Demo.wallet "01" =
    (Ok {| Bitcoin.inputs :=
             [ {| Bitcoin.amount := 50000;
                  Bitcoin.address := "bc1p" +:+ Js.Hex_stringify Demo.key_a |} ];
           Bitcoin.outputs :=
             [ {| Bitcoin.amount := 30000;
                  Bitcoin.address := "bc1p" +:+ Js.Hex_stringify Demo.key_b |};
               {| Bitcoin.amount := 19000; Bitcoin.address := "UNKNOWN" |} ] |},
     [Bitcoin.EvPsbtFromHex "01"]).
Proof. vm_compute. reflexivity. Qed.

(** Signing that proposal: derivation, decoding, one signature. *)
Example sign_one_input :
  Bitcoin.signPsbt Demo.lib Demo.wallet "01" =
    (Ok "signed:1",
     [Bitcoin.EvDeriveKey "m/86'/0'/0'/0/0"; Bitcoin.EvPsbtFromHex "01";
      Bitcoin.EvSignTaprootInput 0; Bitcoin.EvFinalizeAllInputs;
      Bitcoin.EvExtractTransaction]).
Proof. vm_compute. reflexivity. Qed.

(** An empty derivation list on an output, which the PSBT decoder never
    produces, would stop the preview with a [TypeError]. *)
Example preview_empty_derivation_list :
  Bitcoin.previewOutput Demo.lib Demo.wallet 0
    {| Bitcoin.out_tapBip32Derivation := Some [] |}
    (Some {| Bitcoin.txo_address := None; Bitcoin.txo_value := 1 |}) =
  Throw (TypeError "Cannot read properties of undefined (reading 'pubkey')").
Proof. reflexivity. Qed.

(** ** Decimal digit strings under the JavaScript conversions *)

Ltac digit_cases n d tac :=
  lazymatch n with
  | O => exfalso; lia
  | S ?n' => destruct d as [|d]; [tac|digit_cases n' d tac]
  end.

Tactic Notation "each_digit" ident(d) "by" tactic3(tac) := digit_cases 10%nat d tac.

Lemma digit_of_digit_char (d : nat) :
  (d < 10)%nat → Js.digit_of 10 (Js.digit_char d) = Some (Z.of_nat d).
Proof. intros H. each_digit d by reflexivity. Qed.

Lemma span_digits_digits (ds : list nat) (acc : Z) (count : nat) :
  Js.all_digits ds →
  Js.span_digits 10 (Js.digit_char <$> ds) acc count =
    (fold_left (λ acc d, 10 * acc + Z.of_nat d) ds acc, (count + length ds)%nat, []).
Proof.
  intros H. revert acc count. induction H as [|d ds Hd _ IH]; intros acc count.
  - cbn. now rewrite Nat.add_0_r.
  - cbn [fmap list_fmap Js.span_digits]. rewrite (digit_of_digit_char d Hd).
    rewrite IH. cbn [fold_left length]. do 2 f_equal; [f_equal; lia|lia].
Qed.

Lemma code_digit_char (d : nat) :
  (d < 10)%nat → 48 <= Js.code (Js.digit_char d) <= 57.
Proof. intros H. each_digit d by (vm_compute; split; discriminate). Qed.

(** No white-space character starts, or ends, with the byte of a digit. *)
Lemma is_white_space_first_digit (v : Z) (l : list Z) :
  48 <= v <= 57 → Js.is_white_space (v :: l) = false.
Proof.
  intros Hv. destruct l as [|b [|c [|x l]]]; cbn [Js.is_white_space];
    repeat match goal with
           | |- context [(v =? ?k)] => rewrite (proj2 (Z.eqb_neq v k)) by lia
           | |- context [(v <=? ?k)] => rewrite (proj2 (Z.leb_gt v k)) by lia
           end;
    cbn [andb orb]; now rewrite ?andb_false_r.
Qed.

Lemma is_white_space_last_digit (v : Z) (l : list Z) :
  48 <= v <= 57 → Js.is_white_space (l ++ [v]) = false.
Proof.
  intros Hv. destruct l as [|a [|b [|c l]]]; cbn [app Js.is_white_space].
  - exact (is_white_space_first_digit v [] Hv).
  - rewrite (proj2 (Z.eqb_neq v 160)) by lia. apply andb_false_r.
  - rewrite !(proj2 (Z.eqb_neq v _)) by lia.
    rewrite (proj2 (Z.leb_gt 128 v)) by lia.
    cbn [andb orb]. now rewrite !andb_false_r.
  - now destruct l.
Qed.

Lemma white_space_length_digit (d : nat) (t : list ascii) :
  (d < 10)%nat →
  Js.white_space_length id (Js.digit_char d :: t) = 0%nat ∧
  Js.white_space_length reverse (Js.digit_char d :: t) = 0%nat.
Proof.
  intros Hd. pose proof (code_digit_char d Hd) as Hv.
  unfold Js.white_space_length. cbn [take fmap list_fmap id].
  rewrite !reverse_cons.
  now rewrite !is_white_space_first_digit, !is_white_space_last_digit.
Qed.

Lemma skip_white_space_digits (ds : list nat) (fuel : nat) :
  Js.all_digits ds →
  Js.skip_white_space id fuel (Js.digit_char <$> ds) = Js.digit_char <$> ds ∧
  Js.skip_white_space reverse fuel (Js.digit_char <$> ds) = Js.digit_char <$> ds.
Proof.
  intros H. destruct fuel as [|fuel]; [done|].
  destruct H as [|d ds Hd _]; cbn [fmap list_fmap Js.skip_white_space].
  - unfold Js.white_space_length. cbn. done.
  - destruct (white_space_length_digit d (Js.digit_char <$> ds) Hd) as [-> ->].
    done.
Qed.

Lemma trim_start_digits (ds : list nat) :
  Js.all_digits ds → Js.trim_start (Js.digit_char <$> ds) = Js.digit_char <$> ds.
Proof. intros H. apply (skip_white_space_digits ds _ H). Qed.

Lemma trim_digits (ds : list nat) :
  Js.all_digits ds → Js.trim (Js.digit_char <$> ds) = Js.digit_char <$> ds.
Proof.
  intros H. unfold Js.trim. rewrite (trim_start_digits ds H).
  rewrite <- fmap_reverse.
  rewrite (proj2 (skip_white_space_digits (reverse ds) _
                    (proj2 (Forall_reverse _ _) H))).
  rewrite fmap_reverse. apply reverse_involutive.
Qed.

Lemma read_non_decimal_digits (ds : list nat) :
  Js.all_digits ds → Js.read_non_decimal (Js.digit_char <$> ds) = None.
Proof.
  intros H. destruct H as [|d ds Hd H]; [done|].
  destruct H as [|d' ds' Hd' H].
  - each_digit d by reflexivity.
  - cbn [fmap list_fmap]. 
    assert (Hp : ∀ t, Js.read_non_decimal ("0"%char :: Js.digit_char d' :: t) = None).
    { intros t. each_digit d' by reflexivity. }
    each_digit d by (reflexivity || apply Hp).
Qed.

Lemma read_decimal_digits (ds : list nat) :
  Js.all_digits ds → ds ≠ [] →
  Js.read_decimal (Js.digit_char <$> ds) = Some (Js.of_Z (Js.digits_value ds), []).
Proof.
  intros H Hne. destruct ds as [|d ds]; [done|].
  pose proof (span_digits_digits (d :: ds) 0 0 H) as Hspan.
  inversion H as [|? ? Hd H']; subst.
  unfold Js.read_decimal.
  assert (Hs : Js.read_sign (Js.digit_char <$> d :: ds) = (false, Js.digit_char <$> d :: ds)).
  { cbn [fmap list_fmap]. clear - Hd. each_digit d by reflexivity. }
  rewrite Hs. unfold Js.read_unsigned_decimal.
  assert (Hi : bool_decide (take 8 (Js.digit_char <$> d :: ds) = list_ascii_of_string "Infinity") = false).
  { apply bool_decide_eq_false. cbn [fmap list_fmap take]. clear - Hd.
    intros Heq. cbn in Heq. injection Heq as Heq _. each_digit d by discriminate. }
  rewrite Hi, Hspan. cbn [length Nat.add Nat.eqb Js.read_exponent].
  unfold Js.digits_value, Js.of_decimal. cbn [Z.of_nat Z.sub Z.opp Z.add Z.leb Z.compare].
  change (10 ^ 0) with 1. now rewrite Z.mul_1_r.
Qed.

Lemma list_ascii_of_digits_string (ds : list nat) :
  list_ascii_of_string (Js.digits_string ds) = Js.digit_char <$> ds.
Proof. apply list_ascii_of_string_of_list_ascii. Qed.

Lemma StringToNumber_digits (ds : list nat) :
  Js.all_digits ds →
  Js.StringToNumber (Js.digits_string ds) = Js.of_Z (Js.digits_value ds).
Proof.
  intros H. unfold Js.StringToNumber.
  rewrite list_ascii_of_digits_string, (trim_digits ds H).
  destruct ds as [|d ds]; [done|].
  rewrite (read_non_decimal_digits _ H), (read_decimal_digits _ H) by done.
  reflexivity.
Qed.

Lemma parseInt10_digits (ds : list nat) :
  Js.all_digits ds → ds ≠ [] →
  Js.parseInt10 (Js.digits_string ds) = Js.of_Z (Js.digits_value ds).
Proof.
  intros H Hne. unfold Js.parseInt10.
  rewrite list_ascii_of_digits_string, (trim_start_digits ds H).
  destruct ds as [|d ds]; [done|].
  assert (Hs : Js.read_sign (Js.digit_char <$> d :: ds) = (false, Js.digit_char <$> d :: ds)).
  { inversion H as [|? ? Hd _]; subst. cbn [fmap list_fmap]. clear - Hd.
    each_digit d by reflexivity. }
  rewrite Hs, (span_digits_digits _ 0 0 H). reflexivity.
Qed.

Lemma replace_msat_digits (ds : list nat) :
  Js.all_digits ds →
  Js.replace "msat" "" (Js.digits_string ds +:+ "msat") = Js.digits_string ds.
Proof.
  intros H. induction H as [|d ds Hd _ IH]; [reflexivity|].
  change (Js.digits_string (d :: ds) +:+ "msat")
    with (String (Js.digit_char d) (Js.digits_string ds +:+ "msat")).
  change (Js.digits_string (d :: ds)) with (String (Js.digit_char d) (Js.digits_string ds)).
  cbn [Js.replace].
  assert (Hm : ∀ s, Js.strip_prefix "msat" (String (Js.digit_char d) s) = None).
  { intros s. clear - Hd. each_digit d by reflexivity. }
  rewrite Hm. f_equal. exact IH.
Qed.

Lemma digits_string_nonempty (ds : list nat) :
  ds ≠ [] → truthy_str (Some (Js.digits_string ds)) = true.
Proof. destruct ds; [done|]. reflexivity. Qed.

(** ** Input count: preview and signing *)

Section BitcoinInputs.
Import Bitcoin.
Context {Network : Type} (lib : @Libraries Network) (this : @BitcoinObj Network).

(** The input loop stops with an error as soon as it reaches an index
    other than 0. *)
Lemma previewInputs_later_index (rest : list PsbtInput) (i : nat) pushed :
  rest ≠ [] → (0 < i)%nat →
  previewInputs lib this rest i pushed =
    Throw (Error "Multiple inputs currently unsupported").
Proof.
  intros Hrest Hi. destruct rest as [|input rest]; [done|].
  simpl. destruct i; [lia|]. reflexivity.
Qed.

Lemma previewInputs_multiple (a b : PsbtInput) (rest : list PsbtInput) pushed :
  ∃ e, previewInputs lib this (a :: b :: rest) 0 pushed = Throw e.
Proof.
  destruct a as [[key|] [[|d ds]|] [utxo|]]; simpl;
    try (destruct (p2tr_address lib _ _) as [[address|]|]; simpl;
         try destruct (String.eqb address ""); simpl);
    eauto.
Qed.

(** [signInputs] makes one signature call per index, in order, up to the
    first that throws. *)
Lemma signInputs_calls (indices : list nat) (keyPair : Signer) (psbt : Psbt) :
  Forall (λ ev, is_signature ev = true) (calls (signInputs lib indices keyPair psbt)) ∧
  (is_Ok (outcome (signInputs lib indices keyPair psbt)) = true →
   calls (signInputs lib indices keyPair psbt) = EvSignTaprootInput <$> indices).
Proof.
  revert psbt. induction indices as [|index rest IH]; intros psbt.
  - split; [constructor|done].
  - cbn [signInputs]. unfold bind, call.
    destruct (signTaprootInput lib psbt index keyPair) as [psbt'|e].
    + destruct (IH psbt') as [Hsig Hok].
      destruct (signInputs lib rest keyPair psbt') as [r evs]. cbn in *.
      split; [now constructor|]. intros H. f_equal. auto.
    + cbn. split; [repeat constructor|discriminate].
Qed.

Lemma filter_signatures (indices : list nat) :
  List.filter is_signature (EvSignTaprootInput <$> indices) =
    EvSignTaprootInput <$> indices.
Proof. induction indices as [|i l IH]; [done|]. cbn. now rewrite IH. Qed.

(** [getPsbtPreview] calls the PSBT decoder and nothing else; its outcome
    is that of the two loops. *)
Lemma getPsbtPreview_unfold (hex : string) :
  getPsbtPreview lib this hex =
    (match Psbt_fromHex lib hex (network this) with
     | Throw e => Throw e
     | Ok psbt =>
         match previewInputs lib this (data_inputs psbt) 0 [] with
         | Throw e => Throw e
         | Ok ins =>
             match previewOutputs lib this (txOutputs psbt)
                     (data_outputs psbt) 0 [] with
             | Throw e => Throw e
             | Ok outs => Ok {| inputs := ins; outputs := outs |}
             end
         end
     end, [EvPsbtFromHex hex]).
Proof.
  unfold getPsbtPreview, bind, call, lift, ret.
  destruct (Psbt_fromHex lib hex (network this)) as [psbt|e]; [|done].
  destruct (previewInputs lib this _ 0 []); [|done].
  destruct (previewOutputs lib this _ _ 0 []); done.
Qed.

(** C1, as the code has it.  [getPsbtPreview] never calls the key provider
    or the signer: its only call is to the PSBT decoder.  It ends in an
    error for every proposal with two or more inputs; a proposal with no
    input passes the input loop, and the preview then has an empty input
    list.  [signPsbt] has no check on the number of inputs: its first call,
    for every proposal, is the key derivation, and when it returns it has
    signed every input of the proposal, in order. *)
Theorem input_count_design (hex : string) (psbt : Psbt) :
  Psbt_fromHex lib hex (network this) = Ok psbt →
  calls (getPsbtPreview lib this hex) = [EvPsbtFromHex hex] ∧
  Forall (λ ev, is_derivation ev = false ∧ is_signature ev = false)
         (calls (getPsbtPreview lib this hex)) ∧
  ((2 ≤ length (data_inputs psbt))%nat →
   ∃ e, outcome (getPsbtPreview lib this hex) = Throw e) ∧
  (data_inputs psbt = [] →
   outcome (getPsbtPreview lib this hex) =
     match previewOutputs lib this (txOutputs psbt) (data_outputs psbt) 0 [] with
     | Throw e => Throw e
     | Ok outs => Ok {| inputs := []; outputs := outs |}
     end) ∧
  (∃ rest, calls (signPsbt lib this hex) =
             EvDeriveKey (derivationPathOf this 0) :: rest) ∧
  (is_Ok (outcome (signPsbt lib this hex)) = true →
   List.filter is_signature (calls (signPsbt lib this hex)) =
     EvSignTaprootInput <$> seq 0 (length (data_inputs psbt))).
Proof.
  intros Hhex. rewrite getPsbtPreview_unfold, Hhex.
  split; [reflexivity|]. split; [repeat constructor|]. split; [|split].
  - intros Hlen. cbn [outcome fst].
    destruct (data_inputs psbt) as [|a [|b rest]]; [cbn in Hlen; lia ..|].
    destruct (previewInputs_multiple a b rest []) as [e ->]. eauto.
  - intros ->. reflexivity.
  - unfold signPsbt, bind, call, lift.
    destruct (mnemonic_deriveKey lib _) as [derivedKey|e]; [|split; [eauto|done]].
    rewrite Hhex.
    destruct (ECPair_fromPrivateKey lib _ _) as [signer|e]; [|split; [eauto|done]].
    destruct (tweakSigner lib signer _) as [keyPair|e]; [|split; [eauto|done]].
    pose proof (signInputs_calls (seq 0 (length (data_inputs psbt))) keyPair psbt)
      as [_ Hok].
    destruct (signInputs lib _ keyPair psbt) as [[signed|e] evs];
      [|split; [eauto|done]].
    cbn in Hok. rewrite (Hok eq_refl).
    destruct (finalizeAllInputs lib signed) as [final|e];
      [|split; [eauto|done]].
    split; [cbn; eauto|]. intros _. cbn.
    rewrite List.filter_app, filter_signatures. cbn. now rewrite app_nil_r.
Qed.

End BitcoinInputs.

(** The theorem at a proposal with two inputs. *)
Lemma input_count_design_witness :
  Bitcoin.Psbt_fromHex Demo.lib "02" (Bitcoin.network Demo.wallet) =
    Ok Demo.psbt_two_inputs ∧
  (∃ e, outcome (Bitcoin.getPsbtPreview Demo.lib Demo.wallet "02") = Throw e) ∧
  (∃ rest, calls (Bitcoin.signPsbt Demo.lib Demo.wallet "02") =
             Bitcoin.EvDeriveKey "m/86'/0'/0'/0/0" :: rest).
Proof.
  split; [reflexivity|].
  pose proof (input_count_design Demo.lib Demo.wallet "02" Demo.psbt_two_inputs
                eq_refl) as (_ & _ & Hmany & _ & Hderive & _).
  split; [apply Hmany; cbn; lia|exact Hderive].
Defined.

(** C1 fails on the code.  A proposal with two inputs is signed: the key is
    derived, both inputs are signed and the transaction is returned.  A
    proposal with no input is previewed, with an empty list of inputs. *)
Lemma input_count_not_rejected :
  Bitcoin.Psbt_fromHex Demo.lib "02" (Bitcoin.network Demo.wallet) =
    Ok Demo.psbt_two_inputs ∧
  length (Bitcoin.data_inputs Demo.psbt_two_inputs) = 2%nat ∧
  Bitcoin.signPsbt Demo.lib Demo.wallet "02" =
    (Ok "signed:2",
     [Bitcoin.EvDeriveKey "m/86'/0'/0'/0/0"; Bitcoin.EvPsbtFromHex "02";
      Bitcoin.EvSignTaprootInput 0; Bitcoin.EvSignTaprootInput 1;
      Bitcoin.EvFinalizeAllInputs; Bitcoin.EvExtractTransaction]) ∧
  Bitcoin.Psbt_fromHex Demo.lib "00" (Bitcoin.network Demo.wallet) =
    Ok Demo.psbt_no_input ∧
  length (Bitcoin.data_inputs Demo.psbt_no_input) = 0%nat ∧
  outcome (Bitcoin.getPsbtPreview Demo.lib Demo.wallet "00") =
    Ok {| Bitcoin.inputs := []; Bitcoin.outputs := [] |}.
Proof. repeat split; vm_compute; reflexivity. Qed.

(** ** The key tweak *)

Lemma curve_order_pos : 0 < Bitcoin.curve_order.
Proof. reflexivity. Qed.

Lemma isPrivate_iff (d : Z) :
  Bitcoin.isPrivate d = true ↔ 0 < d < Bitcoin.curve_order.
Proof.
  unfold Bitcoin.isPrivate. rewrite andb_true_iff, Z.ltb_lt, Z.ltb_lt. tauto.
Qed.

Section TweakSigner.
Import Bitcoin.
Context {Network : Type} (lib : @Libraries Network).

(** The X-only form of a compressed (33-byte) key drops its parity byte;
    a 32-byte key is X-only already. *)
Lemma toXOnly_compressed (pubKey : Buffer) :
  length pubKey = 33%nat → toXOnly pubKey = drop 1 pubKey ∧ length (toXOnly pubKey) = 32%nat.
Proof.
  intros H. unfold toXOnly. rewrite H. cbn [Nat.eqb].
  assert (Hlen : length (drop 1 pubKey) = 32%nat) by (rewrite length_drop; lia).
  rewrite firstn_all2 by lia. auto.
Qed.

(** C2.  For a signer holding a valid private key [d]: the scalar is
    negated (modulo the curve order) exactly when the first byte of the
    public key is 3; the tweak is the "TapTweak" tagged hash of the X-only
    public key alone, or of the X-only key followed by the Merkle root when
    one is given; the tweaked key is the sum of the two modulo the curve
    order; and the operation throws when that sum is zero (or the hash is
    not a scalar below the curve order).  The result depends on the signer
    through its public and private key only. *)
Theorem tweakSigner_tweaked_key (signer : Signer) (opts : TweakOpts) (d : Z) :
  signer_privateKey signer = Some d →
  isPrivate d = true →
  let negated :=
    if decide (signer_publicKey signer !! 0%nat = Some 3)
    then curve_order - d else d in
  let xOnly := toXOnly (signer_publicKey signer) in
  let hash :=
    taggedHash lib "TapTweak"
      (match tweakHash opts with
       | None => xOnly
       | Some root => xOnly ++ root
       end) in
  let tweaked := (negated + hash) mod curve_order in
  tweakSigner lib signer opts =
    (if negb (isTweak hash) then Throw (Error "Expected Tweak")
     else if tweaked =? 0 then Throw (Error "Invalid tweaked private key!")
     else Ok {| signer_privateKey := Some tweaked;
                signer_publicKey := pointFromScalar lib tweaked;
                signer_network := opts_network opts |}) ∧
  (∀ signer' : Signer,
     signer_publicKey signer' = signer_publicKey signer →
     signer_privateKey signer' = signer_privateKey signer →
     tweakSigner lib signer' opts = tweakSigner lib signer opts).
Proof.
  intros Hd Hpriv. cbv zeta. split.
  2:{ intros signer' Hpub Hkey. unfold tweakSigner. now rewrite Hpub, Hkey. }
  pose proof curve_order_pos as Hn.
  pose proof (proj1 (isPrivate_iff d) Hpriv) as Hrange.
  unfold tweakSigner. rewrite Hd.
  assert (Hhash : tapTweakHash lib (toXOnly (signer_publicKey signer)) (tweakHash opts) =
                  taggedHash lib "TapTweak"
                    (match tweakHash opts with
                     | None => toXOnly (signer_publicKey signer)
                     | Some root => toXOnly (signer_publicKey signer) ++ root
                     end)).
  { unfold tapTweakHash. destruct (tweakHash opts); cbn [concat];
      now rewrite ?app_nil_r. }
  rewrite Hhash. clear Hhash.
  set (hash := taggedHash lib _ _).
  assert (Hneg : (if decide (signer_publicKey signer !! 0%nat = Some 3)
                  then privateNegate d else Ok d) =
                 Ok (if decide (signer_publicKey signer !! 0%nat = Some 3)
                     then curve_order - d else d)).
  { destruct (decide _); [|done]. unfold privateNegate. rewrite Hpriv.
    now rewrite Z.mod_small by lia. }
  rewrite Hneg. clear Hneg.
  set (negated := if decide _ then curve_order - d else d).
  assert (Hnegated : isPrivate negated = true).
  { apply isPrivate_iff. subst negated. destruct (decide _); lia. }
  unfold privateAdd. rewrite Hnegated. cbn [negb].
  destruct (negb (isTweak hash)); [done|].
  set (tweaked := (negated + hash) mod curve_order).
  destruct (Z.eqb_spec tweaked 0) as [|Hnz]; [done|].
  unfold ECPair_fromPrivateKey.
  assert (Htw : isPrivate tweaked = true).
  { apply isPrivate_iff. pose proof (Z.mod_pos_bound (negated + hash) curve_order Hn).
    fold tweaked in H. lia. }
  now rewrite Htw.
Qed.

End TweakSigner.

(** The theorem at a signer with an odd public key and private key 7. *)
Lemma tweakSigner_tweaked_key_witness :
  Bitcoin.tweakSigner Demo.lib
    {| Bitcoin.signer_privateKey := Some 7;
       Bitcoin.signer_publicKey := 3 :: replicate 32 7;
       Bitcoin.signer_network := "bc" |}
    {| Bitcoin.opts_network := "bc"; Bitcoin.tweakHash := None |} =
  Ok {| Bitcoin.signer_privateKey := Some 225;
        Bitcoin.signer_publicKey := 3 :: replicate 32 225;
        Bitcoin.signer_network := "bc" |}.
Proof.
  etrans.
  - exact (proj1 (tweakSigner_tweaked_key Demo.lib
                    {| Bitcoin.signer_privateKey := Some 7;
                       Bitcoin.signer_publicKey := 3 :: replicate 32 7;
                       Bitcoin.signer_network := "bc" |}
                    {| Bitcoin.opts_network := "bc"; Bitcoin.tweakHash := None |}
                    7 eq_refl eq_refl)).
  - vm_compute. reflexivity.
Defined.

(** ** Output resolution in the preview *)

Section PreviewOutputs.
Import Bitcoin.
Context {Network : Type} (lib : @Libraries Network) (this : @BitcoinObj Network).

Lemma outputKey_spec (output : PsbtOutput) (txOutput : TxOutput) :
  out_tapBip32Derivation output ≠ Some [] →
  outputKey output (Some txOutput) = Ok (spec_output_source output txOutput).
Proof.
  intros Hne. unfold outputKey, spec_output_source.
  destruct (out_tapBip32Derivation output) as [[|d ds]|]; [done|done|].
  destruct (txo_address txOutput) as [destination|]; [|done].
  cbn. now destruct (String.eqb destination "").
Qed.

Lemma truthy_str_Some (s : string) : truthy_str (Some s) = true ↔ s ≠ "".
Proof.
  cbn. destruct (String.eqb_spec s ""); cbn; split; congruence.
Qed.

(** The body of the output loop succeeds exactly with the entry the
    specification describes. *)
Lemma previewOutput_Ok (i : nat) (output : PsbtOutput) (txOutput : option TxOutput)
    (a : Address) :
  out_tapBip32Derivation output ≠ Some [] →
  previewOutput lib this i output txOutput = Ok a ↔
  ∃ t, txOutput = Some t ∧ spec_output_entry lib this output t a.
Proof.
  intros Hne. destruct txOutput as [t|].
  - transitivity (spec_output_entry lib this output t a).
    2:{ split; [eauto|]. intros (t' & [= <-] & H). done. }
    unfold previewOutput, spec_output_entry.
    rewrite (outputKey_spec _ _ Hne).
    destruct (spec_output_source output t) as [key|].
    + destruct (p2tr_address lib key (network this)) as [[addr|]|e].
      * destruct (String.eqb_spec addr "") as [->|Hs]; cbn.
        -- split; [done|]. intros (_ & [= <-] & H). done.
        -- rewrite (proj2 (String.eqb_neq _ _) Hs). cbn. split.
           ++ intros [= <-]. done.
           ++ intros (Hv & [= ->] & _). destruct a; cbn in *; now subst.
      * cbn. split; [done|]. intros (_ & H & _). done.
      * split; [done|]. intros (_ & H & _). done.
    + cbn. split.
      * intros [= <-]. done.
      * intros (Hv & Ha). destruct a; cbn in *; now subst.
  - split.
    + unfold previewOutput, outputKey.
      destruct (out_tapBip32Derivation output) as [[|d ds]|]; [done| |done].
      destruct (p2tr_address lib _ _) as [address|e]; [|done].
      now destruct (negb (truthy_str address)).
    + intros (t & H & _). done.
Qed.

(** The output loop succeeds exactly when its body does at every index,
    and pushes the entries in order. *)
Lemma previewOutputs_Ok (txOuts : list TxOutput) (rest : list PsbtOutput)
    (i : nat) (pushed res : list Address) :
  previewOutputs lib this txOuts rest i pushed = Ok res ↔
  ∃ new, res = pushed ++ new ∧ length new = length rest ∧
         ∀ j output, rest !! j = Some output →
           ∃ a, new !! j = Some a ∧
                previewOutput lib this (i + j) output (txOuts !! (i + j)%nat) = Ok a.
Proof.
  revert i pushed. induction rest as [|output rest IH]; intros i pushed.
  - cbn. split.
    + intros [= <-]. exists []. rewrite app_nil_r. done.
    + intros (new & -> & Hlen & _). destruct new; [|done]. now rewrite app_nil_r.
  - cbn [previewOutputs]. split.
    + destruct (previewOutput lib this i output (txOuts !! i)) as [a|e] eqn:Ha; [|done].
      intros H. apply IH in H as (new & -> & Hlen & Hall).
      exists (a :: new). rewrite <- app_assoc. split; [done|]. split; [cbn; lia|].
      intros [|j] o Ho; cbn in Ho.
      * injection Ho as <-. exists a. rewrite Nat.add_0_r. done.
      * destruct (Hall j o Ho) as (a' & Hl & Hp). exists a'.
        rewrite Nat.add_succ_r. done.
    + intros (new & -> & Hlen & Hall). destruct new as [|a new]; [done|].
      destruct (Hall 0%nat output eq_refl) as (a' & [= <-] & Ha).
      rewrite Nat.add_0_r in Ha. rewrite Ha. apply IH.
      exists new. rewrite <- app_assoc. split; [done|]. split; [cbn in Hlen; lia|].
      intros j o Ho. destruct (Hall (S j) o Ho) as (a' & Hl & Hp).
      exists a'. rewrite Nat.add_succ_r in Hp. done.
Qed.

(** X23.  For a decoded proposal (whose derivation lists, when present,
    hold at least one record): [getPsbtPreview] returns a preview exactly
    when the input loop succeeds and every output has an entry whose amount
    is the transaction output's value and whose address is what [btc.p2tr]
    answers for the first derivation record's public key if there is one,
    else for the explicit destination put in the place of a public key,
    and is the marker "UNKNOWN" when the output has neither.  In
    particular an output with neither never makes the loop fail. *)
Theorem preview_output_resolution (hex : string) (psbt : Psbt) :
  Psbt_fromHex lib hex (network this) = Ok psbt →
  Forall (λ output, out_tapBip32Derivation output ≠ Some []) (data_outputs psbt) →
  (∀ pv : PsbtPreview,
     outcome (getPsbtPreview lib this hex) = Ok pv ↔
     previewInputs lib this (data_inputs psbt) 0 [] = Ok (inputs pv) ∧
     length (outputs pv) = length (data_outputs psbt) ∧
     ∀ i output, data_outputs psbt !! i = Some output →
       ∃ t a, txOutputs psbt !! i = Some t ∧ outputs pv !! i = Some a ∧
              spec_output_entry lib this output t a) ∧
  (∀ i output t,
     data_outputs psbt !! i = Some output →
     txOutputs psbt !! i = Some t →
     spec_output_source output t = None →
     previewOutput lib this i output (txOutputs psbt !! i) =
       Ok {| amount := txo_value t; address := "UNKNOWN" |}).
Proof.
  intros Hhex Hwf. rewrite Forall_lookup in Hwf. split.
  - intros pv. rewrite getPsbtPreview_unfold, Hhex. cbn [outcome fst].
    split.
    + destruct (previewInputs lib this _ 0 []) as [ins|e]; [|done].
      destruct (previewOutputs lib this _ _ 0 []) as [outs|e] eqn:Houts; [|done].
      intros [= <-]. cbn [inputs outputs]. split; [done|].
      apply previewOutputs_Ok in Houts as (new & -> & Hlen & Hall).
      cbn [app]. split; [done|]. intros i output Ho.
      destruct (Hall i output Ho) as (a & Hl & Ha). cbn in Ha.
      apply previewOutput_Ok in Ha as (t & Ht & Hspec); [|eauto]. eauto.
    + intros (Hins & Hlen & Hall). rewrite Hins.
      assert (Houts : previewOutputs lib this (txOutputs psbt) (data_outputs psbt) 0 []
                      = Ok (outputs pv)).
      { apply previewOutputs_Ok. exists (outputs pv). split; [done|]. split; [done|].
        intros j output Ho. destruct (Hall j output Ho) as (t & a & Ht & Ha & Hspec).
        exists a. split; [done|]. cbn. apply previewOutput_Ok; eauto. }
      rewrite Houts. now destruct pv.
  - intros i output t Ho Ht Hnone. rewrite Ht.
    apply previewOutput_Ok; [eauto|]. exists t. split; [done|].
    unfold spec_output_entry. now rewrite Hnone.
Qed.

(** C7, at the failing input: an output without a derivation record whose
    transaction output states a destination.  The code hands the
    destination string to [btc.p2tr] in the place of a public key.  The
    entry of a returned preview then carries the address [btc.p2tr] makes
    of that string, not the destination; and when [btc.p2tr] rejects the
    string, as it rejects an address, the preview fails. *)
Theorem preview_destination_as_key (hex : string) (psbt : Psbt) (i : nat)
    (output : PsbtOutput) (txOutput : TxOutput) (destination : string) :
  Psbt_fromHex lib hex (network this) = Ok psbt →
  data_outputs psbt !! i = Some output →
  txOutputs psbt !! i = Some txOutput →
  out_tapBip32Derivation output = None →
  txo_address txOutput = Some destination →
  destination ≠ "" →
  (∀ pv, outcome (getPsbtPreview lib this hex) = Ok pv →
     ∃ a, outputs pv !! i = Some a ∧ amount a = txo_value txOutput ∧
          p2tr_address lib (KeyString destination) (network this) =
            Ok (Some (address a))) ∧
  (∀ e, p2tr_address lib (KeyString destination) (network this) = Throw e →
     ∃ e', outcome (getPsbtPreview lib this hex) = Throw e').
Proof.
  intros Hhex Ho Ht Hnone Hdest Hne.
  assert (Hok : ∀ pv, outcome (getPsbtPreview lib this hex) = Ok pv →
    ∃ a, outputs pv !! i = Some a ∧ amount a = txo_value txOutput ∧
         p2tr_address lib (KeyString destination) (network this) =
           Ok (Some (address a))).
  { intros pv. rewrite getPsbtPreview_unfold, Hhex. cbn [outcome fst].
    destruct (previewInputs lib this _ 0 []) as [ins|e]; [|done].
    destruct (previewOutputs lib this _ _ 0 []) as [outs|e] eqn:Houts; [|done].
    intros [= <-]. cbn [outputs].
    apply previewOutputs_Ok in Houts as (new & -> & _ & Hall).
    destruct (Hall i output Ho) as (a & Ha & Hpreview).
    exists a. split; [exact Ha|]. revert Hpreview. cbn [Nat.add].
    rewrite Ht. unfold previewOutput, outputKey. rewrite Hnone, Hdest.
    rewrite (proj2 (truthy_str_Some destination) Hne). cbn [default from_option id].
    destruct (p2tr_address lib (KeyString destination) (network this))
      as [[addr|]|e]; [|done..].
    destruct (negb (truthy_str (Some addr))); [done|].
    now intros [= <-]. }
  split; [exact Hok|]. intros e He.
  destruct (outcome (getPsbtPreview lib this hex)) as [pv|e'] eqn:Hout; [|eauto].
  destruct (Hok pv eq_refl) as (a & _ & _ & Ha). congruence.
Qed.

End PreviewOutputs.

(** The theorem at a proposal with one input and two outputs, one with a
    derivation record and one with neither record nor destination. *)
Lemma preview_output_resolution_witness :
  outcome (Bitcoin.getPsbtPreview Demo.lib Demo.wallet "01") =
    Ok {| Bitcoin.inputs :=
            [ {| Bitcoin.amount := 50000;
                 Bitcoin.address := "bc1p" +:+ Js.Hex_stringify Demo.key_a |} ];
          Bitcoin.outputs :=
            [ {| Bitcoin.amount := 30000;
                 Bitcoin.address := "bc1p" +:+ Js.Hex_stringify Demo.key_b |};
              {| Bitcoin.amount := 19000; Bitcoin.address := "UNKNOWN" |} ] |}.
Proof.
  assert (Hwf : Forall (λ output, Bitcoin.out_tapBip32Derivation output ≠ Some [])
                       (Bitcoin.data_outputs Demo.psbt_one_input))
    by (repeat constructor; discriminate).
  apply (proj1 (preview_output_resolution Demo.lib Demo.wallet "01"
                  Demo.psbt_one_input eq_refl Hwf)).
  split; [reflexivity|]. split; [reflexivity|].
  intros [|[|i]] output Ho; [| |discriminate]; injection Ho as <-.
  - exists {| Bitcoin.txo_address := None; Bitcoin.txo_value := 30000 |}.
    eexists. split; [reflexivity|]. split; [reflexivity|].
    split; [reflexivity|]. split; [reflexivity|discriminate].
  - exists {| Bitcoin.txo_address := None; Bitcoin.txo_value := 19000 |}.
    eexists. split; [reflexivity|]. split; [reflexivity|].
    split; reflexivity.
Defined.

(** The theorem at a payment to an address: the preview fails. *)
Lemma preview_destination_as_key_witness :
  ∃ e, outcome (Bitcoin.getPsbtPreview DemoMore.lib Demo.wallet "05") = Throw e.
Proof.
  exact (proj2 (preview_destination_as_key DemoMore.lib Demo.wallet "05"
                  DemoMore.psbt_to_address 0
                  Demo.output_plain
                  {| Bitcoin.txo_address :=
                       Some "bc1qw508d6qejxtdg4y5r3zarvary0c5xw7kv8f3t4";
                     Bitcoin.txo_value := 45000 |}
                  "bc1qw508d6qejxtdg4y5r3zarvary0c5xw7kv8f3t4"
                  eq_refl eq_refl eq_refl eq_refl eq_refl ltac:(discriminate))
           _ eq_refl).
Defined.

(** That preview, in full: the decoder is called and the first output
    stops the preview. *)
Example preview_to_address :
  Bitcoin.getPsbtPreview DemoMore.lib Demo.wallet "05" =
    (Throw (Error "Expected a public key, got an address"),
     [Bitcoin.EvPsbtFromHex "05"]).
Proof. vm_compute. reflexivity. Qed.

(** ** The Commando connector *)

Section CommandoProperties.
Import Connector Commando.
Context (ln : LnMessage) (this : CommandoObj).

(** The shared callback strips the suffix and converts both amounts. *)
Lemma parsePayResponse_amounts (parsed : CommandoPayInvoiceResponse)
    (amt sent : list nat) :
  Js.all_digits amt → Js.all_digits sent →
  amount_msat parsed = Js.digits_string amt +:+ "msat" →
  amount_sent_msat parsed = Js.digits_string sent +:+ "msat" →
  parsePayResponse parsed =
    {| data :=
         {| preimage := payment_preimage parsed;
            paymentHash := payment_hash parsed;
            route :=
              {| total_amt :=
                   Js.div (Js.of_Z (Js.digits_value amt)) (Js.of_Z 1000);
                 total_fees :=
                   Js.div (Js.sub (Js.of_Z (Js.digits_value sent))
                                  (Js.of_Z (Js.digits_value amt)))
                          (Js.of_Z 1000) |} |} |}.
Proof.
  intros Hamt Hsent Ha Hs. unfold parsePayResponse. rewrite Ha, Hs.
  now rewrite !replace_msat_digits, !StringToNumber_digits by done.
Qed.

(** C8.  [sendPayment] sends one [pay] request and [keysend] one [keysend]
    request.  When the node answers it with amounts written as decimal
    digits followed by "msat", the normalized response carries numbers:
    [total_amt] is the number written in [amount_msat] divided by 1000,
    and [total_fees] is the number written in [amount_sent_msat] minus the
    one written in [amount_msat], divided by 1000 (each number the binary64
    value nearest to what is written, each operation that of binary64). *)
Theorem commando_pay_amounts (parsed : CommandoPayInvoiceResponse)
    (amt sent : list nat) :
  Js.all_digits amt → Js.all_digits sent →
  amount_msat parsed = Js.digits_string amt +:+ "msat" →
  amount_sent_msat parsed = Js.digits_string sent +:+ "msat" →
  let normalized :=
    {| data :=
         {| preimage := payment_preimage parsed;
            paymentHash := payment_hash parsed;
            route :=
              {| total_amt :=
                   Js.div (Js.of_Z (Js.digits_value amt)) (Js.of_Z 1000);
                 total_fees :=
                   Js.div (Js.sub (Js.of_Z (Js.digits_value sent))
                                  (Js.of_Z (Js.digits_value amt)))
                          (Js.of_Z 1000) |} |} |} in
  (∀ args,
     let request :=
       {| method := "pay";
          params := [("bolt11", PString (sp_paymentRequest args))];
          req_rune := rune (config this) |} in
     commando_PayInvoice ln request = Ok parsed →
     sendPayment ln this args = (Ok normalized, [EvCommando request])) ∧
  (∀ args,
     let request :=
       {| method := "keysend";
          params :=
            [("destination", PString (ks_pubkey args));
             ("msatoshi", PNumber (Js.mul (ks_amount args) (Js.of_Z 1000)));
             ("extratlvs",
              PRecord ((λ kv, (fst kv, Js.Hex_stringify (Js.UTF8_parse (snd kv))))
                       <$> customRecords args))];
          req_rune := rune (config this) |} in
     commando_PayInvoice ln request = Ok parsed →
     keysend ln this args = (Ok normalized, [EvCommando request])).
Proof.
  intros Hamt Hsent Ha Hs. cbv zeta.
  rewrite <- (parsePayResponse_amounts parsed amt sent Hamt Hsent Ha Hs).
  split; intros args Hresp.
  - unfold sendPayment, commando, bind, call, ret. now rewrite Hresp.
  - unfold keysend, commando, bind, call, ret. now rewrite Hresp.
Qed.

(** C9.  Every RPC operation hands exactly one request to the transport,
    and the rune of that request is the rune of the configuration. *)
Theorem commando_requests_carry_rune (op : operation) :
  ∃ request, requests ln this op = [request] ∧
             req_rune request = rune (config this).
Proof.
  destruct op; unfold requests;
    [ unfold connectPeer, try_catch | unfold getInvoices | unfold getInfo
    | unfold getBalance | unfold sendPayment | unfold keysend
    | unfold checkPayment | unfold signMessage | unfold makeInvoice ];
    unfold commando, bind, call, ret;
    match goal with
    | |- context [match ?f ln ?request with _ => _ end] =>
        exists request; destruct (f ln request)
    end; cbn; try done.
  destruct (negb _); [done|]. now destruct (_ !! _).
Qed.

End CommandoProperties.

(** The theorem at an answer of 1500msat with 1510msat sent, to a payment
    and to a keysend of 21 with one custom record. *)
Lemma commando_pay_amounts_witness :
  Commando.sendPayment DemoCommando.ln_up DemoCommando.node
    {| Connector.sp_paymentRequest := "lnbc1500" |} =
    (Ok {| Connector.data :=
             {| Connector.preimage := "00ff";
                Connector.paymentHash := "ab12";
                Connector.route :=
                  {| Connector.total_amt := Js.div (Js.of_Z 1500) (Js.of_Z 1000);
                     Connector.total_fees :=
                       Js.div (Js.sub (Js.of_Z 1510) (Js.of_Z 1500))
                              (Js.of_Z 1000) |} |} |},
     [Commando.EvCommando
        {| Commando.method := "pay";
           Commando.params := [("bolt11", Commando.PString "lnbc1500")];
           Commando.req_rune := "rune-7f3a" |}]) ∧
  Commando.keysend DemoCommando.ln_up DemoCommando.node
    {| Connector.ks_pubkey := "02ab";
       Connector.ks_amount := Js.of_Z 21;
       Connector.customRecords := [("7629169", "hello")] |} =
    (Ok {| Connector.data :=
             {| Connector.preimage := "00ff";
                Connector.paymentHash := "ab12";
                Connector.route :=
                  {| Connector.total_amt := Js.div (Js.of_Z 1500) (Js.of_Z 1000);
                     Connector.total_fees :=
                       Js.div (Js.sub (Js.of_Z 1510) (Js.of_Z 1500))
                              (Js.of_Z 1000) |} |} |},
     [Commando.EvCommando
        {| Commando.method := "keysend";
           Commando.params :=
             [ ("destination", Commando.PString "02ab");
               ("msatoshi", Commando.PNumber (Js.of_Z 21000));
               ("extratlvs", Commando.PRecord [("7629169", "68656c6c6f")]) ];
           Commando.req_rune := "rune-7f3a" |}]).
Proof.
  assert (Hamt : Js.all_digits [1; 5; 0; 0]%nat)
    by (unfold Js.all_digits; repeat (constructor; [lia|]); constructor).
  assert (Hsent : Js.all_digits [1; 5; 1; 0]%nat)
    by (unfold Js.all_digits; repeat (constructor; [lia|]); constructor).
  destruct (commando_pay_amounts DemoCommando.ln_up DemoCommando.node
              DemoCommando.pay_answer [1; 5; 0; 0]%nat [1; 5; 1; 0]%nat
              Hamt Hsent eq_refl eq_refl) as [Hpay Hkeysend].
  split.
  - exact (Hpay {| Connector.sp_paymentRequest := "lnbc1500" |} eq_refl).
  - exact (Hkeysend {| Connector.ks_pubkey := "02ab";
                       Connector.ks_amount := Js.of_Z 21;
                       Connector.customRecords := [("7629169", "hello")] |}
             eq_refl).
Defined.

(** The amounts of that answer are the numbers 1.5 and 0.01. *)
Example commando_pay_amounts_example :
  Js.div (Js.of_Z 1500) (Js.of_Z 1000) = Js.StringToNumber "1.5" ∧
  Js.div (Js.sub (Js.of_Z 1510) (Js.of_Z 1500)) (Js.of_Z 1000) =
    Js.StringToNumber "0.01".
Proof. split; vm_compute; reflexivity. Qed.

(** ** Payment status *)

Section CheckPayment.
Import Connector.
Context (ln : Commando.LnMessage) (node : Commando.CommandoObj)
        (nwc : NWC.NWCClient) (wallet : NWC.NWCConnector).

(** C3, as the code has it.  The Commando connector looks the invoice up
    with one [listinvoices] request.  When the node answers, the result is
    [paid: false] unless exactly one invoice is listed, and [paid: true]
    exactly when one invoice is listed and its status is "paid"; when the
    request is rejected, [checkPayment] is rejected with the same error.
    The NWC connector never throws: it answers [paid: false] when the
    lookup throws, and [paid: true] exactly when the lookup returns an
    invoice with a truthy [settled_at]. *)
Theorem checkPayment_outcomes (args : CheckPaymentArgs) :
  let request :=
    {| Commando.method := "listinvoices";
       Commando.params :=
         [("payment_hash", Commando.PString (cp_paymentHash args))];
       Commando.req_rune := Commando.rune (Commando.config node) |} in
  calls (Commando.checkPayment ln node args) = [Commando.EvCommando request] ∧
  match Commando.commando_ListInvoices ln request with
  | Ok parsed =>
      ∃ d, outcome (Commando.checkPayment ln node args) = Ok {| data := d |} ∧
           (length (Commando.li_invoices parsed) ≠ 1%nat → paid d = false) ∧
           (paid d = true ↔
            ∃ invoice, Commando.li_invoices parsed = [invoice] ∧
                       Commando.status invoice = "paid")
  | Throw e => outcome (Commando.checkPayment ln node args) = Throw e
  end ∧
  match NWC.nwc_lookupInvoice nwc (cp_paymentHash args) with
  | Ok response =>
      NWC.checkPayment nwc wallet args =
        (Ok {| data :=
                 {| paid := match NWC.tx_settled_at response with
                            | Some t => Js.truthy t
                            | None => false
                            end;
                    cp_preimage := Some (NWC.tx_preimage response) |} |},
         [NWC.EvLookupInvoice (cp_paymentHash args)])
  | Throw e =>
      NWC.checkPayment nwc wallet args =
        (Ok {| data := {| paid := false; cp_preimage := None |} |},
         [NWC.EvLookupInvoice (cp_paymentHash args); NWC.EvConsoleError e])
  end.
Proof.
  cbv zeta. split; [|split].
  - unfold Commando.checkPayment, Commando.commando, bind, call, ret, throw.
    destruct (Commando.commando_ListInvoices ln _) as [parsed|e]; [|done].
    destruct (negb _); [done|]. now destruct (_ !! _).
  - unfold Commando.checkPayment, Commando.commando, bind, call, ret, throw.
    destruct (Commando.commando_ListInvoices ln _) as [parsed|e]; [|done].
    destruct (Commando.li_invoices parsed) as [|invoice [|second rest]]; cbn.
    + eexists. split; [done|]. cbn. split; [done|].
      split; [done|]. intros (? & ? & _). done.
    + eexists. split; [done|]. cbn. split; [done|]. split.
      * intros H. exists invoice. split; [done|]. now apply String.eqb_eq.
      * intros (? & [= <-] & H). now apply String.eqb_eq.
    + eexists. split; [done|]. cbn. split; [done|].
      split; [done|]. intros (? & ? & _). done.
  - unfold NWC.checkPayment, try_catch, bind, call, ret.
    now destruct (NWC.nwc_lookupInvoice nwc _).
Qed.

End CheckPayment.

(** C3 fails on the code.  When the node rejects the lookup request, the
    Commando connector's [checkPayment] is rejected too: the error reaches
    the caller and no [paid: false] is returned. *)
Lemma commando_checkPayment_propagates :
  Commando.checkPayment DemoCommando.ln_down DemoCommando.node
    {| Connector.cp_paymentHash := "ab12" |} =
  (Throw (Error "socket closed"),
   [Commando.EvCommando
      {| Commando.method := "listinvoices";
         Commando.params := [("payment_hash", Commando.PString "ab12")];
         Commando.req_rune := "rune-7f3a" |}]).
Proof. reflexivity. Qed.

(** ** The Nostr Wallet Connect connector *)

Section NWCProperties.
Import Connector NWC.
Context (nwc : NWCClient) (this : NWCConnector).

Lemma find_payment_hash_None (decoded : DecodedInvoice) :
  find_payment_hash decoded = None ↔
  Forall (λ tag, tagName tag ≠ "payment_hash") (tags decoded).
Proof.
  unfold find_payment_hash. induction (tags decoded) as [|tag rest IH]; cbn.
  - split; [constructor|done].
  - destruct (String.eqb_spec (tagName tag) "payment_hash") as [Heq|Hne]; cbn.
    + split; [done|]. intros H. inversion H; subst. done.
    + rewrite IH. split; [now constructor|]. intros H. now inversion H.
Qed.

(** The hash the connector finds is the data of the first tag named
    "payment_hash". *)
Lemma find_payment_hash_Some (decoded : DecodedInvoice) (hash : string) :
  find_payment_hash decoded = Some hash ↔
  ∃ before tag after,
    tags decoded = before ++ tag :: after ∧
    Forall (λ tag, tagName tag ≠ "payment_hash") before ∧
    tagName tag = "payment_hash" ∧ tag_data tag = hash.
Proof.
  unfold find_payment_hash. induction (tags decoded) as [|tag rest IH]; cbn.
  - split; [done|]. intros (before & ? & ? & H & _). now destruct before.
  - destruct (String.eqb_spec (tagName tag) "payment_hash") as [Heq|Hne]; cbn.
    + split.
      * intros [= <-]. exists [], tag, rest. repeat split; [constructor|done].
      * intros ([|first before] & tag' & after & H & Hb & Hn & Hd); cbn in H.
        -- now injection H as <- <-; subst.
        -- injection H as <- _. inversion Hb; subst. done.
    + rewrite IH. split.
      * intros (before & tag' & after & -> & Hb & Hn & Hd).
        exists (tag :: before), tag', after. repeat split; [|done..].
        now constructor.
      * intros ([|first before] & tag' & after & H & Hb & Hn & Hd); cbn in H.
        -- injection H as <- _. done.
        -- injection H as <- ->. inversion Hb; subst.
           exists before, tag', after. done.
Qed.

(** Whatever the decoder does, a pay request is sent only after it has
    returned a request with a payment hash. *)
Lemma nwc_sendPayment_pay_needs_hash (args : SendPaymentArgs) :
  Exists (λ ev, is_pay ev = true) (calls (sendPayment nwc this args)) →
  ∃ decoded,
    lightningPayReq_decode nwc (sp_paymentRequest args) = Ok decoded ∧
    truthy_str (find_payment_hash decoded) = true.
Proof.
  unfold sendPayment, bind, call, ret, throw.
  destruct (lightningPayReq_decode nwc _) as [decoded|e]; cbn.
  - destruct (truthy_str (find_payment_hash decoded)) eqn:Hhash;
      [intros _; eauto|]. cbn.
    intros H. apply Exists_cons in H as [H|H]; [done|]. now apply Exists_nil in H.
  - intros H. apply Exists_cons in H as [H|H]; [done|]. now apply Exists_nil in H.
Qed.

(** The tag the connector finds is the first one named "payment_hash". *)
Lemma find_first_payment_hash (decoded : DecodedInvoice) (before after : list Tag)
    (tag : Tag) :
  tags decoded = before ++ tag :: after →
  Forall (λ tag, tagName tag ≠ "payment_hash") before →
  tagName tag = "payment_hash" →
  find_payment_hash decoded = Some (tag_data tag).
Proof. intros Htags Hbefore Hname. apply find_payment_hash_Some. eauto 10. Qed.

(** C4.  [sendPayment] decodes the payment request first.  The payment
    hash is the data of the first tag named "payment_hash" of the decoded
    request.  When there is no such tag, or its data is empty,
    [sendPayment] throws the missing-payment-hash error and the decoder is
    the only collaborator called: no pay request is sent.  With a payment
    hash, one pay request is sent, after the decoding; when it is
    answered, the response carries the preimage answered, that payment
    hash, fees of 0, and as total amount the number written in the
    millisatoshi tag divided by 1000 (a binary64 division) when that tag
    is present, else the satoshi tag. *)
Theorem nwc_sendPayment_decodes_first (args : SendPaymentArgs)
    (decoded : DecodedInvoice) :
  lightningPayReq_decode nwc (sp_paymentRequest args) = Ok decoded →
  (Forall (λ tag, tagName tag ≠ "payment_hash") (tags decoded) →
   sendPayment nwc this args =
     (Throw missing_payment_hash, [EvDecode (sp_paymentRequest args)])) ∧
  (∀ before tag after,
     tags decoded = before ++ tag :: after →
     Forall (λ tag, tagName tag ≠ "payment_hash") before →
     tagName tag = "payment_hash" →
     (tag_data tag = "" →
      sendPayment nwc this args =
        (Throw missing_payment_hash, [EvDecode (sp_paymentRequest args)])) ∧
     (tag_data tag ≠ "" →
      calls (sendPayment nwc this args) =
        [EvDecode (sp_paymentRequest args); EvPayInvoice (sp_paymentRequest args)] ∧
      ∀ response,
        nwc_payInvoice nwc (sp_paymentRequest args) = Ok response →
        ∃ amt,
          outcome (sendPayment nwc this args) =
            Ok {| data := {| preimage := pay_preimage response;
                             paymentHash := tag_data tag;
                             route := {| total_amt := amt;
                                         total_fees := Js.of_Z 0 |} |} |} ∧
          (∀ ds, Js.all_digits ds → ds ≠ [] →
                 millisatoshis decoded = Some (Js.digits_string ds) →
                 amt = Js.div (Js.of_Z (Js.digits_value ds)) (Js.of_Z 1000)) ∧
          (∀ sats, millisatoshis decoded = None ∨ millisatoshis decoded = Some "" →
                   satoshis decoded = Some sats → amt = sats))) ∧
  (Exists (λ ev, is_pay ev = true) (calls (sendPayment nwc this args)) →
   ∃ before tag after,
     tags decoded = before ++ tag :: after ∧
     Forall (λ tag, tagName tag ≠ "payment_hash") before ∧
     tagName tag = "payment_hash" ∧ tag_data tag ≠ "").
Proof.
  intros Hdec. unfold sendPayment, bind, call, ret, throw. rewrite Hdec.
  split; [|split].
  - intros Hnone. apply find_payment_hash_None in Hnone. now rewrite Hnone.
  - intros before tag after Htags Hbefore Hname.
    rewrite (find_first_payment_hash decoded before after tag Htags Hbefore Hname).
    split; [now intros ->|]. intros Hne.
    rewrite (proj2 (truthy_str_Some (tag_data tag)) Hne). cbn [negb].
    destruct (nwc_payInvoice nwc _) as [resp|e].
    + split; [reflexivity|]. intros response [= <-]. eexists. split; [reflexivity|].
      split.
      * intros ds Hds Hnonempty Hms. rewrite Hms.
        rewrite (digits_string_nonempty ds Hnonempty).
        change (default "" (Some (Js.digits_string ds))) with (Js.digits_string ds).
        now rewrite (parseInt10_digits ds Hds Hnonempty).
      * intros sats [Hms|Hms] Hsats; now rewrite Hms, Hsats.
    + split; [reflexivity|]. intros response [=].
  - destruct (find_payment_hash decoded) as [hash|] eqn:Hhash; cbn.
    + destruct (String.eqb_spec hash "") as [->|Hne]; cbn.
      * intros H. apply Exists_cons in H as [H|H]; [done|]. now apply Exists_nil in H.
      * intros _. apply find_payment_hash_Some in Hhash
          as (before & tag & after & Htags & Hbefore & Hname & <-).
        eauto 10.
    + intros H. apply Exists_cons in H as [H|H]; [done|]. now apply Exists_nil in H.
Qed.

(** C5.  When the wallet service answers a keysend with a preimage, the
    payment hash returned is the hexadecimal SHA-256 of that preimage,
    computed by the connector, and the total amount is the amount asked
    for, which is also the amount of the request sent. *)
Theorem nwc_keysend_hash (args : KeysendArgs) (request : PayKeysendRequest)
    (answer : PayResponse) :
  calls (keysend nwc this args) = [EvPayKeysend request] →
  nwc_payKeysend nwc request = Ok answer →
  outcome (keysend nwc this args) =
    Ok {| data :=
            {| preimage := pay_preimage answer;
               paymentHash := Js.Hex_stringify (SHA256 nwc (pay_preimage answer));
               route := {| total_amt := ks_amount args;
                           total_fees := Js.of_Z 0 |} |} |} ∧
  pk_amount request = ks_amount args.
Proof.
  unfold keysend, bind, call, ret.
  destruct (nwc_payKeysend nwc _) as [data|e] eqn:Hpay; cbn;
    intros [= <-] H; rewrite H in Hpay; [|done].
  injection Hpay as <-. done.
Qed.

(** C6.  [makeInvoice] asks the wallet service for one invoice.  When the
    service answers: a (non-empty) payment hash in the answer is returned as
    it is, and nothing is decoded; when the answer has none, the connector
    decodes the payment request of the answer and returns the data of the
    first tag named "payment_hash"; and, given that the decoder returns, it
    throws the missing-payment-hash error exactly when the answer has no
    payment hash and the decoded request has no such tag or an empty one. *)
Theorem nwc_makeInvoice_payment_hash (args : MakeInvoiceArgs)
    (invoice : Nip47Transaction) :
  nwc_makeInvoice nwc (invoice_amount (mi_amount args)) (memo args) = Ok invoice →
  let asked := EvMakeInvoice (invoice_amount (mi_amount args)) (memo args) in
  (∀ hash,
     tx_payment_hash invoice = Some hash → hash ≠ "" →
     makeInvoice nwc this args =
       (Ok {| data := {| paymentRequest := tx_invoice invoice; rHash := hash |} |},
        [asked])) ∧
  (tx_payment_hash invoice = None ∨ tx_payment_hash invoice = Some "" →
   ∀ decoded,
     lightningPayReq_decode nwc (tx_invoice invoice) = Ok decoded →
     calls (makeInvoice nwc this args) = [asked; EvDecode (tx_invoice invoice)] ∧
     (∀ before tag after,
        tags decoded = before ++ tag :: after →
        Forall (λ tag, tagName tag ≠ "payment_hash") before →
        tagName tag = "payment_hash" →
        (tag_data tag ≠ "" →
         outcome (makeInvoice nwc this args) =
           Ok {| data := {| paymentRequest := tx_invoice invoice;
                            rHash := tag_data tag |} |}) ∧
        (tag_data tag = "" →
         outcome (makeInvoice nwc this args) = Throw missing_payment_hash)) ∧
     (Forall (λ tag, tagName tag ≠ "payment_hash") (tags decoded) →
      outcome (makeInvoice nwc this args) = Throw missing_payment_hash) ∧
     (outcome (makeInvoice nwc this args) = Throw missing_payment_hash →
      Forall (λ tag, tagName tag ≠ "payment_hash") (tags decoded) ∨
      ∃ before tag after,
        tags decoded = before ++ tag :: after ∧
        Forall (λ tag, tagName tag ≠ "payment_hash") before ∧
        tagName tag = "payment_hash" ∧ tag_data tag = "")) ∧
  (outcome (makeInvoice nwc this args) = Throw missing_payment_hash →
   tx_payment_hash invoice = None ∨ tx_payment_hash invoice = Some "").
Proof.
  intros Hinv. cbv zeta. unfold makeInvoice, bind, call, ret, throw.
  rewrite Hinv. split; [|split].
  - intros hash Hhash Hne. rewrite Hhash, (proj2 (truthy_str_Some hash) Hne).
    reflexivity.
  - intros Hnone decoded Hdec.
    assert (Hfalsy : truthy_str (tx_payment_hash invoice) = false)
      by (destruct Hnone as [->| ->]; reflexivity).
    rewrite Hfalsy, Hdec. cbn [negb].
    split; [now destruct (negb (truthy_str (find_payment_hash decoded)))|].
    split; [|split].
    + intros before tag after Htags Hbefore Hname.
      rewrite (find_first_payment_hash decoded before after tag Htags Hbefore Hname).
      split.
      * intros Hne. now rewrite (proj2 (truthy_str_Some (tag_data tag)) Hne).
      * now intros ->.
    + intros Hnotag. apply find_payment_hash_None in Hnotag. now rewrite Hnotag.
    + destruct (find_payment_hash decoded) as [hash|] eqn:Hhash.
      * destruct (String.eqb_spec hash "") as [->|Hne]; cbn.
        -- intros _. right.
           apply find_payment_hash_Some in Hhash
             as (before & tag & after & Htags & Hbefore & Hname & Hdata).
           eauto 10.
        -- rewrite (proj2 (String.eqb_neq _ _) Hne). cbn. done.
      * intros _. left. now apply find_payment_hash_None.
  - destruct (tx_payment_hash invoice) as [hash|]; [|auto].
    destruct (String.eqb_spec hash "") as [->|Hne]; [auto|].
    cbn. rewrite (proj2 (String.eqb_neq _ _) Hne). cbn. done.
Qed.

(** C10.  [getTransactions] sends one request, for at most 50 transactions
    and without the unpaid ones.  Of what the wallet service lists, every
    transaction is reported as settled, its settle date is [settled_at]
    times 1000 (the binary64 product; not a number when [settled_at] is
    missing), and its id is its position in the list written in decimal:
    the ids of two answers of the same length are the same, whatever the
    payments listed. *)
Theorem nwc_getTransactions_projection :
  let request :=
    {| lt_from := None; lt_until := None; lt_limit := Some (Js.of_Z 50);
       lt_offset := None; lt_unpaid := Some false; lt_type := None |} in
  calls (getTransactions nwc this) = [EvListTransactions request] ∧
  match nwc_listTransactions nwc request with
  | Throw e => outcome (getTransactions nwc this) = Throw e
  | Ok answer =>
      ∃ txs,
        outcome (getTransactions nwc this) =
          Ok {| data := {| transactions := txs |} |} ∧
        length txs = length (lt_transactions answer) ∧
        ct_id <$> txs = pretty <$> seq 0 (length (lt_transactions answer)) ∧
        ∀ i transaction,
          lt_transactions answer !! i = Some transaction →
          ∃ ct, txs !! i = Some ct ∧
                ct_id ct = pretty i ∧
                ct_settled ct = true ∧
                ct_settleDate ct =
                  Js.mul (default Js.NaN (tx_settled_at transaction)) (Js.of_Z 1000)
  end.
Proof.
  cbv zeta. unfold getTransactions, bind, call, ret.
  destruct (nwc_listTransactions nwc _) as [answer|e]; [|done].
  split; [reflexivity|]. eexists. split; [reflexivity|].
  split; [apply length_imap|]. split.
  - rewrite fmap_imap. apply (imap_seq_0 (lt_transactions answer) pretty).
  - intros i transaction Hi. rewrite list_lookup_imap, Hi. cbn.
    eexists. split; [reflexivity|]. cbn. repeat split.
Qed.

End NWCProperties.

(** The transactions of the wallet service of the examples. *)
Example getTransactions_example :
  outcome (NWC.getTransactions DemoNWC.client_up DemoNWC.wallet) =
    Ok {| Connector.data :=
            {| Connector.transactions :=
                 [ {| Connector.ct_id := "0"; Connector.ct_memo := "coffee";
                      Connector.ct_preimage := "00ff";
                      Connector.ct_payment_hash := Some "ab12";
                      Connector.ct_settled := true;
                      Connector.ct_settleDate := Js.of_Z 1700000000000;
                      Connector.ct_totalAmount := Js.of_Z 2;
                      Connector.ct_type := "received" |};
                   {| Connector.ct_id := "1"; Connector.ct_memo := "coffee";
                      Connector.ct_preimage := "00ff";
                      Connector.ct_payment_hash := Some "cd34";
                      Connector.ct_settled := true;
                      Connector.ct_settleDate := Js.of_Z 1700000500000;
                      Connector.ct_totalAmount := Js.of_Z 2;
                      Connector.ct_type := "sent" |} ] |} |}.
Proof. vm_compute. reflexivity. Qed.

(** The theorem at a payment request without a payment hash, and at one
    of 2500 millisatoshis whose payment hash is the second of three
    tags. *)
Lemma nwc_sendPayment_decodes_first_witness :
  NWC.sendPayment DemoNWC.client_up DemoNWC.wallet
    {| Connector.sp_paymentRequest := "lnbc0" |} =
    (Throw NWC.missing_payment_hash, [NWC.EvDecode "lnbc0"]) ∧
  calls (NWC.sendPayment DemoNWC.client_up DemoNWC.wallet
           {| Connector.sp_paymentRequest := "lnbc2500" |}) =
    [NWC.EvDecode "lnbc2500"; NWC.EvPayInvoice "lnbc2500"] ∧
  outcome (NWC.sendPayment DemoNWC.client_up DemoNWC.wallet
             {| Connector.sp_paymentRequest := "lnbc2500" |}) =
    Ok {| Connector.data :=
            {| Connector.preimage := "00ff";
               Connector.paymentHash := "ab12";
               Connector.route :=
                 {| Connector.total_amt := Js.div (Js.of_Z 2500) (Js.of_Z 1000);
                    Connector.total_fees := Js.of_Z 0 |} |} |}.
Proof.
  split.
  - refine (proj1 (nwc_sendPayment_decodes_first DemoNWC.client_up DemoNWC.wallet
                     {| Connector.sp_paymentRequest := "lnbc0" |}
                     {| NWC.tags := [ {| NWC.tagName := "payment_secret";
                                         NWC.tag_data := "11" |} ];
                        NWC.millisatoshis := None;
                        NWC.satoshis := None |}
                     eq_refl) _).
    repeat constructor. discriminate.
  - destruct (nwc_sendPayment_decodes_first DemoNWC.client_up DemoNWC.wallet
                {| Connector.sp_paymentRequest := "lnbc2500" |} _ eq_refl)
      as (_ & Hpay & _).
    destruct (Hpay [ {| NWC.tagName := "payment_secret"; NWC.tag_data := "11" |} ]
                   {| NWC.tagName := "payment_hash"; NWC.tag_data := "ab12" |}
                   [ {| NWC.tagName := "description"; NWC.tag_data := "coffee" |} ]
                   eq_refl ltac:(repeat constructor; discriminate) eq_refl)
      as (_ & Hhash).
    destruct (Hhash ltac:(discriminate)) as (Hcalls & Hanswered).
    split; [exact Hcalls|].
    destruct (Hanswered {| NWC.pay_preimage := "00ff" |} eq_refl)
      as (amt & Hout & Hms & _).
    rewrite (Hms [2; 5; 0; 0]%nat
               ltac:(unfold Js.all_digits; repeat (constructor; [lia|]); constructor)
               ltac:(discriminate) eq_refl) in Hout.
    exact Hout.
Defined.

(** The theorem at a keysend of 21 with one custom record. *)
Lemma nwc_keysend_hash_witness :
  outcome (NWC.keysend DemoNWC.client_up DemoNWC.wallet
             {| Connector.ks_pubkey := "02ab";
                Connector.ks_amount := Js.of_Z 21;
                Connector.customRecords := [("7629169", "hello")] |}) =
    Ok {| Connector.data :=
            {| Connector.preimage := "0a0b";
               Connector.paymentHash := "04ab";
               Connector.route :=
                 {| Connector.total_amt := Js.of_Z 21;
                    Connector.total_fees := Js.of_Z 0 |} |} |}.
Proof.
  exact (proj1 (nwc_keysend_hash DemoNWC.client_up DemoNWC.wallet
                  {| Connector.ks_pubkey := "02ab";
                     Connector.ks_amount := Js.of_Z 21;
                     Connector.customRecords := [("7629169", "hello")] |}
                  _ {| NWC.pay_preimage := "0a0b" |} eq_refl eq_refl)).
Defined.

(** The theorem at an answer without a payment hash, whose payment request
    carries one as the second of three tags. *)
Lemma nwc_makeInvoice_payment_hash_witness :
  calls (NWC.makeInvoice DemoNWC.client_up DemoNWC.wallet
           {| Connector.mi_amount := Connector.AmountString "2";
              Connector.memo := "coffee" |}) =
    [NWC.EvMakeInvoice (Js.of_Z 2) "coffee"; NWC.EvDecode "lnbc2500"] ∧
  outcome (NWC.makeInvoice DemoNWC.client_up DemoNWC.wallet
             {| Connector.mi_amount := Connector.AmountString "2";
                Connector.memo := "coffee" |}) =
    Ok {| Connector.data := {| Connector.paymentRequest := "lnbc2500";
                               Connector.rHash := "ab12" |} |}.
Proof.
  pose proof (nwc_makeInvoice_payment_hash DemoNWC.client_up DemoNWC.wallet
                {| Connector.mi_amount := Connector.AmountString "2";
                   Connector.memo := "coffee" |}
                _ eq_refl) as (_ & Hdecode & _).
  destruct (Hdecode (or_introl eq_refl) _ eq_refl) as (Hcalls & Hfound & _).
  split; [exact Hcalls|].
  exact (proj1 (Hfound
                  [ {| NWC.tagName := "payment_secret"; NWC.tag_data := "11" |} ]
                  {| NWC.tagName := "payment_hash"; NWC.tag_data := "ab12" |}
                  [ {| NWC.tagName := "description"; NWC.tag_data := "coffee" |} ]
                  eq_refl ltac:(repeat constructor; discriminate) eq_refl)
           ltac:(discriminate)).
Defined.

(** * Further properties *)

(** ** Derivation path and address *)

Section TaprootAddress.
Import Bitcoin BitcoinAddress.
Context {Network : Type} (lib : @Libraries Network)
        (btc_getAddress : string → Z → Network → result (option string))
        (this : @BitcoinObj Network).

Lemma length_Hex_stringify (bytes : list Z) :
  String.length (Js.Hex_stringify bytes) = (2 * length bytes)%nat.
Proof. induction bytes as [|b rest IH]; cbn; [done|]. rewrite IH. lia. Qed.

(** X1.  [getTaprootAddress] and [signPsbt] ask the key provider for the
    same path, as their first call: m/86'/0'/0'/0/0 on the bitcoin network
    and m/86'/1'/0'/0/0 on testnet and regtest alike.  An address returned
    reports that path, index 0, and the derived public key as two
    hexadecimal digits a byte. *)
Theorem derivation_path_shared (hex : string) :
  let derivationPath :=
    match networkType this with
    | bitcoin => "m/86'/0'/0'/0/0"
    | testnet | regtest => "m/86'/1'/0'/0/0"
    end in
  (∃ rest, calls (getTaprootAddress lib btc_getAddress this) =
             EvDeriveKey derivationPath :: rest) ∧
  (∃ rest, calls (signPsbt lib this hex) = EvDeriveKey derivationPath :: rest) ∧
  (∀ a, outcome (getTaprootAddress lib btc_getAddress this) = Ok a →
        ba_derivationPath a = derivationPath ∧ ba_index a = 0%nat ∧
        ∃ derivedKey,
          mnemonic_deriveKey lib derivationPath = Ok derivedKey ∧
          ba_publicKey a = Js.Hex_stringify (publicKey derivedKey) ∧
          String.length (ba_publicKey a) = (2 * length (publicKey derivedKey))%nat ∧
          btc_getAddress "tr" (privateKey derivedKey) (network this) =
            Ok (Some (ba_address a)) ∧
          ba_address a ≠ "").
Proof.
  cbv zeta.
  assert (Hpath : derivationPathOf this 0 =
                  match networkType this with
                  | bitcoin => "m/86'/0'/0'/0/0"
                  | testnet | regtest => "m/86'/1'/0'/0/0"
                  end)
    by (unfold derivationPathOf; now destruct (networkType this)).
  rewrite <- Hpath. split; [|split].
  - unfold getTaprootAddress, bind, call, lift, ret, throw.
    destruct (mnemonic_deriveKey lib _) as [derivedKey|e]; [|cbn; eauto].
    destruct (btc_getAddress _ _ _) as [address|e]; [|cbn; eauto].
    destruct (negb (truthy_str address)); cbn; eauto.
  - unfold signPsbt, bind, call.
    destruct (mnemonic_deriveKey lib _) as [derivedKey|e]; [|cbn; eauto].
    match goal with
    | |- context [let '(r, evs') := ?m in _] => destruct m as [r evs]
    end. cbn. eauto.
  - intros a. unfold getTaprootAddress, bind, call, lift, ret, throw.
    destruct (mnemonic_deriveKey lib _) as [derivedKey|e]; [|done].
    destruct (btc_getAddress _ _ _) as [[address|]|e] eqn:Haddr; [|done..].
    destruct (String.eqb_spec address "") as [->|Hne].
    + done.
    + cbn. rewrite (proj2 (String.eqb_neq _ _) Hne). cbn. intros [= <-]. cbn.
      repeat split. exists derivedKey. repeat split; [|done..].
      apply length_Hex_stringify.
Qed.

(** X2.  A key of 32 bytes or more is cut to exactly 32 bytes, and cutting
    twice changes nothing more; of a shorter key the first byte is dropped
    all the same. *)
Theorem toXOnly_length (pubKey : Buffer) :
  ((32 ≤ length pubKey)%nat →
   length (@toXOnly pubKey) = 32%nat ∧ toXOnly (toXOnly pubKey) = toXOnly pubKey) ∧
  ((length pubKey < 32)%nat → toXOnly pubKey = drop 1 pubKey).
Proof.
  unfold toXOnly. split.
  - intros Hlen. destruct (Nat.eqb_spec (length pubKey) 32) as [Heq|Hne].
    + rewrite Heq. done.
    + assert (Hcut : length (take 32 (drop 1 pubKey)) = 32%nat)
        by (rewrite length_take, length_drop; lia).
      rewrite Hcut. done.
  - intros Hlen. destruct (Nat.eqb_spec (length pubKey) 32) as [Heq|Hne]; [lia|].
    apply take_ge. rewrite length_drop. lia.
Qed.

End TaprootAddress.

(** ** More on the key tweak *)

Section TweakSignerMore.
Import Bitcoin.
Context {Network : Type} (lib : @Libraries Network).

(** X3.  Whatever the signer and the options, a signer that [tweakSigner]
    returns holds a valid private key (in [1, n)), the public key of that
    private key, and the network of the options; and a signer without a
    private key is refused. *)
Theorem tweakSigner_returns_valid_key (signer : Signer) (opts : TweakOpts) :
  (∀ tweaked, tweakSigner lib signer opts = Ok tweaked →
     ∃ k, signer_privateKey tweaked = Some k ∧ isPrivate k = true ∧
          signer_publicKey tweaked = pointFromScalar lib k ∧
          signer_network tweaked = opts_network opts) ∧
  (signer_privateKey signer = None →
   tweakSigner lib signer opts =
     Throw (Error "Private key is required for tweaking signer!")).
Proof.
  unfold tweakSigner. split.
  - intros tweaked.
    destruct (signer_privateKey signer) as [d|]; [|done].
    destruct (if decide _ then _ else _) as [d'|e]; [|done].
    destruct (privateAdd d' _) as [[k|]|e]; [|done..].
    unfold ECPair_fromPrivateKey. destruct (isPrivate k) eqn:Hk; [|done].
    intros [= <-]. exists k. done.
  - now intros ->.
Qed.

(** X4.  Negation and parity: a signer with private key [d] and the odd
    public key [3 :: x] is tweaked to the same signer as one with private
    key [n - d] and the even public key [2 :: x]. *)
Theorem tweakSigner_parity (x : Buffer) (d : Z) (net : Network) (opts : TweakOpts) :
  length x = 32%nat →
  isPrivate d = true →
  tweakSigner lib {| signer_privateKey := Some d;
                     signer_publicKey := 3 :: x;
                     signer_network := net |} opts =
  tweakSigner lib {| signer_privateKey := Some (curve_order - d);
                     signer_publicKey := 2 :: x;
                     signer_network := net |} opts.
Proof.
  intros Hx Hd. apply isPrivate_iff in Hd as Hrange.
  unfold tweakSigner. cbn [signer_privateKey signer_publicKey].
  assert (Hxo : ∀ b, toXOnly (b :: x) = x).
  { intros b. unfold toXOnly. cbn [length]. rewrite Hx. cbn [Nat.eqb].
    cbn [drop]. apply take_ge. lia. }
  rewrite !Hxo.
  destruct (decide ((3 :: x) !! 0%nat = Some 3)) as [_|Hno]; [|done].
  destruct (decide ((2 :: x) !! 0%nat = Some 3)) as [Hyes|_]; [done|].
  unfold privateNegate. rewrite Hd. now rewrite Z.mod_small by lia.
Qed.

End TweakSignerMore.

(** The parity theorem at private key 7. *)
Lemma tweakSigner_parity_witness :
  Bitcoin.tweakSigner Demo.lib
    {| Bitcoin.signer_privateKey := Some 7;
       Bitcoin.signer_publicKey := 3 :: replicate 32 7;
       Bitcoin.signer_network := "bc" |}
    {| Bitcoin.opts_network := "bc"; Bitcoin.tweakHash := None |} =
  Bitcoin.tweakSigner Demo.lib
    {| Bitcoin.signer_privateKey := Some (Bitcoin.curve_order - 7);
       Bitcoin.signer_publicKey := 2 :: replicate 32 7;
       Bitcoin.signer_network := "bc" |}
    {| Bitcoin.opts_network := "bc"; Bitcoin.tweakHash := None |}.
Proof.
  exact (tweakSigner_parity Demo.lib (replicate 32 7) 7 "bc"
           {| Bitcoin.opts_network := "bc"; Bitcoin.tweakHash := None |}
           eq_refl eq_refl).
Defined.

(** ** More on signing *)

Section SignPsbtMore.
Import Bitcoin.
Context {Network : Type} (lib : @Libraries Network) (this : @BitcoinObj Network).

(** The signature calls made are those of the first indices. *)
Lemma signInputs_prefix (indices : list nat) (keyPair : Signer) (psbt : Psbt) :
  ∃ k, calls (signInputs lib indices keyPair psbt) =
         EvSignTaprootInput <$> take k indices.
Proof.
  revert psbt. induction indices as [|index rest IH]; intros psbt.
  - now exists 0%nat.
  - cbn [signInputs]. unfold bind, call.
    destruct (signTaprootInput lib psbt index keyPair) as [psbt'|e].
    + destruct (IH psbt') as [k Hk].
      destruct (signInputs lib rest keyPair psbt') as [r evs]. cbn in *.
      exists (S k). cbn. now rewrite Hk.
    + now exists 1%nat.
Qed.

(** The signatures of two runs of indices are those of the first run
    followed, on the proposal it leaves, by those of the second. *)
Lemma signInputs_app (first second : list nat) (keyPair : Signer) (psbt : Psbt) :
  signInputs lib (first ++ second) keyPair psbt =
    bind (signInputs lib first keyPair psbt)
         (λ psbt, signInputs lib second keyPair psbt).
Proof.
  revert psbt. induction first as [|index first IH]; intros psbt.
  - cbn. now destruct (signInputs lib second keyPair psbt).
  - cbn [app signInputs]. unfold bind at 1 3, call.
    destruct (signTaprootInput lib psbt index keyPair) as [psbt'|e]; [|done].
    rewrite IH. unfold bind.
    destruct (signInputs lib first keyPair psbt') as [[partly|e] evs]; [|done].
    destruct (signInputs lib second keyPair partly) as [r evs'].
    now rewrite app_assoc.
Qed.

(** If the log of [signPsbt] holds the finalization, every input was
    signed, in order, before it; and when it returns a transaction its
    calls were exactly derivation, decoding, one signature per input,
    finalization and extraction. *)
Lemma signPsbt_call_order (hex : string) (psbt : Psbt) :
  Psbt_fromHex lib hex (network this) = Ok psbt →
  let prologue := [EvDeriveKey (derivationPathOf this 0); EvPsbtFromHex hex] in
  let signatures := EvSignTaprootInput <$> seq 0 (length (data_inputs psbt)) in
  (EvFinalizeAllInputs ∈ calls (signPsbt lib this hex) →
   ∃ rest, calls (signPsbt lib this hex) =
             prologue ++ signatures ++ EvFinalizeAllInputs :: rest) ∧
  (EvExtractTransaction ∈ calls (signPsbt lib this hex) →
   calls (signPsbt lib this hex) =
     prologue ++ signatures ++ [EvFinalizeAllInputs; EvExtractTransaction]) ∧
  (is_Ok (outcome (signPsbt lib this hex)) = true →
   calls (signPsbt lib this hex) =
     prologue ++ signatures ++ [EvFinalizeAllInputs; EvExtractTransaction]).
Proof.
  intros Hhex. cbv zeta.
  assert (Hnot : ∀ k ev, is_signature ev = false →
            ev ∉ EvSignTaprootInput <$> take k (seq 0 (length (data_inputs psbt)))).
  { intros k ev Hev Hin. apply list_elem_of_fmap in Hin as (i & -> & _). done. }
  unfold signPsbt, bind, call, lift.
  destruct (mnemonic_deriveKey lib _) as [derivedKey|e].
  2:{ cbn. repeat split; [intros H| intros H |done];
        apply list_elem_of_singleton in H; done. }
  rewrite Hhex.
  destruct (ECPair_fromPrivateKey lib _ _) as [signer|e].
  2:{ cbn. repeat split; [intros H| intros H |done];
        apply elem_of_cons in H as [H|H]; try done;
        apply list_elem_of_singleton in H; done. }
  destruct (tweakSigner lib signer _) as [keyPair|e].
  2:{ cbn. repeat split; [intros H| intros H |done];
        apply elem_of_cons in H as [H|H]; try done;
        apply list_elem_of_singleton in H; done. }
  pose proof (signInputs_calls lib (seq 0 (length (data_inputs psbt))) keyPair psbt)
    as [_ Hok].
  destruct (signInputs_prefix (seq 0 (length (data_inputs psbt))) keyPair psbt)
    as [k Hk].
  destruct (signInputs lib _ keyPair psbt) as [[signed|e] evs]; cbn in Hok, Hk.
  2:{ subst evs. cbn.
      repeat split; [intros H| intros H |done];
        do 2 (apply elem_of_cons in H as [H|H]; [done|]);
        now apply Hnot in H. }
  rewrite (Hok eq_refl). clear Hok Hk.
  destruct (finalizeAllInputs lib signed) as [final|e].
  - cbn. repeat split; eauto.
  - cbn. split; [eauto|]. split; [|done].
    intros H. do 2 (apply elem_of_cons in H as [H|H]; [done|]).
    apply elem_of_app in H as [H|H].
    + apply list_elem_of_fmap in H as (i & Hi & _). done.
    + apply list_elem_of_singleton in H. done.
Qed.

(** With the key derived and tweaked and the proposal decoded, [signPsbt]
    is what the signatures make of it: a failing signature rejects it on
    the spot, and the proposal all signatures leave is finalized, then
    extracted. *)
Lemma signPsbt_signatures (hex : string) (psbt : Psbt) (derivedKey : DerivedKey)
    (signer keyPair : Signer) :
  Psbt_fromHex lib hex (network this) = Ok psbt →
  mnemonic_deriveKey lib (derivationPathOf this 0) = Ok derivedKey →
  ECPair_fromPrivateKey lib (privateKey derivedKey) (network this) = Ok signer →
  tweakSigner lib signer {| opts_network := network this; tweakHash := None |} =
    Ok keyPair →
  let prologue := [EvDeriveKey (derivationPathOf this 0); EvPsbtFromHex hex] in
  let inputs := length (data_inputs psbt) in
  (∀ index partly e,
     (index < inputs)%nat →
     outcome (signInputs lib (seq 0 index) keyPair psbt) = Ok partly →
     signTaprootInput lib partly index keyPair = Throw e →
     signPsbt lib this hex =
       (Throw e, prologue ++ (EvSignTaprootInput <$> seq 0 (S index)))) ∧
  (∀ signed,
     outcome (signInputs lib (seq 0 inputs) keyPair psbt) = Ok signed →
     signPsbt lib this hex =
       match finalizeAllInputs lib signed with
       | Throw e =>
           (Throw e,
            prologue ++ (EvSignTaprootInput <$> seq 0 inputs) ++
            [EvFinalizeAllInputs])
       | Ok final =>
           (extractTransaction_toHex lib final,
            prologue ++ (EvSignTaprootInput <$> seq 0 inputs) ++
            [EvFinalizeAllInputs; EvExtractTransaction])
       end).
Proof.
  intros Hhex Hkey Hsigner Htweak. cbv zeta.
  unfold signPsbt, bind, call, lift. rewrite Hkey, Hhex, Hsigner, Htweak. split.
  - intros index partly e Hindex Hpartly Hfail.
    assert (Hseq : seq 0 (length (data_inputs psbt)) =
                   seq 0 index ++ index :: seq (S index)
                                             (length (data_inputs psbt) - S index)).
    { replace (length (data_inputs psbt))
        with (index + S (length (data_inputs psbt) - S index))%nat at 1 by lia.
      now rewrite seq_app. }
    rewrite Hseq, signInputs_app.
    pose proof (signInputs_calls lib (seq 0 index) keyPair psbt) as [_ Hfirst].
    destruct (signInputs lib (seq 0 index) keyPair psbt) as [r evs].
    cbn in Hpartly, Hfirst. subst r. rewrite (Hfirst eq_refl).
    cbn [signInputs]. unfold bind, call. rewrite Hfail.
    rewrite seq_S, fmap_app. reflexivity.
  - intros signed Hsigned.
    pose proof (signInputs_calls lib (seq 0 (length (data_inputs psbt))) keyPair psbt)
      as [_ Hok].
    destruct (signInputs lib _ keyPair psbt) as [r evs].
    cbn in Hsigned, Hok. subst r. rewrite (Hok eq_refl).
    destruct (finalizeAllInputs lib signed) as [final|e]; [|done].
    now destruct (extractTransaction_toHex lib final).
Qed.

(** Along proposals of which each is the signature, at its index, of the
    one before, [signInputs] returns the last and makes one call for each
    index. *)
Lemma signInputs_chain (keyPair : Signer) (n k : nat) (states : list Psbt) :
  length states = S n →
  (∀ i p p', states !! i = Some p → states !! S i = Some p' →
             signTaprootInput lib p (k + i) keyPair = Ok p') →
  ∃ first final,
    states !! 0%nat = Some first ∧ states !! n = Some final ∧
    signInputs lib (seq k n) keyPair first =
      (Ok final, EvSignTaprootInput <$> seq k n).
Proof.
  revert k states. induction n as [|n IH]; intros k [|p0 states] Hlen Hchain;
    try done.
  - destruct states; [|done]. exists p0, p0. done.
  - destruct states as [|p1 states]; [done|].
    destruct (IH (S k) (p1 :: states)) as (first & final & Hfirst & Hfinal & Hrun).
    + cbn in Hlen |- *. lia.
    + intros i p p' Hp Hp'. replace (S k + i)%nat with (k + S i)%nat by lia.
      now apply (Hchain (S i)).
    + injection Hfirst as <-. exists p0, final. split; [done|]. split; [done|].
      cbn [seq signInputs]. unfold bind, call.
      rewrite <- (Nat.add_0_r k) at 1. rewrite (Hchain 0%nat p0 p1) by done.
      now rewrite Hrun.
Qed.

(** X5.  [signPsbt] finalizes only a fully signed proposal and extracts
    only a finalized one.  With the tweaked key of the wallet it signs the
    inputs in order, each on the proposal the signature before left; a
    signature that fails stops it: it is rejected with the error of that
    signature, the later inputs are not signed, and nothing is finalized
    or extracted.  Only when every signature has succeeded is the proposal
    they leave finalized, and only when that succeeds is the transaction
    extracted.  So if the log holds the finalization, every input was
    signed, in order, before it.  (Below, [states] are the proposals the
    signatures go through, from the decoded one on.) *)
Theorem signPsbt_never_finalizes_partially (hex : string) (psbt : Psbt) :
  Psbt_fromHex lib hex (network this) = Ok psbt →
  let prologue := [EvDeriveKey (derivationPathOf this 0); EvPsbtFromHex hex] in
  let inputs := length (data_inputs psbt) in
  let signatures := EvSignTaprootInput <$> seq 0 inputs in
  (EvFinalizeAllInputs ∈ calls (signPsbt lib this hex) →
   ∃ rest, calls (signPsbt lib this hex) =
             prologue ++ signatures ++ EvFinalizeAllInputs :: rest) ∧
  (EvExtractTransaction ∈ calls (signPsbt lib this hex) →
   calls (signPsbt lib this hex) =
     prologue ++ signatures ++ [EvFinalizeAllInputs; EvExtractTransaction]) ∧
  (is_Ok (outcome (signPsbt lib this hex)) = true →
   calls (signPsbt lib this hex) =
     prologue ++ signatures ++ [EvFinalizeAllInputs; EvExtractTransaction]) ∧
  (∀ derivedKey signer keyPair states,
     mnemonic_deriveKey lib (derivationPathOf this 0) = Ok derivedKey →
     ECPair_fromPrivateKey lib (privateKey derivedKey) (network this) = Ok signer →
     tweakSigner lib signer {| opts_network := network this; tweakHash := None |} =
       Ok keyPair →
     states !! 0%nat = Some psbt →
     (∀ i p p', states !! i = Some p → states !! S i = Some p' →
                signTaprootInput lib p i keyPair = Ok p') →
     (∀ index partly e,
        (index < inputs)%nat →
        length states = S index →
        states !! index = Some partly →
        signTaprootInput lib partly index keyPair = Throw e →
        signPsbt lib this hex =
          (Throw e, prologue ++ (EvSignTaprootInput <$> seq 0 (S index)))) ∧
     (∀ signed,
        length states = S inputs →
        states !! inputs = Some signed →
        signPsbt lib this hex =
          match finalizeAllInputs lib signed with
          | Throw e => (Throw e, prologue ++ signatures ++ [EvFinalizeAllInputs])
          | Ok final =>
              (extractTransaction_toHex lib final,
               prologue ++ signatures ++ [EvFinalizeAllInputs; EvExtractTransaction])
          end)).
Proof.
  intros Hhex. cbv zeta.
  destruct (signPsbt_call_order hex psbt Hhex) as (Hfinal & Hextract & Hok).
  split; [exact Hfinal|]. split; [exact Hextract|]. split; [exact Hok|].
  intros derivedKey signer keyPair states Hkey Hsigner Htweak Hfirst Hchain.
  destruct (signPsbt_signatures hex psbt derivedKey signer keyPair
              Hhex Hkey Hsigner Htweak) as [Hfails Hsigned].
  split.
  - intros index partly e Hindex Hlen Hpartly Hfail.
    destruct (signInputs_chain keyPair index 0 states Hlen Hchain)
      as (first & final & Hfirst' & Hfinal' & Hrun).
    rewrite Hfirst in Hfirst'. injection Hfirst' as <-.
    rewrite Hpartly in Hfinal'. injection Hfinal' as <-.
    apply (Hfails index partly e Hindex); [now rewrite Hrun|exact Hfail].
  - intros signed Hlen Hlast.
    destruct (signInputs_chain keyPair _ 0 states Hlen Hchain)
      as (first & final & Hfirst' & Hfinal' & Hrun).
    rewrite Hfirst in Hfirst'. injection Hfirst' as <-.
    rewrite Hlast in Hfinal'. injection Hfinal' as <-.
    apply Hsigned. now rewrite Hrun.
Qed.

(** X6.  A signature is asked for only with a usable key on a decoded
    proposal: if the log of [signPsbt] holds a signature call, the key
    provider returned a valid private key (in [1, n)), its tweak succeeded,
    and the proposal was decoded and has an input. *)
Theorem signPsbt_signs_only_with_valid_key (hex : string) :
  Exists (λ ev, is_signature ev = true) (calls (signPsbt lib this hex)) →
  ∃ derivedKey psbt signer keyPair,
    mnemonic_deriveKey lib (derivationPathOf this 0) = Ok derivedKey ∧
    isPrivate (privateKey derivedKey) = true ∧
    Psbt_fromHex lib hex (network this) = Ok psbt ∧
    data_inputs psbt ≠ [] ∧
    ECPair_fromPrivateKey lib (privateKey derivedKey) (network this) = Ok signer ∧
    tweakSigner lib signer {| opts_network := network this; tweakHash := None |} =
      Ok keyPair.
Proof.
  unfold signPsbt, bind, call, lift.
  destruct (mnemonic_deriveKey lib _) as [derivedKey|e].
  2:{ cbn. intros H. apply Exists_cons in H as [H|H]; [done|].
      now apply Exists_nil in H. }
  destruct (Psbt_fromHex lib hex (network this)) as [psbt|e].
  2:{ cbn. intros H. do 2 (apply Exists_cons in H as [H|H]; [done|]).
      now apply Exists_nil in H. }
  destruct (ECPair_fromPrivateKey lib _ _) as [signer|e] eqn:Hpair.
  2:{ cbn. intros H. do 2 (apply Exists_cons in H as [H|H]; [done|]).
      now apply Exists_nil in H. }
  destruct (tweakSigner lib signer _) as [keyPair|e] eqn:Htweak.
  2:{ cbn. intros H. do 2 (apply Exists_cons in H as [H|H]; [done|]).
      now apply Exists_nil in H. }
  intros H. exists derivedKey, psbt, signer, keyPair.
  split; [done|]. split.
  { unfold ECPair_fromPrivateKey in Hpair.
    now destruct (isPrivate (privateKey derivedKey)). }
  split; [done|]. split; [|done].
  intros Hnil. rewrite Hnil in H. cbn in H.
  destruct (finalizeAllInputs lib psbt); cbn in H;
    repeat (apply Exists_cons in H as [H|H]; [done|]); now apply Exists_nil in H.
Qed.

End SignPsbtMore.

(** The theorem at a proposal with two inputs, signed in full, and with a
    signer that fails on the second input. *)
Lemma signPsbt_never_finalizes_partially_witness :
  calls (Bitcoin.signPsbt Demo.lib Demo.wallet "02") =
    [Bitcoin.EvDeriveKey "m/86'/0'/0'/0/0"; Bitcoin.EvPsbtFromHex "02";
     Bitcoin.EvSignTaprootInput 0; Bitcoin.EvSignTaprootInput 1;
     Bitcoin.EvFinalizeAllInputs; Bitcoin.EvExtractTransaction] ∧
  Bitcoin.signPsbt DemoMore.lib_unsignable Demo.wallet "02" =
    (Throw (Error "Can not sign for input #1 with the key 02e1e1"),
     [Bitcoin.EvDeriveKey "m/86'/0'/0'/0/0"; Bitcoin.EvPsbtFromHex "02";
      Bitcoin.EvSignTaprootInput 0; Bitcoin.EvSignTaprootInput 1]).
Proof.
  split.
  - exact (proj1 (proj2 (proj2 (signPsbt_never_finalizes_partially
                                  Demo.lib Demo.wallet "02"
                                  Demo.psbt_two_inputs eq_refl)))
             eq_refl).
  - refine (proj1 (proj2 (proj2 (proj2 (signPsbt_never_finalizes_partially
                                          DemoMore.lib_unsignable Demo.wallet "02"
                                          Demo.psbt_two_inputs eq_refl)))
                     _ _ _ [Demo.psbt_two_inputs; Demo.psbt_two_inputs]
                     eq_refl eq_refl eq_refl eq_refl _)
              1%nat Demo.psbt_two_inputs _ _ eq_refl eq_refl eq_refl).
    + intros [|[|i]] p p' Hp Hp'; [|discriminate..].
      injection Hp as <-. injection Hp' as <-. reflexivity.
    + cbn. lia.
Defined.

(** The theorem at a proposal with one input. *)
Lemma signPsbt_signs_only_with_valid_key_witness :
  ∃ derivedKey,
    Bitcoin.mnemonic_deriveKey Demo.lib "m/86'/0'/0'/0/0" = Ok derivedKey ∧
    Bitcoin.isPrivate (Bitcoin.privateKey derivedKey) = true.
Proof.
  destruct (signPsbt_signs_only_with_valid_key Demo.lib Demo.wallet "01")
    as (derivedKey & _ & _ & _ & Hkey & Hvalid & _).
  - apply Exists_cons_tl, Exists_cons_tl, Exists_cons_hd. reflexivity.
  - exists derivedKey. split; [exact Hkey|exact Hvalid].
Defined.

(** ** The input of a preview *)

Section PreviewInputs.
Import Bitcoin BitcoinAddress.
Context {Network : Type} (lib : @Libraries Network) (this : @BitcoinObj Network).

(** X7.  A preview that is returned has as many inputs as the proposal,
    and at most one.  The entry of that input carries the value of its
    [witnessUtxo], and its address is the one [btc.p2tr] gives for the
    internal key when the input has one, else for the public key of its
    first derivation record. *)
Theorem preview_input_resolution (hex : string) (psbt : Psbt) (pv : PsbtPreview) :
  Psbt_fromHex lib hex (network this) = Ok psbt →
  outcome (getPsbtPreview lib this hex) = Ok pv →
  length (inputs pv) = length (data_inputs psbt) ∧
  (length (inputs pv) ≤ 1)%nat ∧
  ∀ input, input ∈ data_inputs psbt →
    ∃ key utxo a,
      data_inputs psbt = [input] ∧ inputs pv = [a] ∧
      spending_key input = Some key ∧
      witnessUtxo input = Some utxo ∧
      amount a = value utxo ∧
      p2tr_address lib (KeyBytes key) (network this) = Ok (Some (address a)) ∧
      address a ≠ "".
Proof.
  intros Hhex. rewrite getPsbtPreview_unfold, Hhex. cbn [outcome fst].
  destruct (data_inputs psbt) as [|input [|second rest]].
  - cbn. destruct (previewOutputs lib this _ _ 0 []); [|done].
    intros [= <-]. cbn. split; [done|]. split; [lia|].
    intros input Hin. now apply elem_of_nil in Hin.
  - unfold previewInputs, spending_key. cbn [Nat.ltb Nat.leb].
    destruct (match tapInternalKey input with Some k => Some k | None => _ end)
      as [key|] eqn:Hkey; [|done].
    destruct (p2tr_address lib (KeyBytes key) (network this))
      as [[addr|]|e] eqn:Haddr; [|done..].
    destruct (String.eqb_spec addr "") as [->|Hne]; [done|].
    cbn. rewrite (proj2 (String.eqb_neq _ _) Hne). cbn.
    destruct (witnessUtxo input) as [utxo|] eqn:Hutxo; [|done].
    destruct (previewOutputs lib this _ _ 0 []); [|done].
    intros [= <-]. cbn. split; [done|]. split; [lia|].
    intros input' Hin. apply list_elem_of_singleton in Hin as ->.
    exists key, utxo. eexists. rewrite Hkey, Hutxo. repeat split; done.
  - destruct (previewInputs_multiple lib this input second rest []) as [e ->]. done.
Qed.

(** X8.  The checks on the first input come in a fixed order, whatever
    else the proposal holds (more inputs, outputs): without an internal key
    and without a derivation record (the list absent or empty) the preview
    fails for want of a public key, even when the [witnessUtxo] is missing
    too; with a key that [btc.p2tr] resolves to an address but without a
    [witnessUtxo], it fails for want of the [witnessUtxo]. *)
Theorem preview_input_errors (hex : string) (psbt : Psbt) (input : PsbtInput)
    (rest : list PsbtInput) :
  Psbt_fromHex lib hex (network this) = Ok psbt →
  data_inputs psbt = input :: rest →
  (spending_key input = None →
   outcome (getPsbtPreview lib this hex) =
     Throw (Error "No pubkey found in input 0")) ∧
  (∀ key address,
     spending_key input = Some key →
     p2tr_address lib (KeyBytes key) (network this) = Ok (Some address) →
     address ≠ "" →
     witnessUtxo input = None →
     outcome (getPsbtPreview lib this hex) =
       Throw (Error "No witnessUtxo in input 0")) ∧
  (spending_key input = None ↔
   tapInternalKey input = None ∧
   (in_tapBip32Derivation input = None ∨ in_tapBip32Derivation input = Some [])).
Proof.
  intros Hhex Hin. rewrite getPsbtPreview_unfold, Hhex, Hin. cbn [outcome fst].
  unfold spending_key. split; [|split].
  - intros Hkey. cbn [previewInputs Nat.ltb Nat.leb]. now rewrite Hkey.
  - intros key address Hkey Haddr Hne Hutxo.
    cbn [previewInputs Nat.ltb Nat.leb]. rewrite Hkey, Haddr.
    cbn. rewrite (proj2 (String.eqb_neq _ _) Hne). cbn. now rewrite Hutxo.
  - destruct (tapInternalKey input); [split; [done|intros [? _]; done]|].
    destruct (in_tapBip32Derivation input) as [[|d ds]|].
    + split; [auto|done].
    + split; [done|]. intros [_ [?|?]]; done.
    + split; [auto|done].
Qed.

End PreviewInputs.

(** The theorem at the proposal with one input. *)
Lemma preview_input_resolution_witness :
  ∃ a, Bitcoin.amount a = 50000 ∧
       Bitcoin.p2tr_address Demo.lib (Bitcoin.KeyBytes Demo.key_a)
         (Bitcoin.network Demo.wallet) = Ok (Some (Bitcoin.address a)).
Proof.
  destruct (preview_input_resolution Demo.lib Demo.wallet "01"
              Demo.psbt_one_input _ eq_refl eq_refl)
    as (_ & _ & Hinput).
  destruct (Hinput Demo.input_a) as (key & utxo & a & _ & _ & Hkey & Hutxo & Ha & Haddr & _).
  - apply elem_of_cons. now left.
  - injection Hkey as <-. injection Hutxo as <-. exists a. split; [exact Ha|exact Haddr].
Defined.

(** The theorem at a proposal whose first input has no key, and at one
    whose input has no [witnessUtxo]. *)
Lemma preview_input_errors_witness :
  outcome (Bitcoin.getPsbtPreview DemoMore.lib Demo.wallet "03") =
    Throw (Error "No pubkey found in input 0") ∧
  outcome (Bitcoin.getPsbtPreview DemoMore.lib Demo.wallet "04") =
    Throw (Error "No witnessUtxo in input 0").
Proof.
  split.
  - exact (proj1 (preview_input_errors DemoMore.lib Demo.wallet "03"
                    DemoMore.psbt_keyless _ _ eq_refl eq_refl) eq_refl).
  - exact (proj1 (proj2 (preview_input_errors DemoMore.lib Demo.wallet "04"
                           DemoMore.psbt_no_utxo _ _ eq_refl eq_refl))
             Demo.key_a _ eq_refl eq_refl ltac:(discriminate) eq_refl).
Defined.

(** ** More on the Commando connector *)

(** The hexadecimal digit of a value below 16 tells the value. *)
Lemma hex_digit_inj (m n : Z) :
  0 <= m < 16 → 0 <= n < 16 → Js.hex_digit m = Js.hex_digit n → m = n.
Proof.
  intros Hm Hn H. apply (f_equal (λ c, Z.of_N (N_of_ascii c))) in H.
  unfold Js.hex_digit in H. rewrite !N_ascii_embedding in H.
  - destruct (m <? 10) eqn:?, (n <? 10) eqn:?; lia.
  - destruct (n <? 10) eqn:?; lia.
  - destruct (m <? 10) eqn:?; lia.
Qed.

Lemma Hex_stringify_inj (a b : list Z) :
  Forall (λ x, 0 <= x < 256) a → Forall (λ x, 0 <= x < 256) b →
  Js.Hex_stringify a = Js.Hex_stringify b → a = b.
Proof.
  intros Ha. revert b. induction Ha as [|x a Hx _ IH]; intros b Hb H.
  - now destruct b.
  - destruct Hb as [|y b Hy Hb]; [done|]. cbn in H.
    injection H as Hhi Hlo Hrest.
    apply hex_digit_inj in Hhi;
      [|split; [apply Z.div_pos|apply Z.div_lt_upper_bound]; lia ..].
    apply hex_digit_inj in Hlo; [|apply Z.mod_pos_bound; lia ..].
    f_equal; [|now apply IH].
    rewrite (Z.div_mod x 16), (Z.div_mod y 16) by lia. now rewrite Hhi, Hlo.
Qed.

Lemma UTF8_parse_range (s : string) : Forall (λ x, 0 <= x < 256) (Js.UTF8_parse s).
Proof.
  unfold Js.UTF8_parse. apply Forall_fmap, Forall_forall. intros c _. cbn.
  pose proof (N_ascii_bounded c). lia.
Qed.

Lemma UTF8_parse_inj (s t : string) : Js.UTF8_parse s = Js.UTF8_parse t → s = t.
Proof.
  unfold Js.UTF8_parse. intros H.
  rewrite <- (string_of_list_ascii_of_string s), <- (string_of_list_ascii_of_string t).
  f_equal. revert H. generalize (list_ascii_of_string s), (list_ascii_of_string t).
  intros l. induction l as [|c l IH]; intros [|d l'] H; try done.
  cbn in H. injection H as Hc Hl. f_equal; [|now apply IH].
  apply N2Z.inj in Hc. rewrite <- (ascii_N_embedding c), <- (ascii_N_embedding d).
  now rewrite Hc.
Qed.

Section CommandoMore.
Import Connector Commando CommandoOutcome CommandoOptions.
Context (ln : LnMessage) (this : CommandoObj).

(** X9.  Failure policy.  Each RPC operation other than [connectPeer] is
    rejected exactly when the transport rejects its one request, and then
    with the transport's error, unchanged; [connectPeer] is never
    rejected. *)
Theorem commando_failure_policy (op : operation) :
  ∃ request,
    requests ln this op = [request] ∧
    operation_failure ln this op =
      match op with
      | ConnectPeer _ => None
      | _ => transport_failure ln op request
      end.
Proof.
  destruct op; unfold requests, operation_failure, transport_failure;
    [ unfold connectPeer, try_catch | unfold getInvoices | unfold getInfo
    | unfold getBalance | unfold sendPayment | unfold keysend
    | unfold checkPayment | unfold signMessage | unfold makeInvoice ];
    unfold commando, bind, call, ret, throw;
    match goal with
    | |- context [match ?f ln ?request with _ => _ end] =>
        exists request; destruct (f ln request) as [answer|e]
    end; cbn; try done.
  destruct (li_invoices answer) as [|invoice [|second rest]]; done.
Qed.

(** X10.  [connectPeer] resolves whatever the transport does: to
    [{data: true}] when the transport answers, whatever the answer, and to
    an [Error] value when the transport rejects the request; the message of
    that value is the text of what was thrown: the name of the error alone
    when its message is empty, else the name, ": " and the message. *)
Theorem connectPeer_never_rejects (args : ConnectPeerArgs) :
  let request :=
    {| method := "connect";
       params := [("id", PString (peer_pubkey args));
                  ("host", PString (peer_host args))];
       req_rune := rune (config this) |} in
  calls (connectPeer ln this args) = [EvCommando request] ∧
  outcome (connectPeer ln this args) =
    Ok (match commando_any ln request with
        | Ok _ => inl {| data := true |}
        | Throw (Error "") => inr (Error "Error")
        | Throw (Error msg) => inr (Error ("Error: " +:+ msg))
        | Throw (TypeError "") => inr (Error "TypeError")
        | Throw (TypeError msg) => inr (Error ("TypeError: " +:+ msg))
        end).
Proof.
  cbv zeta. unfold connectPeer, try_catch, commando, bind, call, ret.
  destruct (commando_any ln _) as [answer|[[|c msg]|[|c msg]]]; done.
Qed.

(** X11.  [getBalance] sends one [listfunds] request.  The balance is the
    sum of [channel_sat] over every channel the node lists, whatever its
    state and whether or not its peer is connected, added up from 0 in the
    order of the list, each addition that of binary64; it is 0 when no
    channel is listed, and a rejection of the request reaches the
    caller. *)
Theorem getBalance_sums_all_channels :
  let request :=
    {| method := "listfunds"; params := []; req_rune := rune (config this) |} in
  calls (getBalance ln this) = [EvCommando request] ∧
  match commando_ListFunds ln request with
  | Throw e => outcome (getBalance ln this) = Throw e
  | Ok answer =>
      outcome (getBalance ln this) =
        Ok {| data :=
                {| balance := fold_left Js.add (channel_sat <$> channels answer)
                                (Js.of_Z 0) |} |} ∧
      (channels answer = [] →
       outcome (getBalance ln this) =
         Ok {| data := {| balance := Js.of_Z 0 |} |})
  end.
Proof.
  cbv zeta. unfold getBalance, commando, bind, call, ret.
  destruct (commando_ListFunds ln _) as [answer|e]; [|done].
  split; [reflexivity|]. cbn [outcome fst]. split; [|now intros ->].
  do 3 f_equal. generalize (Js.of_Z 0).
  induction (channels answer) as [|channel rest IH]; intros acc; [done|].
  cbn [fmap list_fmap fold_left]. apply IH.
Qed.

Lemma keysend_records_inj (records records' : list (string * string)) :
  (λ kv, (fst kv, Js.Hex_stringify (Js.UTF8_parse (snd kv)))) <$> records =
  (λ kv, (fst kv, Js.Hex_stringify (Js.UTF8_parse (snd kv)))) <$> records' →
  records = records'.
Proof.
  revert records'. induction records as [|[k v] records IH];
    intros [|[k' v'] records'] H; try done.
  cbn in H. injection H as -> Hv Hrest. f_equal; [|now apply IH].
  f_equal. apply UTF8_parse_inj, Hex_stringify_inj; auto using UTF8_parse_range.
Qed.

(** X12.  The keysend request tells the destination and the custom
    records, keys and values, in their order (the hexadecimal encoding of
    the values is injective): two calls that send the same request had the
    same destination and the same custom records.  It does not tell the
    amount, only its product with 1000, and binary64 gives two different
    amounts the same product. *)
Theorem keysend_request_inj (args args' : KeysendArgs) :
  requests ln this (Keysend args) = requests ln this (Keysend args') →
  ks_pubkey args = ks_pubkey args' ∧
  customRecords args = customRecords args' ∧
  Js.mul (ks_amount args) (Js.of_Z 1000) = Js.mul (ks_amount args') (Js.of_Z 1000).
Proof.
  unfold requests, keysend, commando, bind, call, ret.
  destruct (commando_PayInvoice ln _), (commando_PayInvoice ln _); cbn;
    intros [= Hpub Hamount Hrecords]; repeat split; try done;
    now apply keysend_records_inj.
Qed.

(** X13.  The invoice request carries the amount in millisatoshis, a
    number: an amount given as a string of decimal digits is converted to
    the number nearest to what is written (the empty string to 0) and
    multiplied by 1000, as an amount given as that number is, and the label
    is the identifier drawn for the call. *)
Theorem commando_makeInvoice_amount (ds : list nat) (memo : string) :
  Js.all_digits ds →
  requests ln this
    (MakeInvoice {| mi_amount := AmountString (Js.digits_string ds);
                    Connector.memo := memo |}) =
    [ {| method := "invoice";
         params := [("amount_msat",
                     PNumber (Js.mul (Js.of_Z (Js.digits_value ds)) (Js.of_Z 1000)));
                    ("label", PString (uuidv4 ln));
                    ("description", PString memo)];
         req_rune := rune (config this) |} ] ∧
  requests ln this
    (MakeInvoice {| mi_amount := AmountNumber (Js.of_Z (Js.digits_value ds));
                    Connector.memo := memo |}) =
  requests ln this
    (MakeInvoice {| mi_amount := AmountString (Js.digits_string ds);
                    Connector.memo := memo |}).
Proof.
  intros Hds. unfold requests, makeInvoice, commando, bind, call, ret.
  cbn [mi_amount Connector.memo amount_operand].
  rewrite (StringToNumber_digits ds Hds).
  split; now destruct (commando_MakeInvoice ln _).
Qed.


End CommandoMore.

(** The balance of a node with channels of 1500 and 2500, the second
    awaiting lock-in with its peer away; and a sum that binary64 rounds. *)
Example getBalance_example :
  outcome (Commando.getBalance DemoFunds.ln_funded DemoCommando.node) =
    Ok {| Connector.data := {| Connector.balance := Js.of_Z 4000 |} |} ∧
  fold_left Js.add [Js.of_Z 9007199254740992; Js.of_Z 1] (Js.of_Z 0) =
    Js.of_Z 9007199254740992.
Proof. split; vm_compute; reflexivity. Qed.

(** The theorem at two calls that differ in the amount and send the same
    request. *)
Lemma keysend_request_inj_witness :
  Js.of_Z 5194701549436864 ≠ Js.of_Z 5194701549436865 ∧
  Connector.customRecords
    {| Connector.ks_pubkey := "02ab";
       Connector.ks_amount := Js.of_Z 5194701549436864;
       Connector.customRecords := [("7629169", "hello")] |} =
  Connector.customRecords
    {| Connector.ks_pubkey := "02ab";
       Connector.ks_amount := Js.of_Z 5194701549436865;
       Connector.customRecords := [("7629169", "hello")] |} ∧
  Js.mul (Js.of_Z 5194701549436864) (Js.of_Z 1000) =
    Js.mul (Js.of_Z 5194701549436865) (Js.of_Z 1000).
Proof.
  split; [vm_compute; discriminate|].
  exact (proj2 (keysend_request_inj DemoCommando.ln_up DemoCommando.node
                  {| Connector.ks_pubkey := "02ab";
                     Connector.ks_amount := Js.of_Z 5194701549436864;
                     Connector.customRecords := [("7629169", "hello")] |}
                  {| Connector.ks_pubkey := "02ab";
                     Connector.ks_amount := Js.of_Z 5194701549436865;
                     Connector.customRecords := [("7629169", "hello")] |}
                  ltac:(vm_compute; reflexivity))).
Defined.

(** The theorem at the amount "21". *)
Lemma commando_makeInvoice_amount_witness :
  Commando.requests DemoCommando.ln_up DemoCommando.node
    (Commando.MakeInvoice {| Connector.mi_amount := Connector.AmountString "21";
                             Connector.memo := "coffee" |}) =
    [ {| Commando.method := "invoice";
         Commando.params :=
           [("amount_msat", Commando.PNumber (Js.of_Z 21000));
            ("label", Commando.PString "9b2f6c1e-0000-4000-8000-000000000001");
            ("description", Commando.PString "coffee")];
         Commando.req_rune := "rune-7f3a" |} ].
Proof.
  refine (proj1 (commando_makeInvoice_amount DemoCommando.ln_up DemoCommando.node
                   [2; 1]%nat "coffee" _)).
  unfold Js.all_digits. repeat (constructor; [lia|]). constructor.
Defined.

(** ** More on the Nostr Wallet Connect connector *)

Lemma parseFloat_digits (ds : list nat) :
  Js.all_digits ds → ds ≠ [] →
  Js.parseFloat (Js.digits_string ds) = Js.of_Z (Js.digits_value ds).
Proof.
  intros H Hne. unfold Js.parseFloat.
  rewrite list_ascii_of_digits_string, (trim_start_digits ds H).
  now rewrite (read_decimal_digits ds H Hne).
Qed.

(** Rounding a non-negative integer never gives [NaN], and gives no zero
    but [+0]. *)
Lemma shr_1_nonneg (mrs : shr_record) : 0 <= shr_m mrs → 0 <= shr_m (shr_1 mrs).
Proof.
  destruct mrs as [m r s]. cbn. intros H.
  destruct m as [|[p|p|]|p]; cbn; lia.
Qed.

Lemma iter_shr_1_nonneg (p : positive) (mrs : shr_record) :
  0 <= shr_m mrs → 0 <= shr_m (SpecFloat.iter_pos shr_1 p mrs).
Proof.
  revert mrs. induction p as [p IH|p IH|]; intros mrs H; cbn.
  - apply IH, IH, shr_1_nonneg, H.
  - apply IH, IH, H.
  - apply shr_1_nonneg, H.
Qed.

Lemma shr_fexp_nonneg (m e : Z) (l : location) :
  0 <= m → 0 <= shr_m (fst (shr_fexp Js.prec Js.emax m e l)).
Proof.
  intros H. unfold shr_fexp, shr.
  assert (Hrec : 0 <= shr_m (shr_record_of_loc m l))
    by (destruct l as [|[]]; exact H).
  destruct (fexp Js.prec Js.emax (Zdigits2 m + e) - e); cbn [fst];
    [exact Hrec| |exact Hrec].
  now apply iter_shr_1_nonneg.
Qed.

Lemma round_nearest_even_nonneg (m : Z) (l : location) :
  0 <= m → 0 <= round_nearest_even m l.
Proof.
  intros H. destruct l as [|[]]; cbn; [lia| |lia|lia].
  destruct (Z.even m); lia.
Qed.

Lemma of_Z_falsy (z : Z) :
  0 <= z → Js.truthy (Js.of_Z z) = false → Js.of_Z z = Js.of_Z 0.
Proof.
  intros Hz. destruct z as [|p|p]; [done| |lia].
  unfold Js.of_Z, binary_normalize, binary_round.
  destruct (shl_align p 0 _) as [mz ez]. unfold binary_round_aux.
  pose proof (shr_fexp_nonneg (Z.pos mz) ez loc_Exact ltac:(lia)) as H1.
  destruct (shr_fexp Js.prec Js.emax (Z.pos mz) ez loc_Exact) as [mrs' e'].
  cbn [fst] in H1.
  pose proof (shr_fexp_nonneg _ e' loc_Exact
                (round_nearest_even_nonneg _ (loc_of_shr_record mrs') H1)) as H2.
  destruct (shr_fexp Js.prec Js.emax _ e' loc_Exact) as [mrs'' e''].
  cbn [fst] in H2.
  destruct (shr_m mrs'') as [|q|q]; [done| |lia].
  now destruct (e'' <=? Js.emax - Js.prec).
Qed.

Lemma digits_value_nonneg (ds : list nat) : 0 <= Js.digits_value ds.
Proof.
  unfold Js.digits_value.
  assert (H : ∀ acc, 0 <= acc →
            0 <= fold_left (λ acc d, 10 * acc + Z.of_nat d) ds acc).
  { induction ds as [|d ds IH]; intros acc Hacc; [exact Hacc|].
    cbn [fold_left]. apply IH. lia. }
  now apply H.
Qed.

Section NWCMore.
Import Connector NWC.
Context (nwc : NWCClient) (this : NWCConnector).

(** X15.  The amount of the invoice asked of the wallet service is a
    number: an amount given as a string of decimal digits is converted to
    the number nearest to what is written, and a string that [parseFloat]
    does not read as a number (the empty string, for one) asks for an
    invoice of 0 instead of failing; an amount given as a number is asked
    for as it is. *)
Theorem nwc_makeInvoice_amount (memo : string) :
  (∀ ds, Js.all_digits ds →
     head (calls (makeInvoice nwc this
                    {| mi_amount := AmountString (Js.digits_string ds);
                       Connector.memo := memo |})) =
       Some (EvMakeInvoice (Js.of_Z (Js.digits_value ds)) memo)) ∧
  (∀ s, Js.parseFloat s = Js.NaN →
     head (calls (makeInvoice nwc this
                    {| mi_amount := AmountString s; Connector.memo := memo |})) =
       Some (EvMakeInvoice (Js.of_Z 0) memo)) ∧
  head (calls (makeInvoice nwc this
                 {| mi_amount := AmountString ""; Connector.memo := memo |})) =
    Some (EvMakeInvoice (Js.of_Z 0) memo) ∧
  (∀ n,
     head (calls (makeInvoice nwc this
                    {| mi_amount := AmountNumber n; Connector.memo := memo |})) =
       Some (EvMakeInvoice n memo)).
Proof.
  assert (Hhead : ∀ args amount,
    invoice_amount (mi_amount args) = amount →
    head (calls (makeInvoice nwc this args)) =
      Some (EvMakeInvoice amount (Connector.memo args))).
  { intros args amount <-. unfold makeInvoice, bind, call, ret, throw.
    destruct (nwc_makeInvoice nwc _ _) as [inv|e]; [|done].
    destruct (negb (truthy_str (tx_payment_hash inv))); [|done].
    destruct (lightningPayReq_decode nwc _) as [dec|e]; [|done].
    now destruct (negb (truthy_str (find_payment_hash dec))). }
  split; [|split; [|split]].
  - intros ds Hds. apply (Hhead {| mi_amount := _; Connector.memo := memo |}).
    cbn. destruct ds as [|d ds]; [reflexivity|].
    rewrite (parseFloat_digits (d :: ds) Hds) by done.
    destruct (Js.truthy (Js.of_Z (Js.digits_value (d :: ds)))) eqn:Htruthy; [done|].
    symmetry. apply of_Z_falsy; [apply digits_value_nonneg|exact Htruthy].
  - intros s Hs. apply (Hhead {| mi_amount := _; Connector.memo := memo |}).
    cbn. now rewrite Hs.
  - now apply (Hhead {| mi_amount := _; Connector.memo := memo |}).
  - intros n. now apply (Hhead {| mi_amount := _; Connector.memo := memo |}).
Qed.

(** X16.  The keysend request carries the custom records in their order,
    each key read as a decimal number and each value as it is (it is not
    hex-encoded, as the Commando connector does), together with the
    destination and the amount as given. *)
Theorem nwc_keysend_records (pubkey : string) (amount : Js.number)
    (records : list (list nat * string)) :
  Forall (λ r, Js.all_digits (fst r) ∧ fst r ≠ []) records →
  calls (keysend nwc this
           {| ks_pubkey := pubkey; ks_amount := amount;
              customRecords := (λ r, (Js.digits_string (fst r), snd r)) <$> records |}) =
    [EvPayKeysend
       {| pk_pubkey := pubkey; pk_amount := amount;
          tlv_records :=
            (λ r, {| tlv_type := Js.of_Z (Js.digits_value (fst r));
                     tlv_value := snd r |}) <$> records |}].
Proof.
  intros Hrecords. unfold keysend, bind, call, ret. cbn [customRecords ks_pubkey ks_amount].
  assert (Hconv : convertCustomRecords
                    ((λ r, (Js.digits_string (fst r), snd r)) <$> records) =
                  (λ r, {| tlv_type := Js.of_Z (Js.digits_value (fst r));
                           tlv_value := snd r |}) <$> records).
  { unfold convertCustomRecords.
    induction Hrecords as [|[ds v] records [Hds Hne] _ IH]; [done|].
    cbn [fmap list_fmap fst snd] in *.
    now rewrite IH, (parseInt10_digits ds Hds Hne). }
  rewrite Hconv. now destruct (nwc_payKeysend nwc _).
Qed.

(** X17.  Failures of [sendPayment]: an exception of the decoder reaches
    the caller and no pay request is sent; a rejection of the pay request
    reaches the caller unchanged; in no case is more than one pay request
    sent.  When the payment is made, the fees reported are 0, and so is the
    amount of a request that states none. *)
Theorem nwc_sendPayment_failures (args : SendPaymentArgs) :
  (∀ e, lightningPayReq_decode nwc (sp_paymentRequest args) = Throw e →
        sendPayment nwc this args =
          (Throw e, [EvDecode (sp_paymentRequest args)])) ∧
  (∀ decoded e,
     lightningPayReq_decode nwc (sp_paymentRequest args) = Ok decoded →
     truthy_str (find_payment_hash decoded) = true →
     nwc_payInvoice nwc (sp_paymentRequest args) = Throw e →
     sendPayment nwc this args =
       (Throw e, [EvDecode (sp_paymentRequest args);
                  EvPayInvoice (sp_paymentRequest args)])) ∧
  (length (List.filter is_pay (calls (sendPayment nwc this args))) ≤ 1)%nat ∧
  (∀ d, outcome (sendPayment nwc this args) = Ok {| data := d |} →
        total_fees (route d) = Js.of_Z 0 ∧
        ∀ decoded,
          lightningPayReq_decode nwc (sp_paymentRequest args) = Ok decoded →
          millisatoshis decoded = None → satoshis decoded = None →
          total_amt (route d) = Js.of_Z 0).
Proof.
  unfold sendPayment, bind, call, ret, throw.
  destruct (lightningPayReq_decode nwc _) as [decoded|e0].
  2:{ split; [now intros e [= <-]|]. split; [done|]. split; [cbn; lia|done]. }
  split; [done|].
  destruct (truthy_str (find_payment_hash decoded)) eqn:Hhash; cbn [negb].
  2:{ split; [intros d e [= <-] Hd; congruence|]. split; [cbn; lia|done]. }
  destruct (nwc_payInvoice nwc _) as [response|e1].
  - split; [done|]. split; [cbn; lia|].
    intros d [= <-]. cbn. split; [done|].
    intros decoded' [= <-] Hms Hsats. now rewrite Hms, Hsats.
  - split; [|split; [cbn; lia|done]].
    intros decoded' e [= <-] _ [= <-]. done.
Qed.

(** X18.  Failures of [makeInvoice] and [keysend]: a rejection by the
    wallet service reaches the caller unchanged, and [makeInvoice] then
    does not decode anything; an exception of the decoder, when
    [makeInvoice] needs it, reaches the caller too. *)
Theorem nwc_failures_propagate :
  (∀ args amount,
     head (calls (makeInvoice nwc this args)) =
       Some (EvMakeInvoice amount (memo args)) →
     match nwc_makeInvoice nwc amount (memo args) with
     | Throw e =>
         makeInvoice nwc this args = (Throw e, [EvMakeInvoice amount (memo args)])
     | Ok invoice =>
         truthy_str (tx_payment_hash invoice) = false →
         ∀ e, lightningPayReq_decode nwc (tx_invoice invoice) = Throw e →
              makeInvoice nwc this args =
                (Throw e, [EvMakeInvoice amount (memo args);
                           EvDecode (tx_invoice invoice)])
     end) ∧
  (∀ args request,
     calls (keysend nwc this args) = [EvPayKeysend request] →
     ∀ e, nwc_payKeysend nwc request = Throw e →
          outcome (keysend nwc this args) = Throw e).
Proof.
  split.
  - intros args amount. unfold makeInvoice, bind, call, ret, throw.
    set (requested := invoice_amount (mi_amount args)).
    intros Hhead.
    assert (requested = amount) as <-.
    { destruct (nwc_makeInvoice nwc requested (memo args)) as [invoice|e];
        [|cbn in Hhead; now injection Hhead].
      destruct (negb (truthy_str (tx_payment_hash invoice)));
        [|cbn in Hhead; now injection Hhead].
      destruct (lightningPayReq_decode nwc _) as [dec|e];
        [destruct (negb (truthy_str (find_payment_hash dec)))|];
        cbn in Hhead; now injection Hhead. }
    clear Hhead.
    destruct (nwc_makeInvoice nwc requested (memo args)) as [invoice|e];
      [|reflexivity].
    intros Hnone e Hdec. now rewrite Hnone, Hdec.
  - intros args request. unfold keysend, bind, call, ret.
    destruct (nwc_payKeysend nwc _) as [data|e0] eqn:Hpay; cbn;
      intros [= <-] e He; rewrite He in Hpay; [done|now injection Hpay as ->].
Qed.

End NWCMore.

(** ** URL matcher and battery of geyser.fund *)


Section GeyserRegex.
Import Geyser.

Lemma lang_Cat_iff (r s : regex) (l : list ascii) :
  lang (Cat r s) l ↔ ∃ u v, l = u ++ v ∧ lang r u ∧ lang s v.
Proof.
  split.
  - inversion 1; subst. eauto.
  - intros (u & v & -> & Hu & Hv). now constructor.
Qed.

Lemma lang_Alt_iff (r s : regex) (l : list ascii) :
  lang (Alt r s) l ↔ lang r l ∨ lang s l.
Proof.
  split.
  - inversion 1; subst; auto.
  - intros [H|H]; [now apply lang_Alt_l|now apply lang_Alt_r].
Qed.

Lemma nullable_lang (r : regex) : nullable r = true ↔ lang r [].
Proof.
  induction r as [| |c| |c|r IHr s IHs|r IHr s IHs|r IHr]; cbn.
  - split; [done|inversion 1].
  - split; [constructor|done].
  - split; [done|inversion 1].
  - split; [done|inversion 1].
  - split; [done|inversion 1].
  - rewrite andb_true_iff, IHr, IHs, lang_Cat_iff. split.
    + intros [Hr Hs]. now exists [], [].
    + intros (u & v & Huv & Hu & Hv). symmetry in Huv.
      apply app_eq_nil in Huv as [-> ->]. done.
  - now rewrite orb_true_iff, IHr, IHs, lang_Alt_iff.
  - split; [constructor|done].
Qed.

(** A non-empty match of a star starts with a non-empty match of its
    body. *)
Lemma lang_Star_cons_inv (r : regex) (c : ascii) (l : list ascii) :
  lang (Star r) (c :: l) →
  ∃ u v, l = u ++ v ∧ lang r (c :: u) ∧ lang (Star r) v.
Proof.
  intros H. remember (Star r) as sr eqn:Hsr. remember (c :: l) as cl eqn:Hcl.
  revert l Hcl.
  induction H as [| | | | | | | |r' u v Hu _ Hv IHv]; intros l Hcl; try done.
  injection Hsr as ->. destruct u as [|d u].
  - cbn in Hcl. now apply IHv.
  - cbn in Hcl. injection Hcl as -> <-. eauto.
Qed.

Lemma deriv_lang (c : ascii) (r : regex) (l : list ascii) :
  lang (deriv c r) l ↔ lang r (c :: l).
Proof.
  revert l. induction r as [| |d| |d|r IHr s IHs|r IHr s IHs|r IHr]; intros l; cbn.
  - split; inversion 1.
  - split; inversion 1.
  - destruct (Ascii.eqb_spec c d) as [->|Hne].
    + split; inversion 1; subst; constructor.
    + split; inversion 1; subst; done.
  - destruct (line_terminator c) eqn:Hc.
    + split; inversion 1; subst; congruence.
    + split; inversion 1; subst; now constructor.
  - destruct (Ascii.eqb_spec c d) as [->|Hne].
    + split; inversion 1; subst; done.
    + split; inversion 1; subst; now constructor.
  - assert (Hcat : lang (Cat (deriv c r) s) l ↔
                   ∃ u v, l = u ++ v ∧ lang r (c :: u) ∧ lang s v).
    { rewrite lang_Cat_iff. split; intros (u & v & -> & Hu & Hv);
        exists u, v; (split; [done|]); (split; [|done]); now apply IHr. }
    destruct (nullable r) eqn:Hnull.
    + rewrite lang_Alt_iff, Hcat, IHs, lang_Cat_iff. split.
      * intros [(u & v & -> & Hu & Hv)|Hs].
        -- exists (c :: u), v. done.
        -- exists [], (c :: l). split; [done|]. split; [|done].
           now apply nullable_lang.
      * intros ([|d u] & v & Huv & Hu & Hv); cbn in Huv.
        -- right. now subst.
        -- injection Huv as <- ->. left. eauto.
    + rewrite Hcat, lang_Cat_iff. split.
      * intros (u & v & -> & Hu & Hv). exists (c :: u), v. done.
      * intros ([|d u] & v & Huv & Hu & Hv); cbn in Huv.
        -- apply nullable_lang in Hu. congruence.
        -- injection Huv as <- ->. eauto.
  - now rewrite !lang_Alt_iff, IHr, IHs.
  - rewrite lang_Cat_iff. split.
    + intros (u & v & -> & Hu & Hv). apply IHr in Hu.
      now apply (lang_Star_cons r (c :: u) v).
    + intros H. apply lang_Star_cons_inv in H as (u & v & -> & Hu & Hv).
      exists u, v. split; [done|]. split; [|done]. now apply IHr.
Qed.

(** [test] decides the language. *)
Lemma test_lang (r : regex) (s : string) :
  test r s = true ↔ lang r (list_ascii_of_string s).
Proof.
  unfold test. generalize (list_ascii_of_string s). intros l. revert r.
  induction l as [|c l IH]; intros r; cbn.
  - apply nullable_lang.
  - now rewrite IH, deriv_lang.
Qed.

Lemma lang_literal (s : string) (l : list ascii) :
  lang (literal s) l ↔ l = list_ascii_of_string s.
Proof.
  revert l. induction s as [|c s IH]; intros l; cbn.
  - split; [now inversion 1|intros ->; constructor].
  - rewrite lang_Cat_iff. split.
    + intros (u & v & -> & Hu & Hv). inversion Hu; subst. apply IH in Hv. now subst.
    + intros ->. exists [c], (list_ascii_of_string s). split; [done|].
      split; [constructor|now apply IH].
Qed.

Lemma lang_Star_NotChr (c : ascii) (l : list ascii) :
  lang (Star (NotChr c)) l ↔ c ∉ l.
Proof.
  split.
  - intros H. remember (Star (NotChr c)) as sr eqn:Hsr.
    induction H as [| | | | | | | |r u v Hu _ Hv IHv]; try done.
    + apply not_elem_of_nil.
    + injection Hsr as ->. inversion Hu; subst. cbn.
      apply not_elem_of_cons. split; [done|now apply IHv].
  - induction l as [|d l IH]; intros H; [constructor|].
    apply not_elem_of_cons in H as [Hd Hl].
    apply (lang_Star_cons (NotChr c) [d] l); [now constructor|now apply IH].
Qed.

Lemma lang_plus_NotChr (c : ascii) (l : list ascii) :
  lang (plus (NotChr c)) l ↔ l ≠ [] ∧ c ∉ l.
Proof.
  unfold plus. rewrite lang_Cat_iff. split.
  - intros (u & v & -> & Hu & Hv). inversion Hu; subst. cbn. split; [done|].
    apply not_elem_of_cons. split; [done|now apply lang_Star_NotChr].
  - intros [Hne Hl]. destruct l as [|d l]; [done|].
    apply not_elem_of_cons in Hl as [Hd Hl].
    exists [d], l. split; [done|]. split; [now constructor|now apply lang_Star_NotChr].
Qed.

Lemma list_ascii_of_string_app (s t : string) :
  list_ascii_of_string (s +:+ t) = list_ascii_of_string s ++ list_ascii_of_string t.
Proof. induction s as [|c s IH]; simpl; [done|]. now rewrite IH. Qed.

Lemma lang_urlMatcher (l : list ascii) :
  lang urlMatcher l ↔
  ∃ c project rest,
    l = list_ascii_of_string "https://geyser" ++
        c :: (list_ascii_of_string "fund/" ++ project ++ rest) ∧
    line_terminator c = false ∧ project ≠ [] ∧ ("/"%char ∉ project) ∧
    (rest = [] ∨ ∃ name, rest = "/"%char :: name ∧ name ≠ [] ∧ ("/"%char ∉ name)).
Proof.
  unfold urlMatcher, optional. rewrite lang_Cat_iff. split.
  - intros (u1 & v1 & -> & Hu1 & Hv1). apply lang_literal in Hu1 as ->.
    apply lang_Cat_iff in Hv1 as (u2 & v2 & -> & Hu2 & Hv2).
    inversion Hu2 as [| |c Hc| | | | | |]; subst.
    apply lang_Cat_iff in Hv2 as (u3 & v3 & -> & Hu3 & Hv3).
    apply lang_literal in Hu3 as ->.
    apply lang_Cat_iff in Hv3 as (project & rest & -> & Hp & Hr).
    apply lang_plus_NotChr in Hp as [Hpne Hps].
    exists c, project, rest. split; [done|]. repeat split; [done..|].
    apply lang_Alt_iff in Hr as [Hr|Hr].
    + right. apply lang_Cat_iff in Hr as (u & name & -> & Hu & Hn).
      inversion Hu; subst. apply lang_plus_NotChr in Hn as [Hne Hns].
      exists name. done.
    + left. now inversion Hr.
  - intros (c & project & rest & -> & Hc & Hpne & Hps & Hrest).
    eexists _, _. split; [reflexivity|]. split; [now apply lang_literal|].
    apply (lang_Cat Dot _ [c]); [now constructor|].
    apply lang_Cat; [now apply lang_literal|].
    apply lang_Cat; [now apply lang_plus_NotChr|].
    destruct Hrest as [->|(name & -> & Hne & Hns)].
    + apply lang_Alt_r. constructor.
    + apply lang_Alt_l. apply (lang_Cat (Chr "/") _ ["/"%char]); [constructor|].
      now apply lang_plus_NotChr.
Qed.

(** X21.  [urlMatcher] matches exactly the URLs made of "https://geyser",
    one character that is not a line terminator, "fund/", a non-empty
    project segment without "/", and optionally "/" with a non-empty name
    segment without "/".  The character between "geyser" and "fund" need
    not be a dot, a URL with a trailing "/" or a third segment does not
    match, and a URL with the project segment alone does. *)
Theorem urlMatcher_matches (url : string) :
  test urlMatcher url = true ↔
  ∃ c project rest,
    url = "https://geyser" +:+ String c ("fund/" +:+ project +:+ rest) ∧
    line_terminator c = false ∧ project ≠ "" ∧ no_slash project ∧
    (rest = "" ∨ ∃ name, rest = String "/" name ∧ name ≠ "" ∧ no_slash name).
Proof.
  rewrite test_lang, lang_urlMatcher. unfold no_slash. split.
  - intros (c & project & rest & Hurl & Hc & Hpne & Hps & Hrest).
    exists c, (string_of_list_ascii project), (string_of_list_ascii rest).
    rewrite !list_ascii_of_string_of_list_ascii.
    split; [|split; [done|split; [now destruct project|split; [done|]]]].
    + rewrite <- (string_of_list_ascii_of_string url), Hurl.
      rewrite <- (string_of_list_ascii_of_string
                    ("https://geyser" +:+
                     String c ("fund/" +:+ string_of_list_ascii project +:+
                               string_of_list_ascii rest))).
      f_equal. rewrite list_ascii_of_string_app. cbn [list_ascii_of_string].
      now rewrite !list_ascii_of_string_app, !list_ascii_of_string_of_list_ascii.
    + destruct Hrest as [->|(name & -> & Hne & Hns)]; [now left|right].
      exists (string_of_list_ascii name).
      rewrite list_ascii_of_string_of_list_ascii.
      split; [done|]. split; [now destruct name|done].
  - intros (c & project & rest & -> & Hc & Hpne & Hps & Hrest).
    exists c, (list_ascii_of_string project), (list_ascii_of_string rest).
    split; [|split; [done|split; [now destruct project|split; [done|]]]].
    + rewrite list_ascii_of_string_app. cbn [list_ascii_of_string].
      now rewrite !list_ascii_of_string_app.
    + destruct Hrest as [->|(name & -> & Hne & Hns)]; [now left|right].
      exists (list_ascii_of_string name).
      split; [done|]. split; [now destruct name|done].
Qed.

End GeyserRegex.

Section GeyserBattery.
Import Geyser.

Lemma string_app_nil_r (s : string) : s +:+ "" = s.
Proof.
  induction s as [|c s IH]; [done|].
  change (String c (s +:+ "") = String c s). now rewrite IH.
Qed.

Lemma split_no_slash (s : string) : no_slash s → split "/" s = [s].
Proof.
  unfold no_slash. induction s as [|c s IH]; cbn; [done|].
  intros H. apply not_elem_of_cons in H as [Hc Hs].
  rewrite (proj2 (Ascii.eqb_neq _ _)) by congruence. now rewrite IH.
Qed.

Lemma split_segment (segment rest : string) :
  no_slash segment →
  split "/" (segment +:+ String "/" rest) = segment :: split "/" rest.
Proof.
  unfold no_slash. induction segment as [|c s IH]; [done|].
  intros H. apply not_elem_of_cons in H as [Hc Hs].
  change (String c s +:+ String "/" rest) with (String c (s +:+ String "/" rest)).
  cbn [split]. rewrite (proj2 (Ascii.eqb_neq _ _)) by congruence. now rewrite IH.
Qed.

Lemma handleProjectPage_calls (page : Page) (name : string) :
  calls (handleProjectPage page name) =
    queries ++ (if truthy_str (innerText page "#lightning-address")
                then [EvGetOriginData] else []).
Proof.
  unfold handleProjectPage, bind, call, ret. cbn.
  destruct (truthy_str _); [|done]. now destruct (getOriginData page).
Qed.

(** A string is a segment without "/", alone or followed by "/" and a
    rest; [split] cuts it there. *)
Lemma split_inv (s : string) :
  (no_slash s ∧ split "/" s = [s]) ∨
  ∃ segment rest,
    s = segment +:+ String "/" rest ∧ no_slash segment ∧
    split "/" s = segment :: split "/" rest.
Proof.
  unfold no_slash. induction s as [|c s IH].
  - left. split; [apply not_elem_of_nil|done].
  - destruct (Ascii.eqb_spec c "/") as [->|Hc].
    + right. exists "", s. split; [done|]. split; [apply not_elem_of_nil|done].
    + cbn [split]. rewrite (proj2 (Ascii.eqb_neq _ _) Hc).
      destruct IH as [[Hs ->]|(segment & rest & -> & Hseg & ->)].
      * left. split; [|done]. apply not_elem_of_cons. split; [congruence|done].
      * right. exists (String c segment), rest. split; [done|]. split; [|done].
        apply not_elem_of_cons. split; [congruence|done].
Qed.

(** X19.  [battery] never returns data, whatever the page holds.  It reads
    the page exactly when the segments of the path after the first, which
    are cut at each "/", begin with a non-empty project and a non-empty
    name ("/project/name", with or without more after it), and then makes
    the calls of [handleProjectPage] for that name; for every other path
    (one segment, an empty project, an empty name) it does not touch the
    page. *)
Theorem battery_inert (page : Page) :
  (∀ b, outcome (battery page) ≠ Ok (Some b)) ∧
  (∀ first project name rest,
     pathname page =
       first +:+ String "/" (project +:+ String "/" (name +:+ rest)) →
     no_slash first → project ≠ "" → no_slash project →
     name ≠ "" → no_slash name →
     (rest = "" ∨ ∃ more, rest = String "/" more) →
     calls (battery page) = calls (handleProjectPage page name) ∧
     ∃ more, calls (battery page) = queries ++ more) ∧
  (calls (battery page) ≠ [] →
   ∃ first project name rest,
     pathname page =
       first +:+ String "/" (project +:+ String "/" (name +:+ rest)) ∧
     no_slash first ∧ project ≠ "" ∧ no_slash project ∧
     name ≠ "" ∧ no_slash name ∧
     (rest = "" ∨ ∃ more, rest = String "/" more)).
Proof.
  split; [|split].
  - intros b. unfold battery, bind, ret.
    destruct (truthy_str _ && truthy_str _); [|done].
    now destruct (handleProjectPage page _) as [[r|e] evs].
  - intros first project name rest Hpath Hf Hp Hps Hn Hns Hrest.
    assert (Hsplit : ∃ segments,
              split "/" (pathname page) = first :: project :: name :: segments).
    { rewrite Hpath, (split_segment first _ Hf), (split_segment project _ Hps).
      destruct Hrest as [->|[more ->]].
      - rewrite string_app_nil_r, (split_no_slash name Hns). eauto.
      - rewrite (split_segment name _ Hns). eauto. }
    destruct Hsplit as [segments Hsplit].
    unfold battery. rewrite Hsplit. cbn [lookup list_lookup].
    rewrite (proj2 (truthy_str_Some project) Hp), (proj2 (truthy_str_Some name) Hn).
    cbn [andb]. unfold bind, ret. cbn [default from_option id].
    split.
    + destruct (handleProjectPage page name) as [[r|e] evs]; cbn; [|done].
      apply app_nil_r.
    + exists (if truthy_str (innerText page "#lightning-address")
              then [EvGetOriginData] else []).
      rewrite <- (handleProjectPage_calls page name).
      destruct (handleProjectPage page name) as [[r|e] evs]; cbn; [|done].
      apply app_nil_r.
  - unfold battery.
    destruct (split_inv (pathname page))
      as [[_ ->]|(first & tail & Hpath & Hf & ->)]; [done|].
    destruct (split_inv tail)
      as [[_ ->]|(project & tail' & -> & Hps & ->)];
      [cbn; now rewrite andb_false_r|].
    assert (Hname : ∃ name rest segments,
              tail' = name +:+ rest ∧ no_slash name ∧
              (rest = "" ∨ ∃ more, rest = String "/" more) ∧
              split "/" tail' = name :: segments).
    { destruct (split_inv tail')
        as [[Hns ->]|(name & more & -> & Hns & ->)].
      - exists tail', "", []. rewrite string_app_nil_r. auto.
      - exists name, (String "/" more). eauto 10. }
    destruct Hname as (name & rest & segments & -> & Hns & Hrest & ->).
    cbn [lookup list_lookup].
    destruct (truthy_str (Some project)) eqn:Hp; [|done].
    destruct (truthy_str (Some name)) eqn:Hn; [|done].
    intros _. exists first, project, name, rest.
    apply truthy_str_Some in Hp, Hn. done.
Qed.

(** X20.  [handleProjectPage] asks the page for the address, the title and
    the icon, in that order, and reads the origin data only when the page
    shows a non-empty lightning address; without one it returns nothing.
    In the object it returns, [description] is "geyser.fund", [name] is
    the title of the page when there is one (even an empty one) and else
    the name given, and [icon] is the project's avatar or else the geyser
    logo; these three replace what the origin data says under the same
    keys, every other property of the origin data is kept, and [method]
    and [address] are "lnurl" and the lightning address unless the origin
    data has such keys.  An exception of [getOriginData] reaches the
    caller. *)
Theorem handleProjectPage_result (page : Page) (name : string) :
  (truthy_str (innerText page "#lightning-address") = false →
   handleProjectPage page name = (Ok None, queries)) ∧
  (∀ address origin,
     innerText page "#lightning-address" = Some address → address ≠ "" →
     getOriginData page = Ok origin →
     ∃ b,
       handleProjectPage page name = (Ok (Some b), queries ++ [EvGetOriginData]) ∧
       b !! "description" = Some (VString "geyser.fund") ∧
       b !! "name" =
         Some (VString (default name (innerText page "#project-title"))) ∧
       b !! "icon" =
         Some (VString (default "https://geyser.fund/logo-brand.svg"
                          (src page "#project-avatar img"))) ∧
       b !! "method" = Some (default (VString "lnurl") (origin !! "method")) ∧
       b !! "address" = Some (default (VString address) (origin !! "address")) ∧
       ∀ k, k ∉ ["description"; "name"; "icon"; "method"; "address"] →
            b !! k = origin !! k) ∧
  (∀ address e,
     innerText page "#lightning-address" = Some address → address ≠ "" →
     getOriginData page = Throw e →
     handleProjectPage page name = (Throw e, queries ++ [EvGetOriginData])).
Proof.
  unfold handleProjectPage, bind, call, ret. cbn [app]. split; [|split].
  - now intros ->.
  - intros address origin Haddr Hne Horigin.
    rewrite Haddr, (proj2 (truthy_str_Some address) Hne), Horigin.
    eexists. split; [reflexivity|].
    repeat split.
    + rewrite lookup_insert_ne, lookup_insert_ne by done. apply lookup_insert_eq.
    + rewrite lookup_insert_ne by done. apply lookup_insert_eq.
    + apply lookup_insert_eq.
    + rewrite !lookup_insert_ne by done.
      destruct (origin !! "method") as [v|] eqn:Hv; cbn.
      * rewrite lookup_union_l' by (rewrite Hv; eauto). done.
      * rewrite lookup_union_r by done. rewrite lookup_insert_ne by done.
        apply lookup_singleton_eq.
    + rewrite !lookup_insert_ne by done.
      destruct (origin !! "address") as [v|] eqn:Hv; cbn.
      * rewrite lookup_union_l' by (rewrite Hv; eauto). done.
      * rewrite lookup_union_r by done. apply lookup_insert_eq.
    + intros k Hk. rewrite !not_elem_of_cons in Hk.
      destruct Hk as (Hd & Hn & Hi & Hm & Ha & _).
      rewrite !lookup_insert_ne by done.
      destruct (origin !! k) as [v|] eqn:Hv.
      * rewrite lookup_union_l' by (rewrite Hv; eauto). done.
      * rewrite lookup_union_r by done. rewrite lookup_insert_ne by done.
        now rewrite lookup_singleton_ne.
  - intros address e Haddr Hne Horigin.
    now rewrite Haddr, (proj2 (truthy_str_Some address) Hne), Horigin.
Qed.

End GeyserBattery.

Example urlMatcher_examples :
  Geyser.test Geyser.urlMatcher "https://geyser.fund/project" = true ∧
  Geyser.test Geyser.urlMatcher "https://geyser.fund/project/bitcoin-dev" = true ∧
  Geyser.test Geyser.urlMatcher "https://geyser-fund/project" = true ∧
  Geyser.test Geyser.urlMatcher "https://geyser.fund/project/" = false ∧
  Geyser.test Geyser.urlMatcher "https://geyser.fund/a/b/c" = false ∧
  Geyser.test Geyser.urlMatcher "https://geyser.fund/" = false ∧
  Geyser.test Geyser.urlMatcher "http://geyser.fund/project" = false.
Proof. repeat split; vm_compute; reflexivity. Qed.

(** Paths at which the battery does not read the page (the last has an
    empty project), and paths at which it does. *)
Example battery_paths :
  calls (Geyser.battery (DemoGeyser.page_at "/")) = [] ∧
  calls (Geyser.battery (DemoGeyser.page_at "/project")) = [] ∧
  calls (Geyser.battery (DemoGeyser.page_at "/project/")) = [] ∧
  calls (Geyser.battery (DemoGeyser.page_at "//bitcoin-dev")) = [] ∧
  calls (Geyser.battery (DemoGeyser.page_at "/project/bitcoin-dev/posts")) =
    Geyser.queries ++ [Geyser.EvGetOriginData] ∧
  calls (Geyser.battery (DemoGeyser.page_at "/launch/project")) =
    Geyser.queries ++ [Geyser.EvGetOriginData].
Proof. repeat split. Qed.

Example battery_on_project_page :
  Geyser.battery DemoGeyser.project_page =
    (Ok None, Geyser.queries ++ [Geyser.EvGetOriginData]) ∧
  ∃ b, outcome (Geyser.handleProjectPage DemoGeyser.project_page "bitcoin-dev") =
         Ok (Some b) ∧
       b !! "name" = Some (Geyser.VString "Bitcoin Dev") ∧
       b !! "host" = Some (Geyser.VString "geyser.fund") ∧
       b !! "address" = Some (Geyser.VString "dev@geyser.fund").
Proof.
  split; [reflexivity|]. eexists. split; [reflexivity|].
  repeat split; vm_compute; reflexivity.
Qed.

(** The theorem at one custom record. *)
Lemma nwc_keysend_records_witness :
  calls (NWC.keysend DemoNWC.client_up DemoNWC.wallet
           {| Connector.ks_pubkey := "02ab"; Connector.ks_amount := Js.of_Z 21;
              Connector.customRecords := [("7629169", "hello")] |}) =
    [NWC.EvPayKeysend
       {| NWC.pk_pubkey := "02ab"; NWC.pk_amount := Js.of_Z 21;
          NWC.tlv_records := [ {| NWC.tlv_type := Js.of_Z 7629169;
                                  NWC.tlv_value := "hello" |} ] |}].
Proof.
  refine (nwc_keysend_records DemoNWC.client_up DemoNWC.wallet "02ab" (Js.of_Z 21)
            [([7; 6; 2; 9; 1; 6; 9]%nat, "hello")] _).
  repeat constructor; try discriminate; cbn; lia.
Defined.

(** ** Amounts without a unit suffix *)

Lemma replace_msat_plain (ds : list nat) :
  Js.all_digits ds →
  Js.replace "msat" "" (Js.digits_string ds) = Js.digits_string ds.
Proof.
  intros H. induction H as [|d ds Hd _ IH]; [reflexivity|].
  change (Js.digits_string (d :: ds))
    with (String (Js.digit_char d) (Js.digits_string ds)).
  cbn [Js.replace].
  assert (Hm : ∀ s, Js.strip_prefix "msat" (String (Js.digit_char d) s) = None).
  { intros s. clear - Hd. each_digit d by reflexivity. }
  rewrite Hm. f_equal. exact IH.
Qed.

(** X22.  The "msat" suffix is optional for the Commando connector: an
    answer to [pay] or [keysend] whose amounts are plain strings of decimal
    digits is normalized to the same amounts as with the suffix: the
    number written as amount divided by 1000, and the difference of the
    two numbers written divided by 1000 (numbers and operations those of
    binary64). *)
Theorem commando_pay_suffix_optional (parsed : Commando.CommandoPayInvoiceResponse)
    (amt sent : list nat) :
  Js.all_digits amt → Js.all_digits sent →
  Commando.amount_msat parsed = Js.digits_string amt →
  Commando.amount_sent_msat parsed = Js.digits_string sent →
  Connector.route (Connector.data (Commando.parsePayResponse parsed)) =
    {| Connector.total_amt :=
         Js.div (Js.of_Z (Js.digits_value amt)) (Js.of_Z 1000);
       Connector.total_fees :=
         Js.div (Js.sub (Js.of_Z (Js.digits_value sent))
                        (Js.of_Z (Js.digits_value amt)))
                (Js.of_Z 1000) |} ∧
  Commando.parsePayResponse parsed =
    Commando.parsePayResponse
      {| Commando.payment_preimage := Commando.payment_preimage parsed;
         Commando.payment_hash := Commando.payment_hash parsed;
         Commando.amount_msat := Commando.amount_msat parsed +:+ "msat";
         Commando.amount_sent_msat := Commando.amount_sent_msat parsed +:+ "msat" |}.
Proof.
  intros Hamt Hsent Ha Hs.
  assert (Hplain : Commando.parsePayResponse parsed =
            {| Connector.data :=
                 {| Connector.preimage := Commando.payment_preimage parsed;
                    Connector.paymentHash := Commando.payment_hash parsed;
                    Connector.route :=
                      {| Connector.total_amt :=
                           Js.div (Js.of_Z (Js.digits_value amt)) (Js.of_Z 1000);
                         Connector.total_fees :=
                           Js.div (Js.sub (Js.of_Z (Js.digits_value sent))
                                          (Js.of_Z (Js.digits_value amt)))
                                  (Js.of_Z 1000) |} |} |}).
  { unfold Commando.parsePayResponse. rewrite Ha, Hs.
    now rewrite !replace_msat_plain, !StringToNumber_digits by done. }
  split; [now rewrite Hplain|].
  rewrite Hplain. symmetry.
  now rewrite (parsePayResponse_amounts _ amt sent Hamt Hsent)
    by (cbn; congruence).
Qed.

(** The theorem at an answer of 1500 with 1510 sent. *)
Lemma commando_pay_suffix_optional_witness :
  Connector.route
    (Connector.data
       (Commando.parsePayResponse
          {| Commando.payment_preimage := "00ff"; Commando.payment_hash := "ab12";
             Commando.amount_msat := "1500";
             Commando.amount_sent_msat := "1510" |})) =
    {| Connector.total_amt := Js.div (Js.of_Z 1500) (Js.of_Z 1000);
       Connector.total_fees :=
         Js.div (Js.sub (Js.of_Z 1510) (Js.of_Z 1500)) (Js.of_Z 1000) |}.
Proof.
  refine (proj1 (commando_pay_suffix_optional
                   {| Commando.payment_preimage := "00ff";
                      Commando.payment_hash := "ab12";
                      Commando.amount_msat := "1500";
                      Commando.amount_sent_msat := "1510" |}
                   [1; 5; 0; 0]%nat [1; 5; 1; 0]%nat _ _ eq_refl eq_refl));
    unfold Js.all_digits; repeat (constructor; [lia|]); constructor.
Defined.
